(** * smart-books-ai: record reconciliation core

    A shallow embedding of the matching, identity, deduplication,
    enrichment and exclusion code of the book pipeline
    ([build_base_dataset.py], [enrich_books.py], [apply_exclusions.py]),
    with the properties of its specification stated over it.

    Text is modelled as [string]: a sequence of code points below 256
    (Latin-1).  On that range the character classes, [str.lower],
    [str.strip] and the regular expressions below agree with Python's.
    A missing cell of a data frame ([None] or NaN) is [None]. *)

From Stdlib Require Import String Ascii List Bool Arith ZArith QArith Lia.
From stdpp Require Import base option list gmap strings sorting.

Local Open Scope string_scope.
Local Open Scope bool_scope.

(** ** Characters and strings as Python sees them *)

Module Text.

Definition code (c : ascii) : nat := nat_of_ascii c.

Definition in_range (lo hi : nat) (c : ascii) : bool :=
  (lo <=? code c)%nat && (code c <=? hi)%nat.

(** [str.isspace] and the class [\s] of a [str] pattern: TAB..CR, FS..US,
    space, NEL and NBSP. *)
Definition is_space (c : ascii) : bool :=
  in_range 9 13 c || in_range 28 32 c || (code c =? 133)%nat || (code c =? 160)%nat.

(** [\d] and [[0-9]]. *)
Definition is_digit (c : ascii) : bool := in_range 48 57 c.

(** [[A-Z]]. *)
Definition is_upper_az (c : ascii) : bool := in_range 65 90 c.

Definition chr (a : ascii) : ascii -> bool := Ascii.eqb a.
Definition not_chr (a : ascii) : ascii -> bool := fun c => negb (Ascii.eqb a c).

(** [.] without DOTALL *)
Definition any_but_newline : ascii -> bool := not_chr "010".

Definition dquote : ascii := "034".

(** [str.lower], per character: A-Z and the Latin-1 capitals. *)
Definition lower_char (c : ascii) : ascii :=
  if in_range 65 90 c || in_range 192 214 c || in_range 216 222 c
  then ascii_of_nat (code c + 32) else c.

(** [str.upper], per character.  The code only applies it to strings over
    [[0-9Xx]]; the two Latin-1 letters whose capital lies outside the range
    are left alone. *)
Definition upper_char (c : ascii) : ascii :=
  if in_range 97 122 c || in_range 224 246 c || in_range 248 254 c
  then ascii_of_nat (code c - 32) else c.

Fixpoint smap (f : ascii -> ascii) (s : string) : string :=
  match s with
  | EmptyString => EmptyString
  | String c s' => String (f c) (smap f s')
  end.

Definition lower : string -> string := smap lower_char.
Definition upper : string -> string := smap upper_char.

Fixpoint sfilter (p : ascii -> bool) (s : string) : string :=
  match s with
  | EmptyString => EmptyString
  | String c s' => if p c then String c (sfilter p s') else sfilter p s'
  end.

Fixpoint sall (p : ascii -> bool) (s : string) : bool :=
  match s with
  | EmptyString => true
  | String c s' => p c && sall p s'
  end.

(** [a in s] for a one-character [a] *)
Definition contains (a : ascii) (s : string) : bool := negb (sall (not_chr a) s).

Definition is_empty (s : string) : bool :=
  match s with EmptyString => true | _ => false end.

Fixpoint drop_while (p : ascii -> bool) (s : string) : string :=
  match s with
  | EmptyString => EmptyString
  | String c s' => if p c then drop_while p s' else s
  end.

Definition lstrip : string -> string := drop_while is_space.

Fixpoint rstrip (s : string) : string :=
  match s with
  | EmptyString => EmptyString
  | String c s' =>
      let r := rstrip s' in
      if is_empty r && is_space c then EmptyString else String c r
  end.

(** [str.strip()] *)
Definition strip (s : string) : string := rstrip (lstrip s).

(** [s.split(a, 1)] when [a in s]: the text before and after the first [a] *)
Fixpoint split_once (a : ascii) (s : string) : option (string * string) :=
  match s with
  | EmptyString => None
  | String c s' =>
      if Ascii.eqb a c then Some (EmptyString, s')
      else match split_once a s' with
           | Some (l, r) => Some (String c l, r)
           | None => None
           end
  end.

(** [len(s.split())]: the number of maximal runs of non-space characters.
    [inside] tells whether the previous character belonged to a run. *)
Fixpoint count_tokens (inside : bool) (s : string) : nat :=
  match s with
  | EmptyString => 0
  | String c s' =>
      if is_space c then count_tokens false s'
      else if inside then count_tokens true s' else S (count_tokens true s')
  end.

(** [d.get(key, default)] and [x or default] on an optional text *)
Definition get_or (d : string) (o : option string) : string :=
  match o with
  | Some s => s
  | None => d
  end.

(** [s[:n]] *)
Fixpoint slice_to (n : nat) (s : string) : string :=
  match n, s with
  | S n', String c s' => String c (slice_to n' s')
  | _, _ => EmptyString
  end.

End Text.

(** ** The fragment of Python's [re] the pipeline uses

    A backtracking matcher in continuation-passing style: alternatives are
    tried in Python's order (greedy first), and the continuation decides
    whether the rest of the pattern matches, so a failed attempt backtracks
    into the last choice point.  Repetition is only ever applied to a
    character class in the patterns of this code base. *)

Module Re.
Import Text.

Inductive regex : Type :=
| Eps
| Cls (p : ascii -> bool)      (* one character of a class *)
| Star (p : ascii -> bool)     (* [p*], greedy *)
| Cat (r1 r2 : regex)
| Opt (r : regex)              (* [(?:r)?], greedy *)
| Ahead (p : ascii -> bool)    (* [(?=p)] *)
| Eos.                         (* [$] without MULTILINE *)

Definition Plus (p : ascii -> bool) : regex := Cat (Cls p) (Star p).

Fixpoint Seq (rs : list regex) : regex :=
  match rs with
  | [] => Eps
  | [r] => r
  | r :: rs' => Cat r (Seq rs')
  end.

Fixpoint Lit (s : string) : regex :=
  match s with
  | EmptyString => Eps
  | String c s' => Cat (Cls (chr c)) (Lit s')
  end.

Section Matcher.
Context {A : Type}.

Fixpoint star (p : ascii -> bool) (k : string -> option A) (s : string) : option A :=
  match s with
  | String c s' =>
      if p c then
        match star p k s' with
        | Some v => Some v
        | None => k s
        end
      else k s
  | EmptyString => k s
  end.

(** [rmatch r k s]: match [r] at the start of [s], then hand what is left
    to [k]. *)
Fixpoint rmatch (r : regex) (k : string -> option A) (s : string) : option A :=
  match r with
  | Eps => k s
  | Cls p =>
      match s with
      | String c s' => if p c then k s' else None
      | EmptyString => None
      end
  | Star p => star p k s
  | Cat r1 r2 => rmatch r1 (rmatch r2 k) s
  | Opt r1 =>
      match rmatch r1 k s with
      | Some v => Some v
      | None => k s
      end
  | Ahead p =>
      match s with
      | String c _ => if p c then k s else None
      | EmptyString => None
      end
  | Eos =>
      match s with
      | EmptyString => k s
      | String c EmptyString => if Ascii.eqb c "010" then k s else None
      | _ => None
      end
  end.
End Matcher.

(** [re.match] at the start of [s]: what follows the match. *)
Definition match_at (r : regex) (s : string) : option string := rmatch r Some s.

(** [re.sub(r, repl, s)].  [skip] counts the characters of the current match
    that are still to be passed over.  An empty match puts [repl] in front of
    the next character, as Python (3.7 and later) does. *)
Fixpoint re_sub_go (r : regex) (repl : string) (skip : nat) (s : string) : string :=
  match s with
  | EmptyString =>
      match skip, match_at r EmptyString with
      | O, Some _ => repl
      | _, _ => EmptyString
      end
  | String c s' =>
      match skip with
      | S n => re_sub_go r repl n s'
      | O =>
          match match_at r s with
          | Some rest =>
              match (String.length s - String.length rest)%nat with
              | O => repl ++ String c (re_sub_go r repl 0 s')
              | S n => repl ++ re_sub_go r repl n s'
              end
          | None => String c (re_sub_go r repl 0 s')
          end
      end
  end.

Definition re_sub (r : regex) (repl s : string) : string := re_sub_go r repl 0 s.

(** [re.split(r, s)[0]]: the text before the first match. *)
Fixpoint re_split_head (r : regex) (s : string) : string :=
  match match_at r s with
  | Some _ => EmptyString
  | None =>
      match s with
      | EmptyString => EmptyString
      | String c s' => String c (re_split_head r s')
      end
  end.

End Re.

(** ** Shapes of strings and patterns, for the statements below *)

Module Shapes.
Import Text Re.

(** [t] is what is left of [s] after some prefix. *)
Definition is_suffix (t s : string) : Prop := exists u, s = u ++ t.

Definition is_prefix (u s : string) : Prop := exists t, s = u ++ t.

(** No character of [s] is in the class [p]. *)
Definition free_of (p : ascii -> bool) (s : string) : bool := sall (fun c => negb (p c)) s.

(** [str.lower] leaves [s] as it is. *)
Definition lower_fixed (s : string) : bool :=
  sall (fun c => Ascii.eqb (lower_char c) c) s.

Definition starts_solid (s : string) : bool :=
  match s with
  | String c _ => negb (is_space c)
  | EmptyString => true
  end.

(** Whitespace only occurs as single spaces. *)
Fixpoint collapsed (s : string) : bool :=
  match s with
  | EmptyString => true
  | String c s' =>
      (if is_space c then Ascii.eqb c " " && starts_solid s' else true) && collapsed s'
  end.

(** The number of occurrences of [a]. *)
Fixpoint count_char (a : ascii) (s : string) : nat :=
  match s with
  | EmptyString => 0
  | String c s' => (if Ascii.eqb a c then 1 else 0) + count_char a s'
  end.

(** [s[n:]] *)
Fixpoint skip (n : nat) (s : string) : string :=
  match n, s with
  | S n', String _ s' => skip n' s'
  | _, _ => s
  end.

(** [s.endswith(a)] *)
Fixpoint ends_with (a : ascii) (s : string) : bool :=
  match s with
  | EmptyString => false
  | String c EmptyString => Ascii.eqb a c
  | String _ s' => ends_with a s'
  end.

(** The pattern closes with the character [a], optional whitespace and
    [$]. *)
Inductive closes_with (a : ascii) : regex -> Prop :=
| closes_here (p : ascii -> bool) :
    (forall c, p c = true -> c = a) ->
    closes_with a (Cat (Cls p) (Cat (Star is_space) Eos))
| closes_cat (r1 r2 : regex) : closes_with a r2 -> closes_with a (Cat r1 r2).

(** What is left of [s] behind the literal [l]. *)
Fixpoint strip_prefix (l s : string) : option string :=
  match l with
  | EmptyString => Some s
  | String a l' =>
      match s with
      | String c s' => if Ascii.eqb a c then strip_prefix l' s' else None
      | EmptyString => None
      end
  end.

(** What is left behind a colon and a run of whitespace. *)
Definition after_colon (s : string) : option string :=
  match s with
  | String c0 (String c1 s2) =>
      if chr ":" c0 && is_space c1 then Some (drop_while is_space s2) else None
  | _ => None
  end.

(** The two subtitle markers, read off the start of a text of one line. *)
Definition starts_a_novel (s : string) : bool :=
  match after_colon s with
  | Some t => match strip_prefix "a novel" t with Some _ => true | None => false end
  | None => false
  end.

Definition starts_book_n (s : string) : bool :=
  match after_colon s with
  | Some t =>
      match strip_prefix "book " t with
      | Some (String d _) => is_digit d
      | _ => false
      end
  | None => false
  end.

(** A bracketed group at the start of a text, behind optional whitespace:
    an opening bracket, at least one character that is not a closing one,
    and a closing bracket further on. *)
Definition starts_bracket (s : string) : bool :=
  match drop_while is_space s with
  | String c0 (String c1 s2) =>
      chr "[" c0 && not_chr "]" c1 && negb (is_empty (drop_while (not_chr "]") s2))
  | _ => false
  end.

(** What is left behind that group and the whitespace after it. *)
Definition after_bracket (s : string) : string :=
  match drop_while is_space s with
  | String _ (String _ s2) =>
      match drop_while (not_chr "]") s2 with
      | String _ s3 => drop_while is_space s3
      | EmptyString => EmptyString
      end
  | _ => EmptyString
  end.

(** No suffix of [s] starts with a hit. *)
Definition hit_free (hit : string -> bool) (s : string) : Prop :=
  forall t, is_suffix t s -> hit t = false.

(** The alphabet of a cleaned ISBN, and the characters [clean_isbn] keeps. *)
Definition isbn_char (c : ascii) : bool := is_digit c || chr "X" c.

Definition kept_char (c : ascii) : bool := is_digit c || chr "X" c || chr "x" c.

End Shapes.

(** ** Key Normalizer ([build_base_dataset.py], helpers) *)

Module Normalizer.
Import Text Re.

(** A cell of a data frame: [None] is [None]/NaN, for which [pd.isna] holds. *)
Definition cell := option string.

(** the class of [=], the double quote, [\s] and [-] *)
Definition re_excel : regex :=
  Cls (fun c => chr "=" c || chr dquote c || is_space c || chr "-" c).

(** [[^0-9Xx]] *)
Definition re_non_isbn : regex :=
  Cls (fun c => negb (is_digit c || chr "X" c || chr "x" c)).

(** [\s+] *)
Definition re_spaces : regex := Plus is_space.

Definition clean_isbn (val : cell) : option string :=
  match val with
  | None => None
  | Some v =>
      let cleaned := strip (re_sub re_excel "" v) in
      let cleaned := upper (re_sub re_non_isbn "" cleaned) in
      if (String.length cleaned <? 10)%nat then None else Some cleaned
  end.

Definition normalize_text (text : cell) : string :=
  match text with
  | None => ""
  | Some t =>
      let text := strip (lower t) in
      re_sub re_spaces " " text
  end.

(** [\s*\([^)]*,\s*#?\d+(?:\.\d+)?\)\s*$] *)
Definition re_series : regex :=
  Seq [Star is_space; Cls (chr "("); Star (not_chr ")"); Cls (chr ",");
       Star is_space; Opt (Cls (chr "#")); Plus is_digit;
       Opt (Cat (Cls (chr ".")) (Plus is_digit));
       Cls (chr ")"); Star is_space; Eos].

(** [\s*\([^)]+\)\s*$] *)
Definition re_paren_end : regex :=
  Seq [Star is_space; Cls (chr "("); Plus (not_chr ")"); Cls (chr ")");
       Star is_space; Eos].

(** [\s*\[[^\]]+\]\s*] *)
Definition re_bracket : regex :=
  Seq [Star is_space; Cls (chr "["); Plus (not_chr "]"); Cls (chr "]");
       Star is_space].

(** [:\s+a novel.*$] *)
Definition re_a_novel : regex :=
  Seq [Cls (chr ":"); Plus is_space; Lit "a novel"; Star any_but_newline; Eos].

(** [:\s+book \d+.*$] *)
Definition re_book_n : regex :=
  Seq [Cls (chr ":"); Plus is_space; Lit "book "; Plus is_digit;
       Star any_but_newline; Eos].

Definition normalize_title_for_dedup (title : cell) : string :=
  match title with
  | None => ""
  | Some t =>
      let title := strip t in
      let title := re_sub re_series "" title in
      let title := re_sub re_paren_end "" title in
      let title := re_sub re_bracket "" title in
      let title := strip (lower title) in
      let title := re_sub re_spaces " " title in
      let title := re_sub re_a_novel "" title in
      let title := re_sub re_book_n "" title in
      title
  end.

Definition normalize_author (author : cell) : string :=
  match author with
  | None => ""
  | Some a =>
      let author := strip a in
      if contains "," author then
        match split_once "," author with
        | Some (p0, p1) => strip p1 ++ " " ++ strip p0
        | None => author
        end
      else author
  end.

(** [\s*\([^)]+\)] *)
Definition re_paren : regex :=
  Seq [Star is_space; Cls (chr "("); Plus (not_chr ")"); Cls (chr ")")].

(** [,\s+(?=[A-Z])] *)
Definition re_coauthor : regex :=
  Seq [Cls (chr ","); Plus is_space; Ahead is_upper_az].

Definition normalize_author_for_dedup (author : cell) : string :=
  match author with
  | None => ""
  | Some a =>
      let author := strip a in
      let author := re_sub re_paren "" author in
      let author := strip (re_split_head re_coauthor author) in
      let author :=
        if contains "," author then
          match split_once "," author with
          | Some (p0, p1) =>
              if (count_tokens false (strip p1) <=? 2)%nat
              then strip p1 ++ " " ++ strip p0
              else author
          | None => author
          end
        else author in
      strip (lower author)
  end.

End Normalizer.

(** ** Identity Resolver ([generate_book_key]) *)

Module Identity.
Import Text Re Normalizer.

(** [x and not pd.isna(x)] for an optional string *)
Definition truthy (c : cell) : bool :=
  match c with
  | Some s => negb (is_empty s)
  | None => false
  end.

Definition text_of (c : cell) : string :=
  match c with
  | Some s => s
  | None => ""
  end.

Section WithHash.
(** [hashlib.md5(s.encode('utf-8')).hexdigest()] *)
Variable md5_hexdigest : string -> string.

Definition generate_book_key (isbn13 title author book_id : cell) : string :=
  if truthy isbn13 && negb (String.eqb (text_of isbn13) "nan") then
    "isbn:" ++ text_of isbn13
  else if truthy book_id then
    "gr:" ++ text_of book_id
  else
    let combined := normalize_text title ++ "|" ++ normalize_text author in
    let hash_hex := slice_to 12 (md5_hexdigest combined) in
    "ta:" ++ hash_hex.

End WithHash.

(** The three shapes of a key. *)
Definition is_isbn_key (k : string) : bool := String.prefix "isbn:" k.
Definition is_native_key (k : string) : bool := String.prefix "gr:" k.
Definition is_hash_key (k : string) : bool := String.prefix "ta:" k.

End Identity.

(** ** The record set ([main] of [build_base_dataset.py]) *)

Module Frames.
Import Text Re Normalizer Identity.

(** A numeric cell ([float64] column); [None] is NaN. *)
Definition number := option Q.

Definition is_zero (n : number) : bool :=
  match n with
  | Some q => Qeq_bool q 0
  | None => false
  end.

(** A row of the Goodreads export, with the columns [main] reads. *)
Record GoodreadsRow := {
  gr_Book_Id : cell;
  gr_Title : cell;
  gr_Author : cell;
  gr_ISBN : cell;
  gr_ISBN13 : cell;
  gr_Year_Published : cell;
  gr_Average_Rating : number;
  gr_My_Rating : number;
  gr_Date_Read : cell;
  gr_Exclusive_Shelf : cell
}.

(** A row of the Kaggle corpus. *)
Record KaggleRow := {
  kg_bookId : cell;
  kg_title : cell;
  kg_author : cell;
  kg_isbn : cell;
  kg_language : cell;
  kg_publishDate : cell;
  kg_description : cell;
  kg_genres : cell;
  kg_coverImg : cell;
  kg_rating : number;
  kg_numRatings : number
}.

(** The output schema.  The four provenance columns at the end only exist
    in the enrichment stage. *)
Record BookRecord := {
  book_key : string;
  title : cell;
  author : cell;
  isbn : cell;
  isbn13 : cell;
  isbn10 : cell;
  publish_year : cell;
  description_raw : cell;
  description_clean : cell;
  description_for_embedding : cell;
  genres_list : cell;
  genre_primary : cell;
  cover_image_url : cell;
  avg_rating : number;
  num_ratings : number;
  popularity_score : number;
  is_read : bool;
  my_rating : number;
  date_read : cell;
  source : cell;
  source_book_id : cell;
  description_source : cell;
  cover_image_source : cell;
  categories_raw : cell;
  subjects_raw : cell
}.

(** Derived columns of the two frames. *)
Definition gr_isbn13_clean (g : GoodreadsRow) : cell := clean_isbn (gr_ISBN13 g).
Definition gr_isbn10_clean (g : GoodreadsRow) : cell := clean_isbn (gr_ISBN g).
Definition gr_author_norm (g : GoodreadsRow) : string := normalize_author (gr_Author g).
Definition gr_title_norm (g : GoodreadsRow) : string := normalize_text (gr_Title g).

Definition kg_isbn_clean (k : KaggleRow) : cell := clean_isbn (kg_isbn k).
Definition kg_author_norm (k : KaggleRow) : string := normalize_author (kg_author k).
Definition kg_title_norm (k : KaggleRow) : string := normalize_text (kg_title k).

(** [str(x)] of a cell: NaN prints as [nan]. *)
Definition py_str (c : cell) : string :=
  match c with
  | Some s => s
  | None => "nan"
  end.

Section Build.
Variable md5_hexdigest : string -> string.

Definition gr_book_key (g : GoodreadsRow) : string :=
  generate_book_key md5_hexdigest (gr_isbn13_clean g) (gr_Title g) (gr_Author g)
    (Some (py_str (gr_Book_Id g))).

(** [gr_records], one row (lines 286-308). *)
Definition gr_record (g : GoodreadsRow) : BookRecord := {|
  book_key := gr_book_key g;
  title := gr_Title g;
  author := gr_Author g;
  isbn := gr_isbn13_clean g;
  isbn13 := gr_isbn13_clean g;
  isbn10 := gr_isbn10_clean g;
  publish_year := gr_Year_Published g;
  description_raw := Some "";
  description_clean := Some "";
  description_for_embedding := Some "";
  genres_list := Some "[]";
  genre_primary := Some "Unknown";
  cover_image_url := Some "";
  avg_rating := gr_Average_Rating g;
  num_ratings := None;
  popularity_score := None;
  is_read := true;
  my_rating := gr_My_Rating g;
  date_read := gr_Date_Read g;
  source := Some "goodreads_export";
  source_book_id := gr_Book_Id g;
  description_source := None;
  cover_image_source := None;
  categories_raw := None;
  subjects_raw := None
|}.

(** [kaggle_records], one row (lines 369-394). *)
Definition kaggle_record (k : KaggleRow) : BookRecord := {|
  book_key := generate_book_key md5_hexdigest (kg_isbn_clean k) (kg_title k) (kg_author k) None;
  title := kg_title k;
  author := kg_author k;
  isbn := kg_isbn_clean k;
  isbn13 := kg_isbn_clean k;
  isbn10 := None;
  publish_year := kg_publishDate k;
  description_raw := kg_description k;
  description_clean := Some "";
  description_for_embedding := Some "";
  genres_list := kg_genres k;
  genre_primary := Some "Unknown";
  cover_image_url := kg_coverImg k;
  avg_rating := kg_rating k;
  num_ratings := kg_numRatings k;
  popularity_score := kg_numRatings k;
  is_read := false;
  my_rating := None;
  date_read := None;
  source := Some "kaggle_best_books";
  source_book_id := kg_bookId k;
  description_source := None;
  cover_image_source := None;
  categories_raw := None;
  subjects_raw := None
|}.

(** The three steps between concatenation and deduplication (lines 443-463)
    recompute four text columns from helpers outside the matching core. *)
Variable clean_description : cell -> string.
Variable parsed_genres_json : cell -> string.
Variable primary_genre : cell -> string.
Variable embedding_text : cell -> cell -> string -> cell -> string.

Definition finalize (r : BookRecord) : BookRecord := {|
  book_key := book_key r;
  title := title r;
  author := author r;
  isbn := isbn r;
  isbn13 := isbn13 r;
  isbn10 := isbn10 r;
  publish_year := publish_year r;
  description_raw := description_raw r;
  description_clean := Some (clean_description (description_raw r));
  description_for_embedding :=
    Some (embedding_text (title r) (author r)
            (clean_description (description_raw r)) (genres_list r));
  genres_list := Some (parsed_genres_json (genres_list r));
  genre_primary := Some (primary_genre (genres_list r));
  cover_image_url := cover_image_url r;
  avg_rating := avg_rating r;
  num_ratings := num_ratings r;
  popularity_score := popularity_score r;
  is_read := is_read r;
  my_rating := my_rating r;
  date_read := date_read r;
  source := source r;
  source_book_id := source_book_id r;
  description_source := description_source r;
  cover_image_source := cover_image_source r;
  categories_raw := categories_raw r;
  subjects_raw := subjects_raw r
|}.

End Build.

(** The six enrichable metadata columns of a record, replaced together. *)
Definition with_metadata (r : BookRecord) (d g c : cell) (a n p : number) : BookRecord := {|
  book_key := book_key r;
  title := title r;
  author := author r;
  isbn := isbn r;
  isbn13 := isbn13 r;
  isbn10 := isbn10 r;
  publish_year := publish_year r;
  description_raw := d;
  description_clean := description_clean r;
  description_for_embedding := description_for_embedding r;
  genres_list := g;
  genre_primary := genre_primary r;
  cover_image_url := c;
  avg_rating := a;
  num_ratings := n;
  popularity_score := p;
  is_read := is_read r;
  my_rating := my_rating r;
  date_read := date_read r;
  source := source r;
  source_book_id := source_book_id r;
  description_source := description_source r;
  cover_image_source := cover_image_source r;
  categories_raw := categories_raw r;
  subjects_raw := subjects_raw r
|}.

End Frames.

(** ** Multi-Pass Matcher (lines 337-429) *)

Module Matcher.
Import Text Re Normalizer Identity Frames.

Definition MIN_KAGGLE_RATINGS_COUNT : Q := 1000 # 1.
#[warnings="-abstract-large-number"]
Definition TOP_N_POPULAR_BOOKS : nat := 10000.

(** [needle in s] *)
Fixpoint has_substring (needle s : string) : bool :=
  String.prefix needle s ||
  match s with
  | EmptyString => false
  | String _ s' => has_substring needle s'
  end.

(** Language filter (lines 322-326). *)
Definition is_english (k : KaggleRow) : bool :=
  match kg_language k with
  | Some l => String.eqb l "English" || has_substring "English" l
  | None => true
  end.

(** Ratings filter (line 331); a comparison with NaN is false. *)
Definition has_min_ratings (k : KaggleRow) : bool :=
  match kg_numRatings k with
  | Some n => Qle_bool MIN_KAGGLE_RATINGS_COUNT n
  | None => false
  end.

Definition goodreads_isbns (goodreads : list GoodreadsRow) : gset string :=
  list_to_set (omap gr_isbn13_clean goodreads).

Definition goodreads_titles_authors (goodreads : list GoodreadsRow) : gset (string * string) :=
  list_to_set ((fun g => (gr_title_norm g, gr_author_norm g)) <$> goodreads).

Definition is_already_read (goodreads : list GoodreadsRow) (row : KaggleRow) : bool :=
  if truthy (kg_isbn_clean row)
     && bool_decide (text_of (kg_isbn_clean row) ∈ goodreads_isbns goodreads)
  then true
  else if bool_decide ((kg_title_norm row, kg_author_norm row) ∈ goodreads_titles_authors goodreads)
  then true
  else false.

(** [kaggle_unread], with the cap on its size (lines 360-365). *)
Definition kaggle_unread (goodreads : list GoodreadsRow) (kaggle : list KaggleRow) : list KaggleRow :=
  let unread := List.filter (fun k => negb (is_already_read goodreads k)) kaggle in
  if (TOP_N_POPULAR_BOOKS <? length unread)%nat
  then firstn TOP_N_POPULAR_BOOKS unread
  else unread.

(** The two lookup dictionaries (lines 402-403); the first row of a key
    wins, as [drop_duplicates] keeps it. *)
Definition kaggle_by_isbn (kaggle : list KaggleRow) : gmap string KaggleRow :=
  list_to_map (omap (fun k => (fun i => (i, k)) <$> kg_isbn_clean k) kaggle).

Definition kaggle_by_title_author (kaggle : list KaggleRow) : gmap (string * string) KaggleRow :=
  list_to_map ((fun k => ((kg_title_norm k, kg_author_norm k), k)) <$> kaggle).

(** [(row['title'], row['author']) in goodreads_titles_authors]: the raw
    title and author of the row, looked up in the set of normalized pairs. *)
Definition raw_pair_known (goodreads : list GoodreadsRow) (row : BookRecord) : bool :=
  match title row, author row with
  | Some t, Some a => bool_decide ((t, a) ∈ goodreads_titles_authors goodreads)
  | _, _ => false
  end.

(** The match of one row of [gr_records] (lines 409-417). *)
Definition find_kaggle_match (goodreads : list GoodreadsRow) (kaggle : list KaggleRow)
    (row : BookRecord) : option KaggleRow :=
  if truthy (isbn13 row)
     && bool_decide (is_Some (kaggle_by_isbn kaggle !! text_of (isbn13 row)))
  then kaggle_by_isbn kaggle !! text_of (isbn13 row)
  else if raw_pair_known goodreads row then
    let title_norm := normalize_text (title row) in
    let author_norm := normalize_text (Some (normalize_author (author row))) in
    kaggle_by_title_author kaggle !! (title_norm, author_norm)
  else None.

Definition isna (n : number) : bool :=
  match n with
  | Some _ => false
  | None => true
  end.

(** The body of [if kaggle_match:] (lines 419-428). *)
Definition backfill (row : BookRecord) (kaggle_match : option KaggleRow) : BookRecord :=
  match kaggle_match with
  | Some k =>
      let fill_popularity := isna (popularity_score row) || is_zero (popularity_score row) in
      with_metadata row
        (kg_description k)
        (kg_genres k)
        (kg_coverImg k)
        (if isna (avg_rating row) then kg_rating k else avg_rating row)
        (if fill_popularity then kg_numRatings k else num_ratings row)
        (if fill_popularity then kg_numRatings k else popularity_score row)
  | None => row
  end.

Definition backfill_row (goodreads : list GoodreadsRow) (kaggle : list KaggleRow)
    (row : BookRecord) : BookRecord :=
  backfill row (find_kaggle_match goodreads kaggle row).

End Matcher.

(** ** Deduplicator (lines 465-497) *)

Module Dedup.
Import Text Re Normalizer Identity Frames.

(** [drop_duplicates(subset=['book_key'], keep='first')] *)
Fixpoint drop_duplicates_go (seen : gset string) (rs : list BookRecord) : list BookRecord :=
  match rs with
  | [] => []
  | r :: rs' =>
      if bool_decide (book_key r ∈ seen) then drop_duplicates_go seen rs'
      else r :: drop_duplicates_go ({[book_key r]} ∪ seen) rs'
  end.

Definition drop_duplicates : list BookRecord -> list BookRecord := drop_duplicates_go ∅.

Definition title_norm_dedup (r : BookRecord) : string := normalize_title_for_dedup (title r).
Definition author_norm_dedup (r : BookRecord) : string := normalize_author_for_dedup (author r).
Definition dedup_key (r : BookRecord) : string := title_norm_dedup r ++ "|" ++ author_norm_dedup r.

Definition read_dedup_keys (rs : list BookRecord) : gset string :=
  list_to_set (dedup_key <$> List.filter is_read rs).

Definition mask_keep (rs : list BookRecord) (r : BookRecord) : bool :=
  is_read r || negb (bool_decide (dedup_key r ∈ read_dedup_keys rs)).

(** The second pass: [all_records[mask_keep]] *)
Definition second_pass (rs : list BookRecord) : list BookRecord :=
  List.filter (mask_keep rs) rs.

Definition removed_titles (rs : list BookRecord) : list cell :=
  title <$> List.filter (fun r => negb (mask_keep rs r)) rs.

Definition deduplicate (rs : list BookRecord) : list BookRecord :=
  second_pass (drop_duplicates rs).

End Dedup.

(** ** The whole of [main] up to the final record set *)

Module Pipeline.
Import Text Re Normalizer Identity Frames Matcher Dedup.

Section Main.
Variable md5_hexdigest : string -> string.
(** [sort_values('numRatings', ascending=False)]; the order of ties is
    left to pandas. *)
Variable sort_by_popularity : list KaggleRow -> list KaggleRow.
Variable clean_description : cell -> string.
Variable parsed_genres_json : cell -> string.
Variable primary_genre : cell -> string.
Variable embedding_text : cell -> cell -> string -> cell -> string.

Definition read_shelf (goodreads : list GoodreadsRow) : list GoodreadsRow :=
  List.filter (fun g => match gr_Exclusive_Shelf g with
                        | Some s => String.eqb s "read"
                        | None => false
                        end) goodreads.

Definition quality_corpus (kaggle : list KaggleRow) : list KaggleRow :=
  sort_by_popularity (List.filter has_min_ratings (List.filter is_english kaggle)).

Definition all_records (goodreads0 : list GoodreadsRow) (kaggle0 : list KaggleRow) : list BookRecord :=
  let goodreads := read_shelf goodreads0 in
  let kaggle := quality_corpus kaggle0 in
  let gr_records := backfill_row goodreads kaggle <$> (gr_record md5_hexdigest <$> goodreads) in
  let kaggle_records := kaggle_record md5_hexdigest <$> kaggle_unread goodreads kaggle in
  finalize clean_description parsed_genres_json primary_genre embedding_text
    <$> (gr_records ++ kaggle_records)%list.

Definition build_base_dataset (goodreads0 : list GoodreadsRow) (kaggle0 : list KaggleRow) : list BookRecord :=
  deduplicate (all_records goodreads0 kaggle0).

End Main.

End Pipeline.

(** ** Exclusion Filter ([apply_exclusions.py]) *)

Module Exclusions.
Import Text.

(** The [genres] entry of a book: JSON text, or a list already. *)
Inductive genres_val :=
| GenresText (s : string)
| GenresList (l : list string).

(** A book of [library_with_embeddings.json]; [None] is an absent entry,
    for which [book.get] yields its default.  An entry that is present is
    of the type the pipeline writes: text, truth value or whole number. *)
Record Book := {
  bk_id : option string;
  bk_title : option string;
  bk_author : option string;
  bk_is_read : option bool;
  bk_date_read : option string;
  bk_my_rating : option Z;
  bk_genres : option genres_val;
  bk_description : option string
}.

(** [exclusions.json]: the rule toggles and the three blocklists. *)
Record Config := {
  rules : gmap string bool;
  exclude_titles : list string;
  exclude_authors : list string;
  exclude_ids : list string
}.

Definition default_config : Config := {|
  rules := <["exclude_no_date_read" := true]>
             (<["exclude_one_star" := true]> (<["exclude_unread" := false]> ∅));
  exclude_titles := [];
  exclude_authors := [];
  exclude_ids := []
|}.

(** [rules.get(name, False)] *)
Definition rule (exclusions : Config) (name : string) : bool :=
  match rules exclusions !! name with
  | Some b => b
  | None => false
  end.

(** [book.get('is_read', False)] *)
Definition is_read (book : Book) : bool :=
  match bk_is_read book with
  | Some b => b
  | None => false
  end.

(** truth value of [book.get('date_read')] *)
Definition has_date_read (book : Book) : bool :=
  match bk_date_read book with
  | Some d => negb (is_empty d)
  | None => false
  end.

Definition should_exclude (book : Book) (exclusions : Config) : bool * option string :=
  let exclude_titles := lower <$> exclude_titles exclusions in
  let exclude_authors := lower <$> exclude_authors exclusions in
  let exclude_ids := exclude_ids exclusions in
  if rule exclusions "exclude_no_date_read" && (is_read book && negb (has_date_read book))
  then (true, Some "no_date_read")
  else if rule exclusions "exclude_one_star" && bool_decide (bk_my_rating book = Some 1%Z)
  then (true, Some "one_star")
  else if rule exclusions "exclude_unread" && negb (is_read book)
  then (true, Some "unread")
  else if bool_decide (lower (get_or "" (bk_title book)) ∈ exclude_titles)
  then (true, Some "title_list")
  else if bool_decide (lower (get_or "" (bk_author book)) ∈ exclude_authors)
  then (true, Some "author_list")
  else if bool_decide (get_or "" (bk_id book) ∈ exclude_ids)
  then (true, Some "id_list")
  else (false, None).

(** The rules as the specification words them: an ordered table of
    (condition, reason tag), of which the first matching entry decides. *)
Definition rule_table (exclusions : Config) : list ((Book -> bool) * string) :=
  [ (fun b => rule exclusions "exclude_no_date_read" && is_read b && negb (has_date_read b),
     "no_date_read");
    (fun b => rule exclusions "exclude_one_star" && bool_decide (bk_my_rating b = Some 1%Z),
     "one_star");
    (fun b => rule exclusions "exclude_unread" && negb (is_read b),
     "unread");
    (fun b => bool_decide (lower (get_or "" (bk_title b)) ∈ lower <$> exclude_titles exclusions),
     "title_list");
    (fun b => bool_decide (lower (get_or "" (bk_author b)) ∈ lower <$> exclude_authors exclusions),
     "author_list");
    (fun b => bool_decide (get_or "" (bk_id b) ∈ exclude_ids exclusions),
     "id_list") ].

Fixpoint first_match (table : list ((Book -> bool) * string)) (b : Book) : bool * option string :=
  match table with
  | [] => (false, None)
  | (applies, tag) :: table' =>
      if applies b then (true, Some tag) else first_match table' b
  end.

(** [collections.Counter]: a dictionary in insertion order. *)
Section Counter.
Context {K : Type} `{EqDecision K}.

Fixpoint counter_incr (k : K) (c : list (K * nat)) : list (K * nat) :=
  match c with
  | [] => [(k, 1)]
  | (k', n) :: c' =>
      if decide (k = k') then (k', S n) :: c' else (k', n) :: counter_incr k c'
  end.

Fixpoint counter_get (c : list (K * nat)) (k : K) : nat :=
  match c with
  | [] => 0
  | (k', n) :: c' => if decide (k = k') then n else counter_get c' k
  end.

Definition counter_of (ks : list K) : list (K * nat) :=
  foldl (fun c k => counter_incr k c) [] ks.

(** Stable insertion by descending count. *)
Fixpoint insert_desc (x : K * nat) (l : list (K * nat)) : list (K * nat) :=
  match l with
  | [] => [x]
  | y :: l' => if (x.2 <? y.2)%nat then y :: insert_desc x l' else x :: y :: l'
  end.

(** [Counter.most_common(n)] *)
Definition most_common (n : nat) (c : list (K * nat)) : list (K * nat) :=
  firstn n (foldr insert_desc [] c).

End Counter.

Fixpoint insert_by_key (x : string * nat) (l : list (string * nat)) : list (string * nat) :=
  match l with
  | [] => [x]
  | y :: l' => if String.leb x.1 y.1 then x :: y :: l' else y :: insert_by_key x l'
  end.

(** [sorted(counter.items())]; the keys of a counter are distinct. *)
Definition sorted_items (c : list (string * nat)) : list (string * nat) :=
  foldr insert_by_key [] c.

Record Analytics := {
  total_books : nat;
  books_read : nat;
  books_unread : nat;
  books_with_descriptions : nat;
  five_star_books : nat;
  reading_timeline : list (string * nat);
  genre_breakdown : list (string * nat);
  rating_distribution : list (Z * nat);
  top_authors : list (string * nat);
  shelf_summary : list (string * nat)
}.

Section Recalculate.
(** [json.loads] on the text of a genre list, which the pipeline writes
    with [json.dumps]: the list, or [None] when the decoder raises. *)
Variable json_loads : string -> option (list string).

(** The genres of a book as the loop reads them (lines 101-106). *)
Definition genres_of (book : Book) : list string :=
  match bk_genres book with
  | Some (GenresList l) => l
  | Some (GenresText s) =>
      match json_loads s with
      | Some l => l
      | None => []
      end
  | None =>
      match json_loads "[]" with
      | Some l => l
      | None => []
      end
  end.

Definition rating_or_zero (book : Book) : Z :=
  match bk_my_rating book with
  | Some r => r
  | None => 0%Z
  end.

(** The genre loop (lines 100-108) from a counter [c]: the first three
    genres of every read book, in order. *)
Definition genre_loop (c : list (string * nat)) (read_books : list Book) : list (string * nat) :=
  foldl (fun counter book =>
           foldl (fun counter g => counter_incr g counter) counter (firstn 3 (genres_of book)))
        c read_books.

Definition genre_counter (read_books : list Book) : list (string * nat) :=
  genre_loop [] read_books.

(** The occurrences of [g] in a list of genres. *)
Definition occurrences (g : string) (gs : list string) : nat :=
  length (List.filter (String.eqb g) gs).

(** How often genre [g] stands among the first three genres of a read book
    of [books]: what the specification means by the records counted for a
    genre. *)
Definition genre_occurrences (g : string) (books : list Book) : nat :=
  sum_list ((fun b => occurrences g (firstn 3 (genres_of b))) <$> List.filter is_read books).

(** [date_read[:7].replace('/', '-')] *)
Definition year_month (date_read : string) : string :=
  smap (fun c => if Ascii.eqb c "/" then "-"%char else c) (slice_to 7 date_read).

Definition timeline_counter (read_books : list Book) : list (string * nat) :=
  foldl (fun counter book =>
           if has_date_read book
           then counter_incr (year_month (get_or "" (bk_date_read book))) counter
           else counter)
        [] read_books.

(** [recalculate_analytics], without its two rounded averages and its
    time stamp. *)
Definition recalculate_analytics (books : list Book) : Analytics :=
  let read_books := List.filter is_read books in
  let unread_books := List.filter (fun b => negb (is_read b)) books in
  let rating_counts := counter_of (rating_or_zero <$> read_books) in
  let author_counter := counter_of ((fun b => get_or "Unknown" (bk_author b)) <$> read_books) in
  let books_with_desc :=
    length (List.filter (fun b => match bk_description b with
                                  | Some d => negb (is_empty d) && (50 <? String.length d)%nat
                                  | None => false
                                  end) books) in
  {| total_books := length books;
     books_read := length read_books;
     books_unread := length unread_books;
     books_with_descriptions := books_with_desc;
     five_star_books :=
       length (List.filter (fun b => bool_decide (bk_my_rating b = Some 5%Z)) read_books);
     reading_timeline := sorted_items (timeline_counter read_books);
     genre_breakdown := most_common 15 (genre_counter read_books);
     rating_distribution :=
       (fun r => (r, counter_get rating_counts r)) <$> [5; 4; 3; 2; 1; 0]%Z;
     top_authors := most_common 10 author_counter;
     shelf_summary := [("read", length read_books); ("unread", length unread_books)] |}.

(** The loop of [run_exclusions] (lines 186-196). *)
Definition filtered_books (exclusions : Config) (books : list Book) : list Book :=
  List.filter (fun b => negb (should_exclude b exclusions).1) books.

Definition excluded_books (exclusions : Config) (books : list Book) : list Book :=
  List.filter (fun b => (should_exclude b exclusions).1) books.

Definition exclusion_reasons (exclusions : Config) (books : list Book) : list (option string * nat) :=
  counter_of ((fun b => (should_exclude b exclusions).2) <$> excluded_books exclusions books).

Definition run_exclusions (exclusions : Config) (books : list Book) : list Book * list Book * Analytics :=
  let filtered := filtered_books exclusions books in
  (filtered, excluded_books exclusions books, recalculate_analytics filtered).

End Recalculate.

End Exclusions.

(** ** Enrichment ([enrich_books.py]) *)

Module Enrich.
Import Text Re Normalizer Frames.

(** [s.replace(old, new)] for a non-empty [old] *)
Definition replace (old new s : string) : string := re_sub (Lit old) new s.

(** [clean_isbn] of this script *)
Definition clean_isbn (isbn : option string) : string :=
  let s := strip (get_or "" isbn) in
  let s := replace (String "=" (String dquote "")) "" s in
  let s := replace (String dquote "") "" s in
  let s := replace "=" "" s in
  let s := re_sub (Cls (fun c => negb (is_digit c || chr "X" c || chr "x" c))) "" s in
  upper s.

(** What [google_lookup] returns for a volume. *)
Record GoogleInfo := {
  google_volume_id : cell;
  g_title : cell;
  g_authors : option (list string);
  g_description : cell;
  g_categories : option (list string);
  g_language : cell;
  g_publishedDate : cell;
  g_thumbnail : cell;
  g_smallThumbnail : cell
}.

(** What [openlibrary_lookup] returns for an entry. *)
Record OpenLibraryInfo := {
  openlibrary_key : cell;
  ol_description : cell;
  ol_subjects : list string
}.

(** An entry of [results] and of the cache; an absent key is [None]. *)
Record Payload := {
  p_isbn : cell;
  p_fetched_at : cell;
  p_google : option GoogleInfo;
  p_openlibrary : option OpenLibraryInfo;
  p_description : cell;
  p_description_source : cell;
  p_categories_raw : option (list string);
  p_subjects_raw : option (list string);
  p_cover_image_url : cell;
  p_cover_source : cell;
  p_error : option string
}.

(** [{"isbn": isbn, "error": str(e), "fetched_at": now_iso()}] *)
Definition error_payload (isbn error fetched_at : string) : Payload := {|
  p_isbn := Some isbn;
  p_fetched_at := Some fetched_at;
  p_google := None;
  p_openlibrary := None;
  p_description := None;
  p_description_source := None;
  p_categories_raw := None;
  p_subjects_raw := None;
  p_cover_image_url := None;
  p_cover_source := None;
  p_error := Some error
|}.

Record QueueRow := {
  q_book_key : option string;
  q_isbn : option string
}.

(** What the script does to the outside world. *)
Inductive Event :=
| EvNow
| EvGoogle (isbn : string)
| EvOpenLibrary (isbn : string)
| EvHead (url : string)
| EvSaveCache
| EvSleep.

Section Loop.
(** The outside world and its answers.  A lookup answers with a value or
    raises ([inl], with the text of the exception); [url_exists] catches
    its own exceptions. *)
Variable W : Type.
Variable now_iso_io : W -> W * string.
Variable google_lookup_io : W -> string -> W * (string + option GoogleInfo).
Variable openlibrary_lookup_io : W -> string -> W * (string + option OpenLibraryInfo).
Variable url_exists_io : W -> string -> W * bool.
Variable save_cache_io : W -> gmap string Payload -> W * option string.
Variable sleep_io : W -> W.

(** The state of [main]: the world, the trace of what was done to it, and
    the two dictionaries.  An exception leaves the state as it is. *)
Record State := {
  world : W;
  trace : list Event;
  cache : gmap string Payload;
  results : gmap string Payload
}.

Definition M (A : Type) : Type := State -> State * (string + A).

Definition ret {A} (a : A) : M A := fun st => (st, inr a).

Definition bind {A B} (m : M A) (f : A -> M B) : M B :=
  fun st =>
    match m st with
    | (st', inr a) => f a st'
    | (st', inl e) => (st', inl e)
    end.

(** [try: m  except Exception as e: h e] *)
Definition try_except {A} (m : M A) (h : string -> M A) : M A :=
  fun st =>
    match m st with
    | (st', inl e) => h e st'
    | r => r
    end.

Notation "'do' x <- m ; k" := (bind m (fun x => k))
  (at level 10, x name, m at level 100, k at level 200).
Notation "'exec' m ; k" := (bind m (fun _ => k))
  (at level 10, m at level 100, k at level 200).

Definition acted (ev : Event) (w : W) (st : State) : State :=
  {| world := w; trace := (trace st ++ [ev])%list; cache := cache st; results := results st |}.

Definition now_iso : M string :=
  fun st => let '(w, t) := now_iso_io (world st) in (acted EvNow w st, inr t).

Definition google_lookup (isbn : string) : M (option GoogleInfo) :=
  fun st => let '(w, r) := google_lookup_io (world st) isbn in (acted (EvGoogle isbn) w st, r).

Definition openlibrary_lookup (isbn : string) : M (option OpenLibraryInfo) :=
  fun st => let '(w, r) := openlibrary_lookup_io (world st) isbn in
            (acted (EvOpenLibrary isbn) w st, r).

Definition url_exists (url : string) : M bool :=
  fun st => let '(w, b) := url_exists_io (world st) url in (acted (EvHead url) w st, inr b).

Definition save_cache : M unit :=
  fun st =>
    let '(w, r) := save_cache_io (world st) (cache st) in
    (acted EvSaveCache w st, match r with Some e => inl e | None => inr tt end).

Definition sleep : M unit :=
  fun st => (acted EvSleep (sleep_io (world st)) st, inr tt).

Definition get_cache : M (gmap string Payload) := fun st => (st, inr (cache st)).

Definition set_cache (isbn : string) (p : Payload) : M unit :=
  fun st => ({| world := world st; trace := trace st;
                cache := <[isbn := p]> (cache st); results := results st |}, inr tt).

Definition set_result (book_key : string) (p : Payload) : M unit :=
  fun st => ({| world := world st; trace := trace st;
                cache := cache st; results := <[book_key := p]> (results st) |}, inr tt).

Definition openlibrary_cover_url (isbn size : string) : string :=
  "https://covers.openlibrary.org/b/isbn/" ++ isbn ++ "-" ++ size ++ ".jpg?default=false".

Definition nonempty (c : cell) : bool :=
  match c with
  | Some s => negb (is_empty s)
  | None => false
  end.

(** [a or b] on optional strings *)
Definition or_else (a b : cell) : cell := if nonempty a then a else b.

Definition enrich_one (isbn : string) : M Payload :=
  let isbn := clean_isbn (Some isbn) in
  do fetched_at <- now_iso;
  do g <- google_lookup isbn;
  do ol <- openlibrary_lookup isbn;
  let g_desc := match g with Some gi => g_description gi | None => None end in
  let ol_desc := match ol with Some oi => ol_description oi | None => None end in
  let '(desc, desc_source) :=
    if nonempty g_desc then (g_desc, Some "google_books")
    else if nonempty ol_desc then (ol_desc, Some "open_library")
    else (None, None) in
  let categories := match g with Some gi => g_categories gi | None => None end in
  let subjects := match ol with Some oi => Some (ol_subjects oi) | None => None end in
  let ol_cover := openlibrary_cover_url isbn "L" in
  do found <- url_exists ol_cover;
  let '(cover_url, cover_source) :=
    if found then (Some ol_cover, Some "open_library_covers")
    else match g with
         | Some gi =>
             let cover_url := or_else (g_thumbnail gi) (g_smallThumbnail gi) in
             if nonempty cover_url then (cover_url, Some "google_books") else (cover_url, None)
         | None => (None, None)
         end in
  ret {| p_isbn := Some isbn;
         p_fetched_at := Some fetched_at;
         p_google := g;
         p_openlibrary := ol;
         p_description := desc;
         p_description_source := desc_source;
         p_categories_raw := categories;
         p_subjects_raw := subjects;
         p_cover_image_url := cover_url;
         p_cover_source := cover_source;
         p_error := None |}.

(** The body of the loop over [queue_rows] (lines 214-230). *)
Definition process_row (row : QueueRow) : M unit :=
  let book_key := get_or "" (q_book_key row) in
  let isbn := clean_isbn (Some (get_or "" (q_isbn row))) in
  if is_empty isbn then ret tt
  else
    do cache <- get_cache;
    match cache !! isbn with
    | Some hit => set_result book_key hit
    | None =>
        exec try_except
               (do enriched <- enrich_one isbn;
                exec set_cache isbn enriched;
                exec set_result book_key enriched;
                save_cache)
               (fun e =>
                  do fetched_at <- now_iso;
                  set_result book_key (error_payload isbn e fetched_at));
        sleep
    end.

Fixpoint run_queue (queue_rows : list QueueRow) : M unit :=
  match queue_rows with
  | [] => ret tt
  | row :: rest => exec process_row row; run_queue rest
  end.

End Loop.

(** *** Merging the results back (lines 240-300) *)

(** The columns of [enriched_df] that the merge reads. *)
Record EnrichedRow := {
  description_new : cell;
  description_source_new : cell;
  categories_raw_new : cell;
  subjects_raw_new : cell;
  cover_image_url_new : cell;
  cover_source_new : cell
}.

Section MergeBack.
(** [json.dumps(l, ensure_ascii=False)] *)
Variable json_dumps : list string -> string.

Definition dumps_or_empty (l : option (list string)) : cell :=
  match l with
  | Some l => Some (json_dumps l)
  | None => Some ""
  end.

(** One entry of [rows_out] (lines 242-255). *)
Definition enriched_row (payload : Payload) : EnrichedRow := {|
  description_new := p_description payload;
  description_source_new := p_description_source payload;
  categories_raw_new := dumps_or_empty (p_categories_raw payload);
  subjects_raw_new := dumps_or_empty (p_subjects_raw payload);
  cover_image_url_new := Some (get_or "" (or_else (p_cover_image_url payload) (Some "")));
  cover_source_new := Some (get_or "" (or_else (p_cover_source payload) (Some "")))
|}.

End MergeBack.

(** Which of the optional columns the books file came with. *)
Record Columns := {
  has_description_raw : bool;
  has_description_source : bool;
  has_cover_image_source : bool;
  has_cover_image_url : bool;
  has_categories_raw : bool;
  has_subjects_raw : bool
}.

(** [merged[col] = ""] when the column is absent *)
Definition column (present : bool) (c : cell) : cell :=
  if present then c else Some "".

(** [fillna("")] *)
Definition fillna (c : cell) : string := get_or "" c.

Definition is_missing_desc (x : cell) : bool :=
  (String.length (strip (fillna x)) <? 80)%nat.

Definition is_missing_cover (x : cell) : bool :=
  (String.length (strip (fillna x)) =? 0)%nat.

(** The columns of the record the enrichment writes, replaced together. *)
Definition with_enrichment (r : BookRecord) (d ds c cs cat sub : cell) : BookRecord := {|
  book_key := book_key r;
  title := title r;
  author := author r;
  isbn := isbn r;
  isbn13 := isbn13 r;
  isbn10 := isbn10 r;
  publish_year := publish_year r;
  description_raw := d;
  description_clean := description_clean r;
  description_for_embedding := description_for_embedding r;
  genres_list := genres_list r;
  genre_primary := genre_primary r;
  cover_image_url := c;
  avg_rating := avg_rating r;
  num_ratings := num_ratings r;
  popularity_score := popularity_score r;
  is_read := is_read r;
  my_rating := my_rating r;
  date_read := date_read r;
  source := source r;
  source_book_id := source_book_id r;
  description_source := ds;
  cover_image_source := cs;
  categories_raw := cat;
  subjects_raw := sub
|}.

Definition no_enrichment : EnrichedRow := {|
  description_new := None;
  description_source_new := None;
  categories_raw_new := None;
  subjects_raw_new := None;
  cover_image_url_new := None;
  cover_source_new := None
|}.

(** One row of [merged] after the four masked assignments.  A book without
    a row in [enriched_df] gets NaN in every new column (left merge). *)
Definition merge_back (cols : Columns) (book : BookRecord) (enriched : option EnrichedRow) : BookRecord :=
  let e := match enriched with Some e => e | None => no_enrichment end in
  let description_raw0 := column (has_description_raw cols) (description_raw book) in
  let description_source0 := column (has_description_source cols) (description_source book) in
  let cover_image_source0 := column (has_cover_image_source cols) (cover_image_source book) in
  let mask_desc :=
    is_missing_desc description_raw0 && (80 <=? String.length (fillna (description_new e)))%nat in
  let cover_image_url0 := column (has_cover_image_url cols) (cover_image_url book) in
  let mask_cover :=
    is_missing_cover cover_image_url0
    && (0 <? String.length (fillna (cover_image_url_new e)))%nat in
  let categories_raw0 := column (has_categories_raw cols) (categories_raw book) in
  let subjects_raw0 := column (has_subjects_raw cols) (subjects_raw book) in
  let mask_cat := (String.length (fillna categories_raw0) =? 0)%nat in
  let mask_sub := (String.length (fillna subjects_raw0) =? 0)%nat in
  with_enrichment book
    (if mask_desc then description_new e else description_raw0)
    (if mask_desc then Some (fillna (description_source_new e)) else description_source0)
    (if mask_cover then cover_image_url_new e else cover_image_url0)
    (if mask_cover then Some (fillna (cover_source_new e)) else cover_image_source0)
    (if mask_cat then Some (fillna (categories_raw_new e)) else categories_raw0)
    (if mask_sub then Some (fillna (subjects_raw_new e)) else subjects_raw0).

(** [rows_out] (lines 241-255): one row for every entry of [results]. *)
Definition rows_out (json_dumps : list string -> string) (results : gmap string Payload)
    : list (string * EnrichedRow) :=
  (fun entry => (entry.1, enriched_row json_dumps entry.2)) <$> map_to_list results.

(** [books.merge(enriched_df, how='left', on='book_key')], then the masked
    assignments, row by row.  A frame built from no rows has no column: for
    empty [results] the merge raises [KeyError] on [book_key], before
    anything is written, and the result is [None]. *)
Definition merge_results (json_dumps : list string -> string) (cols : Columns)
    (results : gmap string Payload) (books : list BookRecord) : option (list BookRecord) :=
  match rows_out json_dumps results with
  | [] => None
  | _ :: _ =>
      Some ((fun b => merge_back cols b (enriched_row json_dumps <$> results !! book_key b))
              <$> books)
  end.

(** *** What counts as populated

    [populated] is the reading of the specification: a cell that is neither
    null nor the empty text.  [filled] is what the merge tests: it also
    takes a blank cell for missing. *)
Definition populated (c : cell) : Prop := exists s, c = Some s /\ s <> "".

Definition filled (c : cell) : Prop := exists s, c = Some s /\ strip s <> "".

Definition present (n : number) : Prop := n <> None.

Definition all_columns : Columns := {|
  has_description_raw := true;
  has_description_source := true;
  has_cover_image_source := true;
  has_cover_image_url := true;
  has_categories_raw := true;
  has_subjects_raw := true
|}.

End Enrich.

(** ** Sample inputs *)

Module Samples.
Import Text Re Normalizer Identity Frames.

(** A stand-in for the digest where a concrete run needs one. *)
Definition plain_digest (s : string) : string := s.

Definition blank_record (key : string) (t a : cell) (read : bool) : BookRecord := {|
  book_key := key;
  title := t;
  author := a;
  isbn := None;
  isbn13 := None;
  isbn10 := None;
  publish_year := None;
  description_raw := Some "";
  description_clean := Some "";
  description_for_embedding := Some "";
  genres_list := Some "[]";
  genre_primary := Some "Unknown";
  cover_image_url := Some "";
  avg_rating := None;
  num_ratings := None;
  popularity_score := None;
  is_read := read;
  my_rating := None;
  date_read := None;
  source := None;
  source_book_id := None;
  description_source := None;
  cover_image_source := None;
  categories_raw := None;
  subjects_raw := None
|}.

Definition potter_read : BookRecord :=
  blank_record "gr:3" (Some "Harry Potter and the Sorcerer's Stone")
    (Some "J.K. Rowling") true.

Definition potter_corpus : BookRecord :=
  blank_record "isbn:9780439708180"
    (Some "Harry Potter and the Sorcerer's Stone (Harry Potter, #1)")
    (Some "J.K. Rowling, Mary GrandPre (Illustrator)") false.

Definition dune_corpus : BookRecord :=
  blank_record "isbn:9780441172719" (Some "Dune") (Some "Frank Herbert") false.

Definition dune_goodreads : GoodreadsRow := {|
  gr_Book_Id := Some "234225";
  gr_Title := Some "Dune";
  gr_Author := Some "Frank Herbert";
  gr_ISBN := None;
  gr_ISBN13 := None;
  gr_Year_Published := Some "1965";
  gr_Average_Rating := Some (425 # 100);
  gr_My_Rating := Some (5 # 1);
  gr_Date_Read := Some "2020/01/05";
  gr_Exclusive_Shelf := Some "read"
|}.

Definition dune_kaggle : KaggleRow := {|
  kg_bookId := Some "234225.Dune";
  kg_title := Some "Dune";
  kg_author := Some "Frank Herbert";
  kg_isbn := Some "9780441172719";
  kg_language := Some "English";
  kg_publishDate := Some "06/01/65";
  kg_description := Some "Set on the desert planet Arrakis.";
  kg_genres := Some "['Science Fiction', 'Fiction']";
  kg_coverImg := Some "https://example.org/dune.jpg";
  kg_rating := Some (425 # 100);
  kg_numRatings := Some (1000000 # 1)
|}.

(** The Goodreads row with its ISBN, as the export escapes it. *)
Definition dune_goodreads_isbn : GoodreadsRow := {|
  gr_Book_Id := Some "234225";
  gr_Title := Some "Dune";
  gr_Author := Some "Frank Herbert";
  gr_ISBN := None;
  gr_ISBN13 := Some (String "=" (String dquote ("9780441172719" ++ String dquote "")));
  gr_Year_Published := Some "1965";
  gr_Average_Rating := Some (425 # 100);
  gr_My_Rating := Some (5 # 1);
  gr_Date_Read := Some "2020/01/05";
  gr_Exclusive_Shelf := Some "read"
|}.

(** The same two rows with title and author already in lower case. *)
Definition dune_goodreads_lower : GoodreadsRow := {|
  gr_Book_Id := Some "234225";
  gr_Title := Some "dune";
  gr_Author := Some "frank herbert";
  gr_ISBN := None;
  gr_ISBN13 := None;
  gr_Year_Published := Some "1965";
  gr_Average_Rating := Some (425 # 100);
  gr_My_Rating := Some (5 # 1);
  gr_Date_Read := Some "2020/01/05";
  gr_Exclusive_Shelf := Some "read"
|}.

Definition dune_kaggle_lower : KaggleRow := {|
  kg_bookId := Some "234225.Dune";
  kg_title := Some "dune";
  kg_author := Some "frank herbert";
  kg_isbn := Some "9780441172719";
  kg_language := Some "English";
  kg_publishDate := Some "06/01/65";
  kg_description := Some "Set on the desert planet Arrakis.";
  kg_genres := Some "['Science Fiction', 'Fiction']";
  kg_coverImg := Some "https://example.org/dune.jpg";
  kg_rating := Some (425 # 100);
  kg_numRatings := Some (1000000 # 1)
|}.

(** A read record whose cover cell holds one space. *)
Definition blank_cover_book : BookRecord :=
  Enrich.with_enrichment (blank_record "gr:234225" (Some "Dune") (Some "Frank Herbert") true)
    (Some "") None (Some " ") None None None.

Definition found_cover : Enrich.EnrichedRow := {|
  Enrich.description_new := None;
  Enrich.description_source_new := None;
  Enrich.categories_raw_new := Some "";
  Enrich.subjects_raw_new := Some "";
  Enrich.cover_image_url_new :=
    Some "https://covers.openlibrary.org/b/isbn/9780441172719-L.jpg?default=false";
  Enrich.cover_source_new := Some "open_library_covers"
|}.

(** A read record with a description of 80 characters, the last three of
    them blanks, and a cover cell that holds one space. *)
Definition padded_book : BookRecord :=
  Enrich.with_enrichment (blank_record "gr:234225" (Some "Dune") (Some "Frank Herbert") true)
    (Some "Set on the desert planet Arrakis, Dune is the story of the boy Paul Atreides.   ")
    None (Some " ") None None None.

(** What the enrichment found for such a record: a description of 142
    characters and a cover. *)
Definition long_payload : Enrich.Payload := {|
  Enrich.p_isbn := Some "9780441172719";
  Enrich.p_fetched_at := Some "2024-01-01T00:00:00+00:00";
  Enrich.p_google := None;
  Enrich.p_openlibrary := None;
  Enrich.p_description :=
    Some "Set on the desert planet Arrakis, Dune is the story of the boy Paul Atreides, heir to a noble family tasked with ruling an inhospitable world.";
  Enrich.p_description_source := Some "google_books";
  Enrich.p_categories_raw := None;
  Enrich.p_subjects_raw := None;
  Enrich.p_cover_image_url :=
    Some "https://covers.openlibrary.org/b/isbn/9780441172719-L.jpg?default=false";
  Enrich.p_cover_source := Some "open_library_covers";
  Enrich.p_error := None
|}.

(** A stand-in for [json.dumps] where a concrete run needs one. *)
Definition plain_dumps (l : list string) : string := String.concat "," l.

(** An outside world that counts what was done to it: Google times out on
    one ISBN and knows nothing of any other, Open Library knows nothing. *)
Definition tick_now (w : nat) : nat * string := (S w, "2024-01-01T00:00:00+00:00").

Definition flaky_google (w : nat) (isbn : string)
    : nat * (string + option Enrich.GoogleInfo) :=
  (S w, if String.eqb isbn "9780441172719" then inl "timeout" else inr None).

Definition empty_openlibrary (w : nat) (isbn : string)
    : nat * (string + option Enrich.OpenLibraryInfo) :=
  (S w, inr None).

Definition no_cover (w : nat) (url : string) : nat * bool := (S w, false).

Definition disk_ok (w : nat) (c : gmap string Enrich.Payload) : nat * option string :=
  (S w, None).

Definition cached_potter : Enrich.Payload := {|
  Enrich.p_isbn := Some "9780439708180";
  Enrich.p_fetched_at := Some "2023-06-01T00:00:00+00:00";
  Enrich.p_google := None;
  Enrich.p_openlibrary := None;
  Enrich.p_description := Some "A boy learns he is a wizard.";
  Enrich.p_description_source := Some "google_books";
  Enrich.p_categories_raw := None;
  Enrich.p_subjects_raw := None;
  Enrich.p_cover_image_url := None;
  Enrich.p_cover_source := None;
  Enrich.p_error := None
|}.

Definition sample_queue : list Enrich.QueueRow :=
  [ {| Enrich.q_book_key := Some "isbn:9780441172719"; Enrich.q_isbn := Some "9780441172719" |};
    {| Enrich.q_book_key := Some "isbn:9780439708180"; Enrich.q_isbn := Some "9780439708180" |};
    {| Enrich.q_book_key := Some "gr:7"; Enrich.q_isbn := None |} ].

Definition sample_start : Enrich.State nat := {|
  Enrich.world := 0;
  Enrich.trace := [];
  Enrich.cache := {[ "9780439708180" := cached_potter ]};
  Enrich.results := ∅
|}.

Definition sample_run (rows : list Enrich.QueueRow) : Enrich.M nat unit :=
  Enrich.run_queue nat tick_now flaky_google empty_openlibrary no_cover disk_ok S rows.

End Samples.

(** ** Text helpers of [build_base_dataset.py] (lines 151-233) *)

Module Describe.
Import Text Re Normalizer Frames Matcher.

Definition MIN_DESCRIPTION_LENGTH : nat := 80.
Definition DESCRIPTION_EMBEDDING_MAX_CHARS : nat := 2000.

(** [<[^>]+>] *)
Definition re_tag : regex := Seq [Cls (chr "<"); Plus (not_chr ">"); Cls (chr ">")].

(** A literal given by its code points, which may lie beyond the range of
    the text model. *)
Fixpoint LitCodes (codes : list N) : regex :=
  match codes with
  | [] => Eps
  | n :: codes' => Cat (Cls (fun c => N.eqb (N_of_ascii c) n)) (LitCodes codes')
  end.

(** [s.replace(old, new)] for such a literal *)
Definition replace_codes (old : list N) (new s : string) : string :=
  re_sub (LitCodes old) new s.

(** The two needles of line 159 as the file spells them: U+00E2 U+20AC
    followed by U+201D, and by U+201C. *)
Definition dash_long : list N := [226; 8364; 8221]%N.
Definition dash_short : list N := [226; 8364; 8220]%N.

(** An HTML tag at the start of a text: an opening angle, at least one
    character that is not a closing one, and a closing angle further on. *)
Definition starts_tag (s : string) : bool :=
  match s with
  | String c0 (String c1 s2) =>
      chr "<" c0 && not_chr ">" c1 && negb (is_empty (drop_while (not_chr ">") s2))
  | _ => false
  end.

(** What is left behind that tag. *)
Definition after_tag (s : string) : string :=
  match s with
  | String _ (String _ s2) =>
      match drop_while (not_chr ">") s2 with
      | String _ s3 => s3
      | EmptyString => EmptyString
      end
  | _ => EmptyString
  end.

Definition clean_description (desc : cell) : string :=
  match desc with
  | None => ""
  | Some d =>
      let desc := re_sub re_tag "" d in
      let desc := replace_codes dash_short ". " (replace_codes dash_long ". " desc) in
      strip (re_sub re_spaces " " desc)
  end.

(** Truth value of a cell of a text column: NaN is a float that is not
    zero. *)
Definition cell_truth (c : cell) : bool :=
  match c with
  | Some s => negb (is_empty s)
  | None => true
  end.

(** [" | ".join(parts)] and the like *)
Fixpoint join (sep : string) (parts : list string) : string :=
  match parts with
  | [] => ""
  | [p] => p
  | p :: parts' => p ++ sep ++ join sep parts'
  end.

(** [parts.append(p)] *)
Definition append (parts : list string) (p : string) : list string := (parts ++ [p])%list.

(** [prepare_embedding_text]; [main] hands it the title and author cells of
    the row, the cleaned description and the joined genres. *)
Definition prepare_embedding_text (title author : cell) (description genres : string) : string :=
  let parts := [] in
  let parts := if cell_truth title then append parts ("Title: " ++ py_str title) else parts in
  let parts := if cell_truth author then append parts ("Author: " ++ py_str author) else parts in
  let parts := if negb (is_empty genres) then append parts ("Genres: " ++ genres) else parts in
  let parts :=
    if negb (is_empty description) then
      let description :=
        if (DESCRIPTION_EMBEDDING_MAX_CHARS <? String.length description)%nat
        then slice_to DESCRIPTION_EMBEDDING_MAX_CHARS description ++ "..."
        else description in
      append parts ("Description: " ++ description)
    else parts in
  join " | " parts.

(** [s.split(a)] for a one-character separator *)
Fixpoint split_on (a : ascii) (s : string) : list string :=
  match s with
  | EmptyString => [EmptyString]
  | String c s' =>
      if Ascii.eqb a c then EmptyString :: split_on a s'
      else match split_on a s' with
           | h :: t => String c h :: t
           | [] => [String c EmptyString]
           end
  end.

(** [s.startswith(a)] *)
Definition starts_with (a : ascii) (s : string) : bool :=
  match s with
  | String c _ => Ascii.eqb a c
  | EmptyString => false
  end.

Section Genres.
(** [ast.literal_eval] on the text of a list of strings, as the genres
    column of the corpus holds it; [None] when it raises. *)
Variable literal_eval : string -> option (list string).
(** [json.dumps] of a list of strings *)
Variable json_dumps : list string -> string.

Definition parse_genres (genres_val : cell) : list string :=
  match genres_val with
  | None => []
  | Some s =>
      let genres_val := strip s in
      if starts_with "[" genres_val then
        match literal_eval genres_val with
        | Some l => l
        | None => []
        end
      else
        strip <$> List.filter (fun g => negb (is_empty (strip g))) (split_on "," genres_val)
  end.

(** The genres column as [main] stores it again (lines 447, 461). *)
Definition parsed_genres_json (genres_list : cell) : string :=
  json_dumps (parse_genres genres_list).

End Genres.

Definition genre_map : list (string * string) :=
  [ ("fiction", "Fiction");
    ("fantasy", "Fantasy");
    ("science fiction", "Science Fiction");
    ("mystery", "Mystery");
    ("thriller", "Thriller");
    ("romance", "Romance");
    ("historical", "Historical");
    ("biography", "Biography");
    ("nonfiction", "Nonfiction");
    ("self help", "Self-Help");
    ("business", "Business");
    ("history", "History");
    ("science", "Science");
    ("philosophy", "Philosophy");
    ("technology", "Technology") ].

Definition infer_primary_genre (genres_list : list string) : string :=
  match genres_list with
  | [] => "Unknown"
  | g0 :: _ =>
      let first_genre := lower g0 in
      match List.find (fun entry => has_substring entry.1 first_genre) genre_map with
      | Some (_, value) => value
      | None => g0
      end
  end.

End Describe.

(** ** The enrichment queue (lines 507-537) and its way into the loop *)

Module Queue.
Import Text Re Normalizer Frames Describe.

(** [description_clean.str.len() < MIN_DESCRIPTION_LENGTH]; the length of a
    null cell is NaN, and the comparison false. *)
Definition needs_description (r : BookRecord) : bool :=
  match description_clean r with
  | Some d => (String.length d <? MIN_DESCRIPTION_LENGTH)%nat
  | None => false
  end.

Definition needs_cover (r : BookRecord) : bool :=
  match cover_image_url r with
  | Some c => String.eqb c ""
  | None => true
  end.

Definition needs_enrichment (r : BookRecord) : bool := needs_description r || needs_cover r.

(** A row of [enrichment_queue_v1.csv]. *)
Record QueueRecord := {
  qr_book_key : string;
  qr_title_clean : cell;
  qr_author_clean : cell;
  qr_isbn : cell;
  qr_publish_year : cell;
  qr_is_read : bool;
  qr_source : cell;
  qr_source_book_id : cell;
  qr_needs_description : bool;
  qr_needs_cover : bool;
  qr_description_quality_flag : string
}.

Definition queue_record (r : BookRecord) : QueueRecord := {|
  qr_book_key := book_key r;
  qr_title_clean := title r;
  qr_author_clean := author r;
  qr_isbn := isbn r;
  qr_publish_year := publish_year r;
  qr_is_read := is_read r;
  qr_source := source r;
  qr_source_book_id := source_book_id r;
  qr_needs_description := needs_description r;
  qr_needs_cover := needs_cover r;
  qr_description_quality_flag := ""
|}.

Definition enrichment_queue (all_records : list BookRecord) : list QueueRecord :=
  queue_record <$> List.filter needs_enrichment all_records.

(** The row as [csv.DictReader] hands it to the enrichment loop: every
    column is there, and a null cell comes back as the empty text. *)
Definition queue_row (q : QueueRecord) : Enrich.QueueRow := {|
  Enrich.q_book_key := Some (qr_book_key q);
  Enrich.q_isbn := Some (get_or "" (qr_isbn q))
|}.

(** A row the loop does not pass over (lines 215-218). *)
Definition has_isbn (row : Enrich.QueueRow) : bool :=
  negb (is_empty (Enrich.clean_isbn (Some (get_or "" (Enrich.q_isbn row))))).

End Queue.

(** ** [safe_get] of [enrich_books.py] *)

Module Json.
Import Text Describe.

(** What [json.load] yields; a number stands for its value. *)
#[warnings="-register-all"]
Inductive json : Type :=
| JNull
| JBool (b : bool)
| JNum (n : Q)
| JStr (s : string)
| JList (l : list json)
| JDict (d : gmap string json).

(** The loop of [safe_get] over the parts of the path. *)
Fixpoint safe_get_parts (cur : json) (parts : list string) (default : json) : json :=
  match parts with
  | [] => cur
  | part :: rest =>
      match cur with
      | JDict d =>
          match d !! part with
          | Some v => safe_get_parts v rest default
          | None => default
          end
      | _ => default
      end
  end.

Definition safe_get (d : json) (path : string) (default : json) : json :=
  safe_get_parts d (split_on "." path) default.

End Json.

(** ** [load_exclusions] and [run_exclusions] with their files *)

Module Publish.
Import Text Exclusions.

(** [exclusions.json] is absent or holds a configuration; a missing file is
    written with the default one. *)
Definition load_exclusions (file : option Config) : Config * option Config :=
  match file with
  | None => (default_config, Some default_config)
  | Some config => (config, Some config)
  end.

(** [{b['id'] for b in filtered_books}]; [None] is the [KeyError] of a book
    without id. *)
Definition filtered_ids (filtered : list Book) : option (gset string) :=
  list_to_set <$> mapM bk_id filtered.

Section Galaxy.
(** A point of [galaxy_coordinates.json], of which the script reads the id. *)
Context {Point : Type}.
Variable point_id : Point -> option string.

(** [[g for g in galaxy_data if g['id'] in filtered_ids]] *)
Fixpoint filter_galaxy (ids : gset string) (galaxy_data : list Point) : option (list Point) :=
  match galaxy_data with
  | [] => Some []
  | g :: rest =>
      match point_id g with
      | None => None
      | Some i =>
          match filter_galaxy ids rest with
          | Some kept => Some (if bool_decide (i ∈ ids) then g :: kept else kept)
          | None => None
          end
      end
  end.

Variable json_loads : string -> option (list string).

(** The four files the script reads and writes. *)
Record Files := {
  exclusions_file : option Config;
  library_file : list Book;
  galaxy_file : list Point;
  analytics_file : Analytics
}.

(** The summary at the end prints [book['title']] and [book['author']] of
    every excluded book. *)
Definition printable (book : Book) : bool :=
  bool_decide (is_Some (bk_title book)) && bool_decide (is_Some (bk_author book)).

(** [run_exclusions]: the files it leaves, and the two lists it returns or
    [None] for a [KeyError] on the way. *)
Definition run_exclusions_files (files : Files) : Files * option (list Book * list Book) :=
  let '(exclusions, written) := load_exclusions (exclusions_file files) in
  let books := library_file files in
  let filtered := filtered_books exclusions books in
  let excluded := excluded_books exclusions books in
  let files1 := {| exclusions_file := written; library_file := filtered;
                   galaxy_file := galaxy_file files; analytics_file := analytics_file files |} in
  match filtered_ids filtered with
  | None => (files1, None)
  | Some ids =>
      match filter_galaxy ids (galaxy_file files) with
      | None => (files1, None)
      | Some filtered_galaxy =>
          let files3 := {| exclusions_file := written; library_file := filtered;
                           galaxy_file := filtered_galaxy;
                           analytics_file := recalculate_analytics json_loads filtered |} in
          if forallb printable excluded
          then (files3, Some (filtered, excluded))
          else (files3, None)
      end
  end.

End Galaxy.

End Publish.

(** ** More sample inputs *)

Module Cases.
Import Text Exclusions.

(** Two read books and an unread one. *)
Definition emma : Book := {|
  bk_id := Some "isbn:9780141439587"; bk_title := Some "Emma"; bk_author := Some "Jane Austen";
  bk_is_read := Some true; bk_date_read := Some "2021/03/09"; bk_my_rating := Some 4%Z;
  bk_genres := Some (GenresList ["Classics"; "Romance"]); bk_description := None
|}.

Definition dune : Book := {|
  bk_id := Some "isbn:9780441172719"; bk_title := Some "Dune"; bk_author := Some "Frank Herbert";
  bk_is_read := Some true; bk_date_read := Some "2020/01/05"; bk_my_rating := Some 5%Z;
  bk_genres := Some (GenresList ["Science Fiction"; "Classics"]); bk_description := None
|}.

Definition ulysses : Book := {|
  bk_id := Some "isbn:9780679722762"; bk_title := Some "Ulysses"; bk_author := Some "James Joyce";
  bk_is_read := Some false; bk_date_read := None; bk_my_rating := None;
  bk_genres := Some (GenresList ["Classics"]); bk_description := None
|}.

(** A read book without a date, which the default rules take out. *)
Definition undated : Book := {|
  bk_id := Some "gr:77"; bk_title := Some "Walden"; bk_author := Some "Henry David Thoreau";
  bk_is_read := Some true; bk_date_read := None; bk_my_rating := Some 3%Z;
  bk_genres := None; bk_description := None
|}.

Definition shelf : list Book := [emma; dune; ulysses].

(** A book that lost its identifier, and a set of files holding it. *)
Definition walden : Book := {|
  bk_id := None; bk_title := Some "Walden"; bk_author := Some "Henry David Thoreau";
  bk_is_read := Some false; bk_date_read := None; bk_my_rating := None;
  bk_genres := None; bk_description := None
|}.

Definition point_name (point : string) : option string := Some point.

Definition no_json (text : string) : option (list string) := None.

Definition desk (books : list Book) (points : list string) : Publish.Files := {|
  Publish.exclusions_file := None; Publish.library_file := books;
  Publish.galaxy_file := points;
  Publish.analytics_file := recalculate_analytics no_json []
|}.

(** A payload as the cache file holds it. *)
Definition volume : Json.json :=
  Json.JDict {[ "isbn" := Json.JStr "9780441172719";
                "google" := Json.JDict {[ "google_volume_id" := Json.JStr "B1hSG45JCX4C" ]};
                "error" := Json.JNull ]}.

(** An outside world in which Google knows every book by the same entry
    and the cover service has no image. *)
Definition helpful_google (w : nat) (isbn : string)
    : nat * (string + option Enrich.GoogleInfo) :=
  (S w, inr (Some {| Enrich.google_volume_id := Some "B1hSG45JCX4C";
                     Enrich.g_title := Some "Dune";
                     Enrich.g_authors := Some ["Frank Herbert"];
                     Enrich.g_description := Some "Set on the desert planet Arrakis.";
                     Enrich.g_categories := Some ["Fiction"];
                     Enrich.g_language := Some "en";
                     Enrich.g_publishedDate := Some "1965";
                     Enrich.g_thumbnail := None;
                     Enrich.g_smallThumbnail := Some "https://example.org/dune-small.jpg" |})).

Definition helped_lookup (isbn : string) : Enrich.M nat Enrich.Payload :=
  Enrich.enrich_one nat Samples.tick_now helpful_google Samples.empty_openlibrary
    Samples.no_cover isbn.

(** Two rows of a queue for the same book, the second with its ISBN
    hyphenated. *)
Definition emma_row : Enrich.QueueRow :=
  {| Enrich.q_book_key := Some "isbn:9780141439587"; Enrich.q_isbn := Some "9780141439587" |}.

Definition emma_reprint : Enrich.QueueRow :=
  {| Enrich.q_book_key := Some "gr:1"; Enrich.q_isbn := Some "978-0-14-143958-7" |}.

(** What the services of the sample world return for it: nothing. *)
Definition bare_payload : Enrich.Payload := {|
  Enrich.p_isbn := Some "9780141439587";
  Enrich.p_fetched_at := Some "2024-01-01T00:00:00+00:00";
  Enrich.p_google := None;
  Enrich.p_openlibrary := None;
  Enrich.p_description := None;
  Enrich.p_description_source := None;
  Enrich.p_categories_raw := None;
  Enrich.p_subjects_raw := None;
  Enrich.p_cover_image_url := None;
  Enrich.p_cover_source := None;
  Enrich.p_error := None
|}.

Definition sample_lookup (isbn : string) : Enrich.M nat Enrich.Payload :=
  Enrich.enrich_one nat Samples.tick_now Samples.flaky_google Samples.empty_openlibrary
    Samples.no_cover isbn.

Definition sample_process (row : Enrich.QueueRow) : Enrich.M nat unit :=
  Enrich.process_row nat Samples.tick_now Samples.flaky_google Samples.empty_openlibrary
    Samples.no_cover Samples.disk_ok S row.

End Cases.

(** * Properties *)

(** ** Strings and patterns *)

Module TextFacts.
Import Text Shapes.

Lemma app_cons (c : ascii) (s t : string) : String c s ++ t = String c (s ++ t).
Proof. reflexivity. Qed.

Lemma app_nil_l (t : string) : "" ++ t = t.
Proof. reflexivity. Qed.

Lemma app_assoc (s t u : string) : (s ++ t) ++ u = s ++ t ++ u.
Proof. induction s as [|c s IH]; [reflexivity | by rewrite !app_cons, IH]. Qed.

Lemma length_app (s t : string) :
  String.length (s ++ t) = (String.length s + String.length t)%nat.
Proof. induction s as [|c s IH]; [reflexivity | rewrite app_cons; simpl; by rewrite IH]. Qed.

Lemma filter_elem_of {A} (p : A -> bool) (l : list A) (x : A) :
  x ∈ List.filter p l <-> x ∈ l /\ p x = true.
Proof. rewrite !list_elem_of_In. apply filter_In. Qed.

Lemma is_suffix_refl (s : string) : is_suffix s s.
Proof. by exists "". Qed.

Lemma is_suffix_tail (c : ascii) (t s : string) : is_suffix t s -> is_suffix t (String c s).
Proof. intros [u ->]. by exists (String c u). Qed.

Lemma is_suffix_trans (t s u : string) : is_suffix t s -> is_suffix s u -> is_suffix t u.
Proof. intros [v ->] [w ->]. exists (w ++ v). by rewrite app_assoc. Qed.

Lemma is_suffix_length (t s : string) :
  is_suffix t s -> (String.length t <= String.length s)%nat.
Proof. intros [u ->]. rewrite length_app. lia. Qed.

Lemma is_suffix_empty (t : string) : is_suffix t "" -> t = "".
Proof. intros [u H]. destruct u; simpl in H; [done | discriminate]. Qed.

Lemma sall_app (p : ascii -> bool) (s t : string) :
  sall p (s ++ t) = sall p s && sall p t.
Proof.
  induction s as [|c s IH]; [reflexivity|].
  rewrite app_cons. simpl. by rewrite IH, andb_assoc.
Qed.

Lemma sall_suffix (p : ascii -> bool) (t s : string) :
  is_suffix t s -> sall p s = true -> sall p t = true.
Proof. intros [u ->]. rewrite sall_app. by intros [_ H]%andb_prop. Qed.

Lemma sall_prefix (p : ascii -> bool) (u s : string) :
  is_prefix u s -> sall p s = true -> sall p u = true.
Proof. intros [t ->]. rewrite sall_app. by intros [H _]%andb_prop. Qed.

Lemma sall_impl (p q : ascii -> bool) (s : string) :
  (forall c, p c = true -> q c = true) -> sall p s = true -> sall q s = true.
Proof.
  intros Hpq. induction s as [|c s IH]; simpl; [done|].
  intros [Hc Hs]%andb_prop. rewrite (Hpq c Hc). by apply IH.
Qed.

Lemma drop_while_suffix (p : ascii -> bool) (s : string) : is_suffix (drop_while p s) s.
Proof.
  induction s as [|c s IH]; simpl; [apply is_suffix_refl|].
  destruct (p c); [by apply is_suffix_tail | apply is_suffix_refl].
Qed.

Lemma drop_while_solid (s : string) : starts_solid (drop_while is_space s) = true.
Proof.
  induction s as [|c s IH]; simpl; [done|].
  destruct (is_space c) eqn:Hc; [done|]. simpl. by rewrite Hc.
Qed.

Lemma drop_while_id (p : ascii -> bool) (s : string) :
  match s with String c _ => p c = false | EmptyString => True end -> drop_while p s = s.
Proof. destruct s as [|c s]; simpl; [done|]. by intros ->. Qed.

Lemma rstrip_prefix (s : string) : is_prefix (rstrip s) s.
Proof.
  induction s as [|c s [t IH]]; simpl; [by exists ""|].
  destruct (is_empty (rstrip s) && is_space c).
  - by exists (String c s).
  - exists t. by rewrite app_cons, <- IH.
Qed.

Lemma sall_strip (p : ascii -> bool) (s : string) : sall p s = true -> sall p (strip s) = true.
Proof.
  intros H. unfold strip, lstrip.
  apply (sall_prefix p _ _ (rstrip_prefix _)).
  by apply (sall_suffix p _ _ (drop_while_suffix _ _)).
Qed.

Lemma lower_char_idem (c : ascii) : lower_char (lower_char c) = lower_char c.
Proof. destruct c as [[] [] [] [] [] [] [] []]; reflexivity. Qed.

Lemma lower_is_fixed (s : string) : lower_fixed (lower s) = true.
Proof.
  unfold lower_fixed, lower. induction s as [|c s IH]; simpl; [done|].
  rewrite lower_char_idem, Ascii.eqb_refl. exact IH.
Qed.

Lemma lower_fixed_id (s : string) : lower_fixed s = true -> lower s = s.
Proof.
  unfold lower_fixed, lower. induction s as [|c s IH]; simpl; [done|].
  intros [Hc Hs]%andb_prop.
  apply Ascii.eqb_eq in Hc. rewrite Hc. f_equal. by apply IH.
Qed.

Lemma is_suffix_cons (c : ascii) (t s : string) :
  is_suffix t (String c s) -> t = String c s \/ is_suffix t s.
Proof.
  intros [[|c' q] Hq].
  - left. by rewrite app_nil_l in Hq.
  - right. rewrite app_cons in Hq. injection Hq as _ Hq. by exists q.
Qed.

Lemma hit_free_nil (hit : string -> bool) : hit "" = false -> hit_free hit "".
Proof. intros Hhit t ->%is_suffix_empty. exact Hhit. Qed.

Lemma hit_free_cons (hit : string -> bool) (c : ascii) (s : string) :
  hit (String c s) = false -> hit_free hit s -> hit_free hit (String c s).
Proof. intros Hhit Hfree t [-> | Ht]%is_suffix_cons; [exact Hhit | by apply Hfree]. Qed.

Lemma hit_free_suffix (hit : string -> bool) (t s : string) :
  is_suffix t s -> hit_free hit s -> hit_free hit t.
Proof. intros Ht Hfree u Hu. apply Hfree. by apply (is_suffix_trans u t s). Qed.

End TextFacts.

Module ReFacts.
Import Text Re Shapes TextFacts.

Section Continuations.
Context {A : Type}.
Implicit Types (k : string -> option A) (r : regex) (s t : string) (v : A).

(** A successful match has called its continuation on a suffix. *)
Lemma star_calls p k s v :
  star p k s = Some v -> exists t, is_suffix t s /\ k t = Some v.
Proof.
  induction s as [|c s IH]; simpl.
  - intros H. exists "". split; [apply is_suffix_refl | done].
  - destruct (p c).
    + destruct (star p k s) as [v'|] eqn:Hstar.
      * intros [= <-]. destruct (IH eq_refl) as (t & Ht & Hk).
        exists t. split; [by apply is_suffix_tail | done].
      * intros H. exists (String c s). split; [apply is_suffix_refl | done].
    + intros H. exists (String c s). split; [apply is_suffix_refl | done].
Qed.

Lemma rmatch_calls r k s v :
  rmatch r k s = Some v -> exists t, is_suffix t s /\ k t = Some v.
Proof.
  revert k s. induction r as [|p|p|r1 IH1 r2 IH2|r1 IH1|p|]; intros k s; simpl.
  - intros H. exists s. split; [apply is_suffix_refl | done].
  - destruct s as [|c s]; [done|]. destruct (p c); [|done].
    intros H. exists s. split; [apply is_suffix_tail, is_suffix_refl | done].
  - apply star_calls.
  - intros H. apply IH1 in H as (t1 & Ht1 & H). apply IH2 in H as (t2 & Ht2 & H).
    exists t2. split; [by apply (is_suffix_trans t2 t1 s) | done].
  - destruct (rmatch r1 k s) as [v'|] eqn:Hr1.
    + intros [= <-]. by apply IH1.
    + intros H. exists s. split; [apply is_suffix_refl | done].
  - destruct s as [|c s]; [done|]. destruct (p c); [|done].
    intros H. exists (String c s). split; [apply is_suffix_refl | done].
  - destruct s as [|c [|c' s]]; try done.
    + intros H. exists "". split; [apply is_suffix_refl | done].
    + destruct (Ascii.eqb c "010"); [|done].
      intros H. exists (String c ""). split; [apply is_suffix_refl | done].
Qed.

End Continuations.

Lemma star_greedy (p : ascii -> bool) (s : string) : star p Some s = Some (drop_while p s).
Proof.
  induction s as [|c s IH]; simpl; [done|].
  destruct (p c); [by rewrite IH | done].
Qed.

Lemma match_at_suffix (r : regex) (s rest : string) :
  match_at r s = Some rest -> is_suffix rest s.
Proof.
  unfold match_at. intros H. apply rmatch_calls in H as (t & Ht & [= <-]). done.
Qed.

(** [re.sub] on a text in which the pattern matches nowhere. *)
Lemma re_sub_no_match (r : regex) (repl s : string) :
  (forall t, is_suffix t s -> match_at r t = None) -> re_sub r repl s = s.
Proof.
  unfold re_sub. induction s as [|c s IH]; intros Hno; simpl.
  - by rewrite (Hno "" (is_suffix_refl _)).
  - rewrite (Hno _ (is_suffix_refl _)). f_equal. apply IH.
    intros t Ht. apply Hno. by apply is_suffix_tail.
Qed.

(** Every character of the result is one of the text or of the replacement. *)
Lemma re_sub_go_sall (p : ascii -> bool) (r : regex) (repl : string) (n : nat) (s : string) :
  sall p repl = true -> sall p s = true -> sall p (re_sub_go r repl n s) = true.
Proof.
  intros Hrepl. revert n. induction s as [|c s IH]; intros n; simpl.
  - intros _. destruct n; [|done]. by destruct (match_at r "").
  - intros [Hc Hs]%andb_prop. destruct n as [|n]; [|by apply IH].
    destruct (match_at r (String c s)) as [rest|].
    + destruct (_ - _)%nat.
      * rewrite sall_app, Hrepl. simpl. rewrite Hc. by apply IH.
      * rewrite sall_app, Hrepl. by apply IH.
    + simpl. rewrite Hc. by apply IH.
Qed.

(** Skipping to the end leaves nothing, if the pattern does not match the
    empty text. *)
Lemma re_sub_go_skip_all (r : regex) (repl : string) (n : nat) (s : string) :
  match_at r "" = None -> (String.length s <= n)%nat -> re_sub_go r repl n s = "".
Proof.
  intros Hempty. revert n. induction s as [|c s IH]; intros n Hn; simpl.
  - rewrite Hempty. by destruct n.
  - simpl in Hn. destruct n as [|n]; [lia|]. apply IH. lia.
Qed.

Lemma length_cons_sub (c : ascii) (s t : string) :
  is_suffix t s ->
  (String.length (String c s) - String.length t)%nat
  = S (String.length s - String.length t).
Proof. intros H%is_suffix_length. simpl String.length. lia. Qed.

(** Replacing one class by nothing filters the text. *)
Lemma re_sub_cls (p : ascii -> bool) (s : string) :
  re_sub (Cls p) "" s = sfilter (fun c => negb (p c)) s.
Proof.
  unfold re_sub. induction s as [|c s IH]; [reflexivity|].
  cbn [re_sub_go sfilter]. unfold match_at. cbn [rmatch].
  destruct (p c); cbn [negb].
  - rewrite (length_cons_sub c s s (is_suffix_refl s)), Nat.sub_diag. by rewrite app_nil_l.
  - by rewrite IH.
Qed.

Lemma re_sub_go_skip (r : regex) (repl : string) (n : nat) (s : string) :
  (n <= String.length s)%nat -> re_sub_go r repl n s = re_sub_go r repl 0 (skip n s).
Proof.
  revert n. induction s as [|c s IH]; intros n Hn; simpl in Hn.
  - by replace n with 0%nat by lia.
  - destruct n as [|n]; [reflexivity|]. simpl. apply IH. lia.
Qed.

Lemma skip_run (p : ascii -> bool) (s : string) :
  skip (String.length s - String.length (drop_while p s)) s = drop_while p s.
Proof.
  induction s as [|c s IH]; [reflexivity|]. cbn [drop_while].
  destruct (p c).
  - rewrite (length_cons_sub c s _ (drop_while_suffix p s)). exact IH.
  - by rewrite Nat.sub_diag.
Qed.

Lemma spaces_match (c : ascii) (s : string) :
  match_at (Plus is_space) (String c s)
  = if is_space c then Some (drop_while is_space s) else None.
Proof.
  unfold match_at, Plus. cbn [rmatch]. destruct (is_space c); [apply star_greedy | done].
Qed.

Lemma collapse_space (c : ascii) (s : string) :
  is_space c = true ->
  re_sub (Plus is_space) " " (String c s)
  = String " " (re_sub (Plus is_space) " " (drop_while is_space s)).
Proof.
  intros Hc. unfold re_sub. cbn [re_sub_go]. rewrite spaces_match, Hc.
  rewrite (length_cons_sub c s _ (drop_while_suffix is_space s)).
  rewrite re_sub_go_skip by lia. by rewrite skip_run.
Qed.

Lemma collapse_solid (c : ascii) (s : string) :
  is_space c = false ->
  re_sub (Plus is_space) " " (String c s) = String c (re_sub (Plus is_space) " " s).
Proof. intros Hc. unfold re_sub. cbn [re_sub_go]. by rewrite spaces_match, Hc. Qed.

Lemma collapse_is_collapsed_upto (n : nat) (s : string) :
  (String.length s <= n)%nat ->
  collapsed (re_sub (Plus is_space) " " s) = true
  /\ (starts_solid s = true -> starts_solid (re_sub (Plus is_space) " " s) = true).
Proof.
  revert s. induction n as [|n IH]; intros s Hn.
  - destruct s; [by split | simpl in Hn; lia].
  - destruct s as [|c s]; [by split|]. simpl in Hn.
    destruct (is_space c) eqn:Hc.
    + rewrite collapse_space by done.
      assert (Hd : (String.length (drop_while is_space s) <= n)%nat).
      { pose proof (is_suffix_length _ _ (drop_while_suffix is_space s)). lia. }
      destruct (IH _ Hd) as [Hcol Hsolid].
      split; [|simpl; by rewrite Hc].
      simpl. rewrite Hcol, Hsolid by apply drop_while_solid. done.
    + rewrite collapse_solid by done.
      destruct (IH s ltac:(lia)) as [Hcol _].
      split; simpl; by rewrite Hc.
Qed.

Lemma collapse_is_collapsed (s : string) : collapsed (re_sub (Plus is_space) " " s) = true.
Proof. by apply (collapse_is_collapsed_upto (String.length s)). Qed.

Lemma collapse_collapsed (s : string) :
  collapsed s = true -> re_sub (Plus is_space) " " s = s.
Proof.
  induction s as [|c s IH]; [done|]. simpl.
  intros [Hc Hs]%andb_prop. destruct (is_space c) eqn:Hsp.
  - apply andb_prop in Hc as [->%Ascii.eqb_eq Hsolid].
    rewrite collapse_space by done.
    rewrite drop_while_id by (destruct s; [done | by apply negb_true_iff]).
    by rewrite IH.
  - rewrite collapse_solid by done. by rewrite IH.
Qed.

Lemma starts_solid_prefix (u v : string) :
  starts_solid (u ++ v) = true -> u <> "" -> starts_solid u = true.
Proof. destruct u; [done|]. by rewrite app_cons. Qed.

Lemma collapsed_prefix (u s : string) :
  is_prefix u s -> collapsed s = true -> collapsed u = true.
Proof.
  intros [v ->]. induction u as [|c u IH]; [done|]. rewrite app_cons. simpl.
  intros [Hc Hs]%andb_prop. rewrite (IH Hs), andb_true_r.
  destruct (is_space c); [|done].
  apply andb_prop in Hc as [-> Hsolid]. simpl.
  destruct u; [done|]. by apply (starts_solid_prefix _ v).
Qed.

Lemma collapsed_no_newline (s : string) :
  collapsed s = true -> free_of (chr "010") s = true.
Proof.
  unfold free_of. induction s as [|c s IH]; [done|]. cbn [collapsed sall].
  intros [Hc Hs]%andb_prop. apply andb_true_intro. split; [|by apply IH].
  unfold chr. destruct (Ascii.eqb_spec "010" c) as [<- | Hne]; [|done].
  simpl in Hc. done.
Qed.

End ReFacts.

Module NormalizerFacts.
Import Text Re Shapes Normalizer TextFacts ReFacts.

Lemma contains_free (a : ascii) (s : string) :
  contains a s = false <-> free_of (chr a) s = true.
Proof. unfold contains. by rewrite negb_false_iff. Qed.

Lemma sall_sfilter (p : ascii -> bool) (s : string) : sall p (sfilter p s) = true.
Proof.
  induction s as [|c s IH]; [done|]. simpl.
  destruct (p c) eqn:Hc; [|done]. simpl. by rewrite Hc.
Qed.

Lemma sfilter_id (p : ascii -> bool) (s : string) : sall p s = true -> sfilter p s = s.
Proof.
  induction s as [|c s IH]; [done|]. simpl.
  intros [-> Hs]%andb_prop. by rewrite IH.
Qed.

Lemma sall_smap (p q : ascii -> bool) (f : ascii -> ascii) (s : string) :
  (forall c, p c = true -> q (f c) = true) -> sall p s = true -> sall q (smap f s) = true.
Proof.
  intros Hf. induction s as [|c s IH]; [done|]. simpl.
  intros [Hc Hs]%andb_prop. by rewrite (Hf c Hc), IH.
Qed.

Lemma smap_id (p : ascii -> bool) (f : ascii -> ascii) (s : string) :
  (forall c, p c = true -> f c = c) -> sall p s = true -> smap f s = s.
Proof.
  intros Hf. induction s as [|c s IH]; [done|]. simpl.
  intros [Hc Hs]%andb_prop. by rewrite (Hf c Hc), IH.
Qed.

Lemma rstrip_solid (s : string) : free_of is_space s = true -> rstrip s = s.
Proof.
  unfold free_of. induction s as [|c s IH]; [done|]. simpl.
  intros [Hc Hs]%andb_prop. apply negb_true_iff in Hc. rewrite Hc, andb_false_r.
  by rewrite IH.
Qed.

Lemma strip_solid (s : string) : free_of is_space s = true -> strip s = s.
Proof.
  intros H. unfold strip, lstrip. rewrite drop_while_id.
  - by apply rstrip_solid.
  - destruct s as [|c s]; [done|]. unfold free_of in H. simpl in H.
    by apply andb_prop in H as [H%negb_true_iff _].
Qed.

Lemma upper_kept (c : ascii) : kept_char c = true -> isbn_char (upper_char c) = true.
Proof. destruct c as [[] [] [] [] [] [] [] []]; vm_compute; congruence. Qed.

Lemma upper_isbn_char (c : ascii) : isbn_char c = true -> upper_char c = c.
Proof. destruct c as [[] [] [] [] [] [] [] []]; vm_compute; congruence. Qed.

Lemma isbn_char_not_excel (c : ascii) :
  isbn_char c = true -> negb (chr "=" c || chr dquote c || is_space c || chr "-" c) = true.
Proof. destruct c as [[] [] [] [] [] [] [] []]; vm_compute; congruence. Qed.

Lemma isbn_char_solid (c : ascii) : isbn_char c = true -> negb (is_space c) = true.
Proof. destruct c as [[] [] [] [] [] [] [] []]; vm_compute; congruence. Qed.

Lemma isbn_char_kept (c : ascii) : isbn_char c = true -> negb (negb (kept_char c)) = true.
Proof. destruct c as [[] [] [] [] [] [] [] []]; vm_compute; congruence. Qed.

Lemma clean_isbn_alphabet (v : string) (y : string) :
  clean_isbn (Some v) = Some y -> sall isbn_char y = true /\ (10 <= String.length y)%nat.
Proof.
  unfold clean_isbn.
  destruct (_ <? 10)%nat eqn:Hlen; [done|]. intros [= <-].
  apply Nat.ltb_ge in Hlen. split; [|exact Hlen].
  unfold upper, re_non_isbn. rewrite re_sub_cls.
  apply (sall_smap kept_char); [apply upper_kept|].
  eapply sall_impl; [|apply sall_sfilter]. intros c. cbv beta.
  by rewrite negb_involutive.
Qed.

Lemma clean_isbn_fixed (y : string) :
  sall isbn_char y = true -> (10 <= String.length y)%nat -> clean_isbn (Some y) = Some y.
Proof.
  intros Hy Hlen. unfold clean_isbn, re_excel, re_non_isbn.
  rewrite (re_sub_cls _ y), (sfilter_id _ y)
    by (eapply sall_impl; [apply isbn_char_not_excel | done]).
  rewrite strip_solid by (eapply sall_impl; [apply isbn_char_solid | done]).
  rewrite (re_sub_cls _ y), (sfilter_id _ y)
    by (eapply sall_impl; [apply isbn_char_kept | done]).
  unfold upper. rewrite (smap_id isbn_char) by (done || apply upper_isbn_char).
  apply Nat.ltb_ge in Hlen. by rewrite Hlen.
Qed.

Lemma chr_eq (a c : ascii) : chr a c = true -> c = a.
Proof. unfold chr. intros H. symmetry. by apply Ascii.eqb_eq. Qed.

(** *** Patterns that close with a character and [$] *)

Lemma star_split {A} (p : ascii -> bool) (k : string -> option A) (s : string) (v : A) :
  star p k s = Some v -> exists u t, s = u ++ t /\ sall p u = true /\ k t = Some v.
Proof.
  induction s as [|c s IH]; simpl.
  - intros H. by exists "", "".
  - destruct (p c) eqn:Hc.
    + destruct (star p k s) as [v'|] eqn:Hstar.
      * intros [= <-]. destruct (IH eq_refl) as (u & t & -> & Hu & Hk).
        exists (String c u), t. rewrite app_cons. simpl. by rewrite Hc, Hu.
      * intros H. by exists "", (String c s).
    + intros H. by exists "", (String c s).
Qed.

Lemma closes_with_shape {A} (a : ascii) (r : regex) (k : string -> option A)
    (s : string) (v : A) :
  closes_with a r -> rmatch r k s = Some v ->
  exists pre z, s = pre ++ String a z /\ sall is_space z = true.
Proof.
  intros Hcloses. revert k s. induction Hcloses as [p Hp|r1 r2 _ IH]; intros k s.
  - cbn [rmatch]. destruct s as [|c s]; [done|]. destruct (p c) eqn:Hc; [|done].
    apply Hp in Hc as ->. intros (u & t & -> & Hu & Hk)%star_split.
    exists "", (u ++ t). split; [done|]. rewrite sall_app, Hu. simpl.
    destruct t as [|c [|c' t]]; try done.
    destruct (Ascii.eqb_spec c "010") as [-> | Hne]; done.
  - cbn [rmatch]. intros (t1 & [pre1 ->] & H)%rmatch_calls.
    apply IH in H as (pre & z & -> & Hz).
    exists (pre1 ++ pre), z. by rewrite app_assoc.
Qed.

Lemma rstrip_blank (z : string) : sall is_space z = true -> rstrip z = "".
Proof.
  induction z as [|c z IH]; [done|]. simpl.
  intros [Hc Hz]%andb_prop. by rewrite (IH Hz), Hc.
Qed.

Lemma rstrip_app_blank (q z : string) : sall is_space z = true -> rstrip (q ++ z) = rstrip q.
Proof.
  intros Hz. induction q as [|c q IH].
  - rewrite app_nil_l. by apply rstrip_blank.
  - rewrite app_cons. simpl. by rewrite IH.
Qed.

Lemma ends_with_last (a : ascii) (pre : string) : ends_with a (pre ++ String a "") = true.
Proof.
  induction pre as [|c pre IH].
  - simpl. apply Ascii.eqb_refl.
  - rewrite app_cons. cbn [ends_with]. destruct (pre ++ String a "") eqn:Hp; [|exact IH].
    destruct pre; discriminate.
Qed.

Lemma rstrip_fixed_closing (a : ascii) (pre z : string) :
  sall is_space z = true ->
  rstrip (pre ++ String a z) = pre ++ String a z ->
  ends_with a (pre ++ String a z) = true.
Proof.
  intros Hz Hfix.
  assert (Hlen : z = "").
  { change (String a z) with (String a "" ++ z) in Hfix.
    rewrite <- app_assoc in Hfix. rewrite rstrip_app_blank in Hfix by done.
    destruct (rstrip_prefix (pre ++ String a "")) as [w Hw].
    apply (f_equal String.length) in Hfix, Hw.
    rewrite !length_app in *. simpl in *. destruct z; [done | simpl in *; lia]. }
  subst z. apply ends_with_last.
Qed.

(** A trimmed text that does not end in [a] has no match of a pattern that
    closes with [a]. *)
Lemma closes_with_no_match (a : ascii) (r : regex) (repl s : string) :
  closes_with a r -> rstrip s = s -> ends_with a s = false -> re_sub r repl s = s.
Proof.
  intros Hcloses Hfix Hend. apply re_sub_no_match. intros t [q ->].
  destruct (match_at r t) as [rest|] eqn:Hm; [|done]. exfalso.
  apply (closes_with_shape a) in Hm as (pre & z & -> & Hz); [|done].
  rewrite <- app_assoc in Hfix, Hend.
  rewrite (rstrip_fixed_closing a (q ++ pre) z Hz Hfix) in Hend. done.
Qed.

Lemma rstrip_idem (s : string) : rstrip (rstrip s) = rstrip s.
Proof.
  induction s as [|c s IH]; [done|]. simpl.
  destruct (is_empty (rstrip s) && is_space c) eqn:Hc; [done|].
  simpl. by rewrite IH, Hc.
Qed.

Lemma rstrip_starts_solid (s : string) :
  starts_solid s = true -> starts_solid (rstrip s) = true.
Proof.
  destruct s as [|c s]; [done|]. simpl. intros Hc.
  apply negb_true_iff in Hc. rewrite Hc, andb_false_r. simpl. by rewrite Hc.
Qed.

Lemma starts_solid_lstrip (s : string) : starts_solid s = true -> lstrip s = s.
Proof.
  intros H. apply drop_while_id. destruct s; [done|]. by apply negb_true_iff.
Qed.

Lemma strip_idem (s : string) : strip (strip s) = strip s.
Proof.
  unfold strip at 1. rewrite starts_solid_lstrip.
  - unfold strip. apply rstrip_idem.
  - unfold strip. apply rstrip_starts_solid, drop_while_solid.
Qed.

Lemma strip_rstrip (s : string) : strip s = s -> rstrip s = s.
Proof. intros H. rewrite <- H at 1. unfold strip. rewrite rstrip_idem. exact H. Qed.



(** *** The two subtitle patterns on a text of one line *)

Lemma star_disjoint {A} (p : ascii -> bool) (k : string -> option A) (s : string) :
  (forall c t, p c = true -> k (String c t) = None) -> star p k s = k (drop_while p s).
Proof.
  intros Hk. induction s as [|c s IH]; [done|]. simpl.
  destruct (p c) eqn:Hc; [|done]. rewrite IH.
  destruct (k (drop_while p s)) eqn:Hd; [done|].
  destruct s as [|c' s]; simpl in *; [by apply Hk|].
  destruct (p c'); [by apply Hk | by apply Hk].
Qed.

Lemma star_first {A} (p : ascii -> bool) (k : string -> option A) (s : string) (v : A) :
  k (drop_while p s) = Some v -> star p k s = Some v.
Proof.
  induction s as [|c s IH]; [done|]. simpl.
  destruct (p c); [|done]. intros H. by rewrite (IH H).
Qed.

Lemma lit_match {A} (l : string) (k : string -> option A) (s : string) :
  rmatch (Lit l) k s = match strip_prefix l s with Some t => k t | None => None end.
Proof.
  revert s. induction l as [|a l IH]; intros s; [done|]. cbn [Lit rmatch strip_prefix].
  destruct s as [|c s]; [done|]. unfold chr. destruct (Ascii.eqb a c); [apply IH | done].
Qed.

Lemma strip_prefix_suffix (l s t : string) : strip_prefix l s = Some t -> is_suffix t s.
Proof.
  revert s. induction l as [|a l IH]; intros s; simpl.
  - intros [= ->]. apply is_suffix_refl.
  - destruct s as [|c s]; [done|]. destruct (Ascii.eqb a c); [|done].
    intros H. by apply is_suffix_tail, IH.
Qed.

Lemma strip_prefix_app (l s t v : string) :
  strip_prefix l s = Some t -> strip_prefix l (s ++ v) = Some (t ++ v).
Proof.
  revert s. induction l as [|a l IH]; intros s; simpl.
  - by intros [= ->].
  - destruct s as [|c s]; [done|]. rewrite app_cons.
    destruct (Ascii.eqb a c); [apply IH | done].
Qed.

Lemma rest_of_line (t : string) :
  free_of (chr "010") t = true -> star any_but_newline (rmatch Eos Some) t = Some "".
Proof.
  unfold free_of. induction t as [|c t IH]; [done|]. cbn [sall star].
  intros [Hc Ht]%andb_prop. rewrite (IH Ht).
  unfold any_but_newline, not_chr. unfold chr in Hc. by rewrite Hc.
Qed.

Lemma after_colon_match {A} (k : string -> option A) (s : string) :
  (forall c t, is_space c = true -> k (String c t) = None) ->
  rmatch (Cat (Cls (chr ":")) (Plus is_space)) k s
  = match after_colon s with Some t => k t | None => None end.
Proof.
  intros Hk. unfold Plus, after_colon. cbn [rmatch].
  destruct s as [|c0 [|c1 s2]]; [done | by destruct (chr ":" c0) |].
  destruct (chr ":" c0); [|done]. simpl.
  destruct (is_space c1); [|done]. by apply star_disjoint.
Qed.

Lemma after_colon_suffix (s t : string) : after_colon s = Some t -> is_suffix t s.
Proof.
  unfold after_colon. destruct s as [|c0 [|c1 s2]]; try done.
  destruct (_ && _); [|done]. intros [= <-].
  by apply is_suffix_tail, is_suffix_tail, drop_while_suffix.
Qed.

Lemma a_novel_match (s : string) :
  free_of (chr "010") s = true ->
  match_at re_a_novel s = if starts_a_novel s then Some "" else None.
Proof.
  intros Hline. unfold match_at, starts_a_novel.
  change re_a_novel with
    (Cat (Cls (chr ":"))
       (Cat (Plus is_space) (Cat (Lit "a novel") (Cat (Star any_but_newline) Eos)))).
  change (rmatch (Cat ?a (Cat ?b ?c)) Some s) with (rmatch (Cat a b) (rmatch c Some) s).
  rewrite after_colon_match.
  - destruct (after_colon s) as [t|] eqn:Hcolon; [|done].
    cbn [rmatch]. rewrite lit_match.
    destruct (strip_prefix "a novel" t) as [t'|] eqn:Hlit; [|done].
    apply rest_of_line. apply (sall_suffix _ t' s); [|done].
    apply (is_suffix_trans _ t); [by apply (strip_prefix_suffix "a novel") |].
    by apply after_colon_suffix.
  - intros c t Hc. cbn [rmatch Lit]. unfold chr.
    destruct (Ascii.eqb_spec "a" c) as [<- | Hne]; [done | done].
Qed.

Lemma book_n_match (s : string) :
  free_of (chr "010") s = true ->
  match_at re_book_n s = if starts_book_n s then Some "" else None.
Proof.
  intros Hline. unfold match_at, starts_book_n.
  change re_book_n with
    (Cat (Cls (chr ":"))
       (Cat (Plus is_space)
          (Cat (Lit "book ") (Cat (Plus is_digit) (Cat (Star any_but_newline) Eos))))).
  change (rmatch (Cat ?a (Cat ?b ?c)) Some s) with (rmatch (Cat a b) (rmatch c Some) s).
  rewrite after_colon_match.
  - destruct (after_colon s) as [t|] eqn:Hcolon; [|done].
    cbn [rmatch]. rewrite lit_match.
    destruct (strip_prefix "book " t) as [t'|] eqn:Hlit; [|done].
    assert (Hline' : free_of (chr "010") t' = true).
    { apply (sall_suffix _ t' s); [|done].
      apply (is_suffix_trans _ t); [by apply (strip_prefix_suffix "book ") |].
      by apply after_colon_suffix. }
    unfold Plus. cbn [rmatch]. destruct t' as [|d t']; [done|].
    destruct (is_digit d); [|done].
    apply star_first, rest_of_line.
    apply (sall_suffix _ _ (String d t')); [|done].
    apply is_suffix_tail, drop_while_suffix.
  - intros c t Hc. cbn [rmatch Lit]. unfold chr.
    destruct (Ascii.eqb_spec "b" c) as [<- | Hne]; [done | done].
Qed.

Lemma drop_while_app (p : ascii -> bool) (s v : string) :
  drop_while p s <> "" -> drop_while p (s ++ v) = drop_while p s ++ v.
Proof.
  induction s as [|c s IH]; [done|]. rewrite app_cons. simpl.
  destruct (p c); [apply IH | by rewrite app_cons].
Qed.

Lemma starts_a_novel_app (s v : string) :
  starts_a_novel s = true -> starts_a_novel (s ++ v) = true.
Proof.
  unfold starts_a_novel, after_colon.
  destruct s as [|c0 [|c1 s2]]; try done. rewrite !app_cons.
  destruct (_ && _); [|done].
  destruct (strip_prefix "a novel" (drop_while is_space s2)) as [t|] eqn:Hlit; [|done].
  intros _. rewrite drop_while_app by (intros Hd; by rewrite Hd in Hlit).
  by rewrite (strip_prefix_app _ _ _ v Hlit).
Qed.

Lemma starts_book_n_app (s v : string) :
  starts_book_n s = true -> starts_book_n (s ++ v) = true.
Proof.
  unfold starts_book_n, after_colon.
  destruct s as [|c0 [|c1 s2]]; try done. rewrite !app_cons.
  destruct (_ && _); [|done].
  destruct (strip_prefix "book " (drop_while is_space s2)) as [[|d t]|] eqn:Hlit; try done.
  intros Hd. rewrite drop_while_app by (intros Hd'; by rewrite Hd' in Hlit).
  rewrite (strip_prefix_app _ _ _ v Hlit). by rewrite app_cons.
Qed.

Section Cut.
(** A pattern that, on a text of one line, either takes all that is left or
    fails, and whose success [hit] reads off the start of the text. *)
Variable r : regex.
Variable hit : string -> bool.
Hypothesis hit_match :
  forall s, free_of (chr "010") s = true -> match_at r s = if hit s then Some "" else None.
Hypothesis hit_empty : hit "" = false.
Hypothesis hit_app : forall s v, hit s = true -> hit (s ++ v) = true.

Lemma hit_free_prefix (u s : string) : is_prefix u s -> hit_free hit s -> hit_free hit u.
Proof.
  intros [v ->] Hfree t [q ->].
  destruct (hit t) eqn:Ht; [|done].
  rewrite <- (Hfree (t ++ v)); [symmetry; by apply hit_app|].
  exists q. by rewrite app_assoc.
Qed.

Lemma hit_free_stable (s : string) :
  free_of (chr "010") s = true -> hit_free hit s -> re_sub r "" s = s.
Proof.
  intros Hline Hfree. apply re_sub_no_match. intros t Ht.
  rewrite hit_match by (by apply (sall_suffix _ t s)). by rewrite (Hfree t Ht).
Qed.

Lemma cut_hit_free (s : string) :
  free_of (chr "010") s = true ->
  is_prefix (re_sub r "" s) s /\ hit_free hit (re_sub r "" s).
Proof.
  unfold re_sub. induction s as [|c s IH]; intros Hline.
  - simpl. rewrite (hit_match "" eq_refl), hit_empty.
    split; [by exists "" | by apply hit_free_nil].
  - cbn [re_sub_go]. rewrite (hit_match _ Hline).
    destruct (hit (String c s)) eqn:Hhit.
    + simpl. rewrite app_nil_l.
      rewrite re_sub_go_skip_all; [| by rewrite (hit_match "" eq_refl), hit_empty | lia].
      split; [by exists (String c s) | by apply hit_free_nil].
    + unfold free_of in Hline. simpl in Hline. apply andb_prop in Hline as [_ Hline].
      destruct (IH Hline) as [[v Hv] Hfree].
      split; [exists v; by rewrite app_cons, <- Hv|].
      apply hit_free_cons; [|done].
      destruct (hit (String c (re_sub_go r "" 0 s))) eqn:Ht; [|done].
      apply (hit_app _ v) in Ht. rewrite app_cons, <- Hv in Ht. congruence.
Qed.

End Cut.

(** *** The bracket pattern *)

Lemma is_suffix_proper (c : ascii) (t s : string) :
  is_suffix t (String c s) -> (String.length t <= String.length s)%nat -> is_suffix t s.
Proof.
  intros [u Hu] Hlen. destruct u as [|c' u].
  - rewrite app_nil_l in Hu. subst t. simpl in Hlen. lia.
  - rewrite app_cons in Hu. injection Hu as _ Hu. by exists u.
Qed.

Lemma skip_suffix (t s : string) :
  is_suffix t s -> skip (String.length s - String.length t) s = t.
Proof.
  induction s as [|c s IH]; intros Ht.
  - by apply is_suffix_empty in Ht as ->.
  - destruct (le_lt_dec (String.length t) (String.length s)) as [Hle | Hgt].
    + pose proof (is_suffix_proper c t s Ht Hle) as Hs.
      rewrite (length_cons_sub c s t Hs). simpl. by apply IH.
    + pose proof (is_suffix_length _ _ Ht) as Hlen. simpl in Hlen.
      destruct Ht as [u Hu]. apply (f_equal String.length) in Hu as Hl.
      rewrite length_app in Hl. simpl in Hl.
      destruct u; [|simpl in Hl; lia]. rewrite app_nil_l in Hu. subst t.
      by rewrite Nat.sub_diag.
Qed.

(** One step of [re.sub] at a position with a match that is not empty. *)
Lemma re_sub_step_match (r : regex) (repl : string) (c : ascii) (s rest : string) :
  match_at r (String c s) = Some rest ->
  (String.length rest <= String.length s)%nat ->
  re_sub r repl (String c s) = repl ++ re_sub r repl rest.
Proof.
  intros Hm Hlen. unfold re_sub. cbn [re_sub_go]. rewrite Hm.
  pose proof (is_suffix_proper c rest s (match_at_suffix _ _ _ Hm) Hlen) as Hs.
  rewrite (length_cons_sub c s rest Hs).
  rewrite re_sub_go_skip by lia. by rewrite skip_suffix.
Qed.

Lemma re_sub_step_none (r : regex) (repl : string) (c : ascii) (s : string) :
  match_at r (String c s) = None ->
  re_sub r repl (String c s) = String c (re_sub r repl s).
Proof. intros Hm. unfold re_sub. cbn [re_sub_go]. by rewrite Hm. Qed.

Lemma drop_while_head (p : ascii -> bool) (s : string) :
  match drop_while p s with String c _ => p c = false | EmptyString => True end.
Proof.
  induction s as [|c s IH]; [done|]. simpl.
  destruct (p c) eqn:Hc; [exact IH | exact Hc].
Qed.

Lemma space_not_open (c : ascii) : is_space c = true -> chr "[" c = false.
Proof. unfold chr. destruct (Ascii.eqb_spec "[" c) as [<- | Hne]; done. Qed.

(** The bracket pattern, read off the start of the text. *)
Lemma bracket_match (s : string) :
  match_at re_bracket s = if starts_bracket s then Some (after_bracket s) else None.
Proof.
  unfold match_at, starts_bracket, after_bracket.
  change re_bracket with
    (Cat (Star is_space)
       (Cat (Cls (chr "["))
          (Cat (Plus (not_chr "]")) (Cat (Cls (chr "]")) (Star is_space))))).
  unfold Plus. cbn [rmatch]. rewrite star_disjoint.
  - destruct (drop_while is_space s) as [|c0 [|c1 s2]];
      [done | by destruct (chr "[" c0) |].
    destruct (chr "[" c0); [|done]. cbn [andb].
    destruct (not_chr "]" c1); [|done]. cbn [andb].
    rewrite star_disjoint.
    + destruct (drop_while (not_chr "]") s2) as [|c3 s3] eqn:Hclose; [done|].
      assert (Hc3 : chr "]" c3 = true).
      { pose proof (drop_while_head (not_chr "]") s2) as H. rewrite Hclose in H.
        unfold not_chr in H. unfold chr. by apply negb_false_iff. }
      rewrite Hc3. simpl. apply star_greedy.
    + intros c t Hc. unfold not_chr in Hc. unfold chr.
      by apply negb_true_iff in Hc as ->.
  - intros c t Hc. by rewrite (space_not_open c Hc).
Qed.

Lemma after_bracket_shorter (s : string) :
  starts_bracket s = true -> (String.length (after_bracket s) < String.length s)%nat.
Proof.
  unfold starts_bracket, after_bracket.
  pose proof (is_suffix_length _ _ (drop_while_suffix is_space s)) as H0.
  destruct (drop_while is_space s) as [|c0 [|c1 s2]]; try done.
  pose proof (is_suffix_length _ _ (drop_while_suffix (not_chr "]") s2)) as H2.
  destruct (drop_while (not_chr "]") s2) as [|c3 s3]; [by rewrite !andb_false_r|].
  pose proof (is_suffix_length _ _ (drop_while_suffix is_space s3)) as H3.
  intros _. simpl in *. lia.
Qed.

Lemma bracket_sub_hit (s : string) :
  starts_bracket s = true ->
  re_sub re_bracket "" s = re_sub re_bracket "" (after_bracket s).
Proof.
  intros Hhit. pose proof (after_bracket_shorter s Hhit) as Hlen.
  destruct s as [|c s]; [done|]. simpl in Hlen.
  rewrite (re_sub_step_match re_bracket "" c s (after_bracket (String c s))).
  - by rewrite app_nil_l.
  - by rewrite bracket_match, Hhit.
  - lia.
Qed.

Lemma bracket_sub_miss (c : ascii) (s : string) :
  starts_bracket (String c s) = false ->
  re_sub re_bracket "" (String c s) = String c (re_sub re_bracket "" s).
Proof. intros Hmiss. apply re_sub_step_none. by rewrite bracket_match, Hmiss. Qed.

Lemma starts_bracket_space (c : ascii) (s : string) :
  is_space c = true -> starts_bracket (String c s) = starts_bracket s.
Proof. intros Hc. unfold starts_bracket. simpl. by rewrite Hc. Qed.

Lemma starts_bracket_solid (c : ascii) (s : string) :
  is_space c = false ->
  starts_bracket (String c s)
  = match s with
    | String c1 s2 =>
        chr "[" c && not_chr "]" c1 && negb (is_empty (drop_while (not_chr "]") s2))
    | EmptyString => false
    end.
Proof. intros Hc. unfold starts_bracket. simpl. by rewrite Hc. Qed.

Lemma drop_while_all (p : ascii -> bool) (s : string) :
  sall p s = true -> drop_while p s = "".
Proof.
  induction s as [|c s IH]; [done|]. simpl.
  intros [-> Hs]%andb_prop. by apply IH.
Qed.

Lemma drop_while_empty_all (p : ascii -> bool) (s : string) :
  drop_while p s = "" -> sall p s = true.
Proof.
  induction s as [|c s IH]; [done|]. simpl.
  destruct (p c); [exact IH | done].
Qed.

Section KeepsBrackets.
(** A replacement that leaves a closing bracket at the head where it is
    and brings no closing bracket in. *)
Variable r : regex.
Variable repl : string.
Hypothesis no_empty_match : match_at r "" = None.
Hypothesis no_match_at_close : forall t, match_at r (String "]" t) = None.
Hypothesis repl_no_close : sall (not_chr "]") repl = true.

Lemma open_stays_unmatched (c : ascii) (s : string) :
  is_space c = false ->
  starts_bracket (String c s) = false ->
  starts_bracket (String c (re_sub r repl s)) = false.
Proof.
  intros Hc. rewrite !starts_bracket_solid by done.
  destruct (chr "[" c); [|by destruct (re_sub r repl s)]. cbn [andb].
  destruct s as [|c1 s2].
  - unfold re_sub. simpl. by rewrite no_empty_match.
  - destruct (not_chr "]" c1) eqn:Hc1; cbn [andb].
    + intros Hclose%negb_false_iff. unfold is_empty in Hclose.
      assert (Hall : sall (not_chr "]") (re_sub r repl (String c1 s2)) = true).
      { apply re_sub_go_sall; [done|]. simpl. rewrite Hc1.
        apply drop_while_empty_all. by destruct (drop_while (not_chr "]") s2). }
      destruct (re_sub r repl (String c1 s2)) as [|d1 o2]; [done|].
      simpl in Hall. apply andb_prop in Hall as [-> Hall].
      by rewrite (drop_while_all _ _ Hall).
    + intros _. unfold not_chr in Hc1. apply negb_false_iff, Ascii.eqb_eq in Hc1 as <-.
      rewrite re_sub_step_none by apply no_match_at_close. done.
Qed.

End KeepsBrackets.

(** After the bracket pass no bracketed group is left. *)
Lemma bracket_sub_free_upto (n : nat) (s : string) :
  (String.length s <= n)%nat -> hit_free starts_bracket (re_sub re_bracket "" s).
Proof.
  revert s. induction n as [|n IH]; intros s Hn.
  - destruct s; [by apply hit_free_nil | simpl in Hn; lia].
  - destruct s as [|c s]; [by apply hit_free_nil|]. simpl in Hn.
    destruct (starts_bracket (String c s)) eqn:Hhit.
    + rewrite bracket_sub_hit by done. apply IH.
      pose proof (after_bracket_shorter _ Hhit) as Hlen. simpl in Hlen. lia.
    + rewrite bracket_sub_miss by done.
      pose proof (IH s ltac:(lia)) as Hfree.
      apply hit_free_cons; [|done].
      destruct (is_space c) eqn:Hc.
      * rewrite starts_bracket_space by done. apply Hfree, is_suffix_refl.
      * apply (open_stays_unmatched re_bracket ""); try done;
          intros t'; by rewrite bracket_match.
Qed.

Lemma bracket_sub_free (s : string) : hit_free starts_bracket (re_sub re_bracket "" s).
Proof. by apply (bracket_sub_free_upto (String.length s)). Qed.

Lemma starts_bracket_app (s v : string) :
  starts_bracket s = true -> starts_bracket (s ++ v) = true.
Proof.
  unfold starts_bracket. intros H.
  rewrite drop_while_app by (intros Hd; by rewrite Hd in H).
  destruct (drop_while is_space s) as [|c0 [|c1 s2]]; try done. rewrite !app_cons.
  apply andb_prop in H as [-> H]. simpl.
  rewrite drop_while_app by (intros Hd; by rewrite Hd in H).
  by destruct (drop_while (not_chr "]") s2).
Qed.

Lemma hit_free_strip (s : string) :
  hit_free starts_bracket s -> hit_free starts_bracket (strip s).
Proof.
  intros Hfree. unfold strip, lstrip.
  apply (hit_free_prefix starts_bracket starts_bracket_app _ _ (rstrip_prefix _)).
  by apply (hit_free_suffix _ _ s (drop_while_suffix _ _)).
Qed.

Lemma lower_char_class (c : ascii) :
  is_space (lower_char c) = is_space c
  /\ chr "[" (lower_char c) = chr "[" c
  /\ not_chr "]" (lower_char c) = not_chr "]" c.
Proof. destruct c as [[] [] [] [] [] [] [] []]; by vm_compute. Qed.

Lemma drop_while_smap (p : ascii -> bool) (f : ascii -> ascii) (s : string) :
  (forall c, p (f c) = p c) -> drop_while p (smap f s) = smap f (drop_while p s).
Proof.
  intros Hp. induction s as [|c s IH]; [done|]. simpl. rewrite Hp.
  destruct (p c); [exact IH | done].
Qed.

Lemma starts_bracket_lower (s : string) : starts_bracket (lower s) = starts_bracket s.
Proof.
  unfold starts_bracket, lower.
  rewrite drop_while_smap by (intros c; apply lower_char_class).
  destruct (drop_while is_space s) as [|c0 [|c1 s2]]; try done. cbn [smap].
  destruct (lower_char_class c0) as (_ & -> & _).
  destruct (lower_char_class c1) as (_ & _ & ->).
  rewrite drop_while_smap by (intros c; apply lower_char_class).
  by destruct (drop_while (not_chr "]") s2).
Qed.

Lemma smap_suffix (f : ascii -> ascii) (t s : string) :
  is_suffix t (smap f s) -> exists t', is_suffix t' s /\ t = smap f t'.
Proof.
  induction s as [|c s IH]; intros Ht.
  - apply is_suffix_empty in Ht as ->. exists "". split; [apply is_suffix_refl | done].
  - destruct Ht as [[|c' q] Hq].
    + rewrite app_nil_l in Hq. exists (String c s). split; [apply is_suffix_refl | done].
    + simpl in Hq. rewrite app_cons in Hq. injection Hq as _ Hq.
      destruct (IH (ex_intro _ q Hq)) as (t' & Ht' & ->).
      exists t'. split; [by apply is_suffix_tail | done].
Qed.

Lemma hit_free_lower (s : string) :
  hit_free starts_bracket s -> hit_free starts_bracket (lower s).
Proof.
  intros Hfree t Ht. apply smap_suffix in Ht as (t' & Ht' & ->).
  fold (lower t'). rewrite starts_bracket_lower. by apply Hfree.
Qed.

Lemma hit_free_collapse_upto (n : nat) (s : string) :
  (String.length s <= n)%nat ->
  hit_free starts_bracket s -> hit_free starts_bracket (re_sub (Plus is_space) " " s).
Proof.
  revert s. induction n as [|n IH]; intros s Hn Hs.
  - destruct s; [by apply hit_free_nil | simpl in Hn; lia].
  - destruct s as [|c s]; [by apply hit_free_nil|]. simpl in Hn.
    destruct (is_space c) eqn:Hc.
    + rewrite collapse_space by done.
      assert (Hfree : hit_free starts_bracket
                        (re_sub (Plus is_space) " " (drop_while is_space s))).
      { apply IH.
        - pose proof (is_suffix_length _ _ (drop_while_suffix is_space s)). lia.
        - apply (hit_free_suffix _ _ (String c s)); [|done].
          apply is_suffix_tail, drop_while_suffix. }
      apply hit_free_cons; [|done].
      rewrite starts_bracket_space by done. apply Hfree, is_suffix_refl.
    + rewrite collapse_solid by done.
      assert (Hfree : hit_free starts_bracket (re_sub (Plus is_space) " " s)).
      { apply IH; [lia|]. apply (hit_free_suffix _ _ (String c s)); [|done].
        apply is_suffix_tail, is_suffix_refl. }
      apply hit_free_cons; [|done].
      apply (open_stays_unmatched (Plus is_space) " "); try done.
      apply Hs, is_suffix_refl.
Qed.

Lemma hit_free_collapse (s : string) :
  hit_free starts_bracket s -> hit_free starts_bracket (re_sub (Plus is_space) " " s).
Proof. by apply (hit_free_collapse_upto (String.length s)). Qed.

(** A text without bracketed group passes the bracket pattern unchanged. *)
Lemma bracket_free_stable (s : string) :
  hit_free starts_bracket s -> re_sub re_bracket "" s = s.
Proof.
  intros Hfree. apply re_sub_no_match. intros t Ht.
  by rewrite bracket_match, (Hfree t Ht).
Qed.

(** *** The title normalizer *)

Lemma series_closes : closes_with ")" re_series.
Proof. repeat first [apply closes_here; apply chr_eq | apply closes_cat]. Qed.

Lemma paren_end_closes : closes_with ")" re_paren_end.
Proof. repeat first [apply closes_here; apply chr_eq | apply closes_cat]. Qed.

(** What every normalized title looks like: lower case, single spaces, no
    bracketed group and neither subtitle marker left anywhere. *)
Lemma normalized_title_shape (x : string) :
  let y := normalize_title_for_dedup (Some x) in
  lower_fixed y = true /\ collapsed y = true
  /\ hit_free starts_bracket y
  /\ hit_free starts_a_novel y /\ hit_free starts_book_n y.
Proof.
  unfold normalize_title_for_dedup. cbv zeta.
  set (t := re_sub re_bracket "" _).
  set (w := re_sub re_spaces " " (strip (lower t))).
  assert (Hlow : lower_fixed w = true).
  { apply re_sub_go_sall; [done|]. apply sall_strip, lower_is_fixed. }
  assert (Hcol : collapsed w = true) by apply collapse_is_collapsed.
  assert (Hbr : hit_free starts_bracket w).
  { apply hit_free_collapse, hit_free_strip, hit_free_lower, bracket_sub_free. }
  destruct (cut_hit_free re_a_novel starts_a_novel a_novel_match eq_refl
              starts_a_novel_app w (collapsed_no_newline w Hcol)) as [Hcut1 Hfree1].
  set (y1 := re_sub re_a_novel "" w) in *.
  assert (Hlow1 : lower_fixed y1 = true) by (by apply (sall_prefix _ y1 w)).
  assert (Hcol1 : collapsed y1 = true) by (by apply (collapsed_prefix y1 w)).
  assert (Hbr1 : hit_free starts_bracket y1)
    by (by apply (hit_free_prefix starts_bracket starts_bracket_app y1 w)).
  destruct (cut_hit_free re_book_n starts_book_n book_n_match eq_refl
              starts_book_n_app y1 (collapsed_no_newline y1 Hcol1)) as [Hcut2 Hfree2].
  split; [by apply (sall_prefix _ _ y1)|].
  split; [by apply (collapsed_prefix _ y1)|].
  split; [by apply (hit_free_prefix starts_bracket starts_bracket_app _ y1)|].
  split; [|done].
  by apply (hit_free_prefix starts_a_novel starts_a_novel_app _ y1).
Qed.

Lemma normalize_title_fixed (y : string) :
  lower_fixed y = true -> collapsed y = true ->
  hit_free starts_bracket y ->
  hit_free starts_a_novel y -> hit_free starts_book_n y ->
  strip y = y -> ends_with ")" y = false ->
  normalize_title_for_dedup (Some y) = y.
Proof.
  intros Hlow Hcol Hbracket Hnovel Hbook Hstrip Hend.
  pose proof (collapsed_no_newline y Hcol) as Hline.
  unfold normalize_title_for_dedup. rewrite Hstrip.
  rewrite (closes_with_no_match ")" re_series)
    by (done || apply series_closes || by apply strip_rstrip).
  rewrite (closes_with_no_match ")" re_paren_end)
    by (done || apply paren_end_closes || by apply strip_rstrip).
  rewrite (bracket_free_stable y Hbracket).
  rewrite (lower_fixed_id y Hlow), Hstrip.
  unfold re_spaces. rewrite (collapse_collapsed y Hcol).
  rewrite (hit_free_stable re_a_novel starts_a_novel a_novel_match y Hline Hnovel).
  by rewrite (hit_free_stable re_book_n starts_book_n book_n_match y Hline Hbook).
Qed.

(** *** The author normalizer *)

Lemma split_once_spec (a : ascii) (s l r : string) :
  split_once a s = Some (l, r) -> s = l ++ String a r /\ free_of (chr a) l = true.
Proof.
  revert l. induction s as [|c s IH]; intros l; simpl; [done|].
  destruct (Ascii.eqb_spec a c) as [<- | Hne].
  - intros [= <- <-]. by split.
  - destruct (split_once a s) as [[l' r']|]; [|done].
    intros [= <- <-]. destruct (IH l' eq_refl) as [-> Hfree].
    split; [by rewrite app_cons|]. unfold free_of, chr in *. simpl.
    rewrite Hfree, andb_true_r. apply negb_true_iff. by apply Ascii.eqb_neq.
Qed.

Lemma contains_split (a : ascii) (s : string) :
  contains a s = true -> exists l r, split_once a s = Some (l, r).
Proof.
  unfold contains, not_chr. induction s as [|c s IH]; simpl; [done|].
  destruct (Ascii.eqb a c); simpl; [by eauto|].
  intros H. destruct (IH H) as (l & r & ->). eauto.
Qed.

Lemma count_char_app (a : ascii) (s t : string) :
  count_char a (s ++ t) = (count_char a s + count_char a t)%nat.
Proof.
  induction s as [|c s IH]; [done|]. rewrite app_cons. simpl. rewrite IH. lia.
Qed.

Lemma count_char_free (a : ascii) (s : string) :
  free_of (chr a) s = true -> count_char a s = 0%nat.
Proof.
  unfold free_of, chr. induction s as [|c s IH]; [done|]. simpl.
  intros [Hc Hs]%andb_prop. apply negb_true_iff in Hc. rewrite Hc. by apply IH.
Qed.

Lemma count_char_strip (a : ascii) (s : string) :
  (count_char a (strip s) <= count_char a s)%nat.
Proof.
  unfold strip, lstrip.
  destruct (rstrip_prefix (drop_while is_space s)) as [v Hv].
  destruct (drop_while_suffix is_space s) as [u Hu].
  rewrite Hu at 2. rewrite Hv at 2. rewrite !count_char_app. lia.
Qed.

(** The texts the author normalizer leaves alone. *)
Lemma normalize_author_fixed (y : string) :
  normalize_author (Some y) = y <-> contains "," y = false /\ strip y = y.
Proof.
  unfold normalize_author. split.
  - destruct (contains "," (strip y)) eqn:Hcomma.
    + destruct (contains_split _ _ Hcomma) as (p0 & p1 & Hsplit). rewrite Hsplit.
      apply split_once_spec in Hsplit as [Hparts Hfree].
      intros Hfix. exfalso.
      assert (Hcount : (count_char "," y < count_char "," y)%nat); [|lia].
      rewrite <- Hfix at 1. rewrite !count_char_app. simpl.
      pose proof (count_char_strip "," p0) as H0.
      pose proof (count_char_strip "," p1) as H1.
      pose proof (count_char_strip "," y) as Hy.
      rewrite Hparts, count_char_app in Hy. simpl in Hy.
      rewrite (count_char_free _ _ Hfree) in *. lia.
    + intros Hfix. split; [|done]. by rewrite <- Hfix at 1.
  - intros [Hcomma Hstrip]. by rewrite Hstrip, Hcomma.
Qed.

Lemma normalize_author_no_comma (x : string) :
  contains "," x = false ->
  normalize_author (Some (normalize_author (Some x))) = normalize_author (Some x).
Proof.
  intros Hcomma. apply normalize_author_fixed.
  assert (Hstrip : contains "," (strip x) = false).
  { apply contains_free. by apply sall_strip, contains_free. }
  unfold normalize_author. rewrite Hstrip. split; [done | apply strip_idem].
Qed.

(** C5, against the claim as worded: the title normalizer takes one
    trailing parenthetical off at a time, and the author normalizer swaps
    around the first comma each time it runs. *)
Lemma normalizers_not_idempotent :
  normalize_title_for_dedup (Some (normalize_title_for_dedup (Some "Emma (Penguin Classics) (Paperback)")))
    <> normalize_title_for_dedup (Some "Emma (Penguin Classics) (Paperback)")
  /\ normalize_author (Some (normalize_author (Some "King, Stephen, Jr.")))
    <> normalize_author (Some "King, Stephen, Jr.").
Proof. split; vm_compute; discriminate. Qed.

(** C5, as amended: the ISBN normalizer is idempotent on every input with
    a valid result.  The author normalizer is idempotent exactly on the
    inputs whose normalized form has no comma and no blank at either end,
    among them every name without a comma.  The title normalizer is
    idempotent on every input whose normalized form has no blank at either
    end and does not end in a closing parenthesis. *)
Theorem normalizers_idempotent_where_settled :
  (forall v y, clean_isbn (Some v) = Some y -> clean_isbn (Some y) = Some y)
  /\ (forall x,
        let y := normalize_author (Some x) in
        normalize_author (Some y) = y <-> contains "," y = false /\ strip y = y)
  /\ (forall x,
        contains "," x = false ->
        normalize_author (Some (normalize_author (Some x))) = normalize_author (Some x))
  /\ (forall x,
        let y := normalize_title_for_dedup (Some x) in
        strip y = y -> ends_with ")" y = false ->
        normalize_title_for_dedup (Some y) = y).
Proof.
  split; [|split; [|split]].
  - intros v y Hy. apply clean_isbn_alphabet in Hy as [Halpha Hlen].
    by apply clean_isbn_fixed.
  - intros x. apply normalize_author_fixed.
  - apply normalize_author_no_comma.
  - intros x y Hstrip Hend.
    destruct (normalized_title_shape x) as (Hlow & Hcol & Hbracket & Hnovel & Hbook).
    by apply normalize_title_fixed.
Qed.

Lemma normalizers_idempotent_where_settled_witness :
  clean_isbn (Some "9780439708180") = Some "9780439708180"
  /\ normalize_author (Some "J.K. Rowling") = "J.K. Rowling"
  /\ normalize_title_for_dedup (Some "harry potter and the sorcerer's stone")
     = "harry potter and the sorcerer's stone".
Proof.
  destruct normalizers_idempotent_where_settled as (Hisbn & Hauthor & _ & Htitle).
  split; [|split].
  - apply (Hisbn (String "=" (String dquote ("9780439708180" ++ String dquote "")))).
    vm_compute. reflexivity.
  - apply (Hauthor "Rowling, J.K."). split; vm_compute; reflexivity.
  - apply (Htitle "Harry Potter and the Sorcerer's Stone (Harry Potter, #1)");
      vm_compute; reflexivity.
Defined.

End NormalizerFacts.


(** ** Identity Resolver *)

Module IdentityFacts.
Import Text Re Normalizer Identity Samples.

Lemma truthy_Some (s : string) : s <> "" -> truthy (Some s) = true.
Proof. destruct s; simpl; congruence. Qed.

Lemma valid_isbn_branch (i : string) :
  i <> "" -> i <> "nan" ->
  truthy (Some i) && negb (String.eqb (text_of (Some i)) "nan") = true.
Proof.
  intros Hne Hnan. rewrite truthy_Some by assumption. simpl.
  destruct (String.eqb_spec i "nan"); [contradiction | reflexivity].
Qed.

Lemma isbn_branch_inv (c : cell) :
  truthy c && negb (String.eqb (text_of c) "nan") = true ->
  exists i, c = Some i /\ i <> "" /\ i <> "nan".
Proof.
  destruct c as [i|]; simpl; [|discriminate].
  intros H. apply andb_prop in H as [H1 H2]. exists i. split; [reflexivity|].
  split.
  - intros ->. discriminate.
  - intros ->. discriminate.
Qed.

Lemma truthy_inv (c : cell) : truthy c = true -> exists s, c = Some s /\ s <> "".
Proof.
  destruct c as [s|]; simpl; [|discriminate].
  intros H. exists s. split; [reflexivity|]. intros ->. discriminate.
Qed.

(** C1: with a valid cleaned ISBN13 (non-empty, not the text nan) the key is
    the ISBN form whatever the native id is, never the native-id form and
    never the hash form; the native-id form comes back only without a valid
    ISBN (and with a native id), the hash form only without either. *)
Theorem generate_book_key_priority (md5_hexdigest : string -> string)
    (isbn13 title author book_id : cell) :
  let key := generate_book_key md5_hexdigest isbn13 title author book_id in
  (forall i, isbn13 = Some i -> i <> "" -> i <> "nan" ->
     key = "isbn:" ++ i /\ is_native_key key = false /\ is_hash_key key = false)
  /\ (is_native_key key = true ->
      ~ (exists i, isbn13 = Some i /\ i <> "" /\ i <> "nan")
      /\ exists id, book_id = Some id /\ id <> "" /\ key = "gr:" ++ id)
  /\ (is_hash_key key = true ->
      ~ (exists i, isbn13 = Some i /\ i <> "" /\ i <> "nan")
      /\ ~ (exists id, book_id = Some id /\ id <> "")).
Proof.
  unfold generate_book_key. cbv zeta.
  destruct (truthy isbn13 && negb (String.eqb (text_of isbn13) "nan")) eqn:Hisbn.
  - apply isbn_branch_inv in Hisbn as (i & -> & Hne & Hnan). simpl text_of.
    split; [|split].
    + intros i' [= <-] _ _. repeat split; reflexivity.
    + discriminate.
    + discriminate.
  - assert (Hinvalid : ~ (exists i, isbn13 = Some i /\ i <> "" /\ i <> "nan")).
    { intros (i & -> & Hne & Hnan).
      rewrite valid_isbn_branch in Hisbn by assumption. discriminate. }
    split; [|split].
    + intros i -> Hne Hnan. exfalso. apply Hinvalid. eauto.
    + destruct (truthy book_id) eqn:Hid.
      * intros _. split; [exact Hinvalid|].
        apply truthy_inv in Hid as (id & -> & Hne). eauto.
      * discriminate.
    + destruct (truthy book_id) eqn:Hid.
      * discriminate.
      * intros _. split; [exact Hinvalid|].
        intros (id & -> & Hne). rewrite truthy_Some in Hid by assumption. discriminate.
Qed.

Lemma generate_book_key_priority_witness :
  generate_book_key plain_digest (Some "9780439708180") (Some "Dune") (Some "Frank Herbert")
    (Some "42") = "isbn:9780439708180"
  /\ (exists id, Some "42" = Some id /\ id <> ""
                 /\ generate_book_key plain_digest None (Some "Dune") (Some "Frank Herbert")
                      (Some "42") = "gr:" ++ id)
  /\ ~ (exists id, @None string = Some id /\ id <> "").
Proof.
  split; [|split].
  - apply (generate_book_key_priority plain_digest (Some "9780439708180")
             (Some "Dune") (Some "Frank Herbert") (Some "42"));
      [reflexivity | discriminate | discriminate].
  - apply (generate_book_key_priority plain_digest None
             (Some "Dune") (Some "Frank Herbert") (Some "42")).
    reflexivity.
  - apply (generate_book_key_priority plain_digest None
             (Some "Dune") (Some "Frank Herbert") None).
    reflexivity.
Defined.

(** C10: the text nan as ISBN skips the ISBN branch and the key falls
    through to the native-id form (with a book id) or the hash form; every
    other non-empty ISBN text takes the ISBN branch. *)
Theorem generate_book_key_nan (md5_hexdigest : string -> string)
    (title author book_id : cell) :
  generate_book_key md5_hexdigest (Some "nan") title author book_id =
    (if truthy book_id then "gr:" ++ text_of book_id
     else "ta:" ++ slice_to 12 (md5_hexdigest (normalize_text title ++ "|" ++ normalize_text author)))
  /\ (forall i, i <> "" -> i <> "nan" ->
        generate_book_key md5_hexdigest (Some i) title author book_id = "isbn:" ++ i).
Proof.
  split.
  - reflexivity.
  - intros i Hne Hnan. unfold generate_book_key.
    rewrite valid_isbn_branch by assumption. reflexivity.
Qed.

Lemma generate_book_key_nan_witness :
  generate_book_key plain_digest (Some "nan") (Some "Dune") (Some "Frank Herbert") (Some "42")
    = "gr:42"
  /\ generate_book_key plain_digest (Some "nan") (Some "Dune") (Some "Frank Herbert") None
    = "ta:dune|frank h"
  /\ generate_book_key plain_digest (Some "9780441172719") (Some "Dune") (Some "Frank Herbert")
       (Some "42") = "isbn:9780441172719".
Proof.
  split; [|split].
  - apply (generate_book_key_nan plain_digest (Some "Dune") (Some "Frank Herbert") (Some "42")).
  - apply (generate_book_key_nan plain_digest (Some "Dune") (Some "Frank Herbert") None).
  - apply (generate_book_key_nan plain_digest (Some "Dune") (Some "Frank Herbert") (Some "42"));
      discriminate.
Defined.

End IdentityFacts.

(** ** Deduplicator *)

Module DedupFacts.
Import Text Re Normalizer Identity Frames Matcher Dedup Pipeline Samples TextFacts.

Lemma drop_duplicates_go_sub (seen : gset string) (rs : list BookRecord) (r : BookRecord) :
  r ∈ drop_duplicates_go seen rs -> r ∈ rs /\ book_key r ∉ seen.
Proof.
  revert seen. induction rs as [|r0 rs IH]; intros seen; simpl.
  - intros H. inversion H.
  - case_bool_decide as Hseen.
    + intros H. apply IH in H as [H1 H2]. split; [by right | done].
    + intros H. apply elem_of_cons in H as [-> | H].
      * split; [by left | done].
      * apply IH in H as [H1 H2]. split; [by right|].
        intros Hin. apply H2, elem_of_union. by right.
Qed.

Lemma drop_duplicates_go_NoDup (seen : gset string) (rs : list BookRecord) :
  NoDup (book_key <$> drop_duplicates_go seen rs).
Proof.
  revert seen. induction rs as [|r0 rs IH]; intros seen; simpl.
  - constructor.
  - case_bool_decide as Hseen; [apply IH|].
    rewrite fmap_cons. constructor; [|apply IH].
    intros Hin. apply list_elem_of_fmap in Hin as (r & Hkey & Hr).
    apply drop_duplicates_go_sub in Hr as [_ Hr].
    apply Hr, elem_of_union. left. rewrite Hkey. by apply elem_of_singleton.
Qed.

Lemma NoDup_fmap_filter {A B} (f : A -> B) (p : A -> bool) (l : list A) :
  NoDup (f <$> l) -> NoDup (f <$> List.filter p l).
Proof.
  induction l as [|x l IH]; simpl; [done|].
  rewrite NoDup_cons. intros [Hx Hl].
  destruct (p x); [|by apply IH].
  rewrite fmap_cons, NoDup_cons. split; [|by apply IH].
  intros Hin. apply Hx.
  apply list_elem_of_fmap in Hin as (y & -> & Hy).
  apply filter_elem_of in Hy as [Hy _].
  apply list_elem_of_fmap. eauto.
Qed.

(** C3: after the [book_key] pass and the title+author pass no two records
    of the output share a [book_key], whatever the size of the input. *)
Theorem deduplicate_book_key_unique
    (md5_hexdigest : string -> string)
    (sort_by_popularity : list KaggleRow -> list KaggleRow)
    (clean_description parsed_genres_json primary_genre : cell -> string)
    (embedding_text : cell -> cell -> string -> cell -> string)
    (goodreads : list GoodreadsRow) (kaggle : list KaggleRow)
    (rs : list BookRecord) :
  NoDup (book_key <$> deduplicate rs)
  /\ NoDup (book_key <$> build_base_dataset md5_hexdigest sort_by_popularity
              clean_description parsed_genres_json primary_genre embedding_text
              goodreads kaggle).
Proof.
  assert (H : forall l, NoDup (book_key <$> deduplicate l)).
  { intros l. unfold deduplicate, second_pass.
    apply NoDup_fmap_filter. apply drop_duplicates_go_NoDup. }
  split; [apply H | apply H].
Qed.

Lemma dedup_key_in_read_keys (rs : list BookRecord) (r : BookRecord) :
  r ∈ rs -> is_read r = true -> dedup_key r ∈ read_dedup_keys rs.
Proof.
  intros Hin Hread. unfold read_dedup_keys.
  apply elem_of_list_to_set, list_elem_of_fmap.
  exists r. split; [done|]. by apply filter_elem_of.
Qed.

Lemma filter_filter_keep {A} (p q : A -> bool) (l : list A) :
  (forall x, p x = true -> q x = true) ->
  List.filter p (List.filter q l) = List.filter p l.
Proof.
  intros Hpq. induction l as [|x l IH]; simpl; [done|].
  destruct (q x) eqn:Hq; simpl.
  - destruct (p x); by rewrite IH.
  - destruct (p x) eqn:Hp; [|done]. apply Hpq in Hp. congruence.
Qed.

(** C2: after the second pass no unread record is left whose
    dedup-normalized (title, author) pair is that of a read record, and the
    pass removes no read record. *)
Theorem second_pass_read_priority (rs : list BookRecord) :
  (forall r_read r,
      r_read ∈ rs -> is_read r_read = true ->
      r ∈ second_pass rs -> is_read r = false ->
      (title_norm_dedup r, author_norm_dedup r)
        <> (title_norm_dedup r_read, author_norm_dedup r_read))
  /\ List.filter is_read (second_pass rs) = List.filter is_read rs
  /\ (forall r, r ∈ rs -> is_read r = true -> r ∈ second_pass rs).
Proof.
  split; [|split].
  - intros r_read r Hin Hread Hr Hunread Hpair.
    apply filter_elem_of in Hr as [_ Hkeep].
    unfold mask_keep in Hkeep. rewrite Hunread in Hkeep. simpl in Hkeep.
    apply negb_true_iff, bool_decide_eq_false in Hkeep. apply Hkeep.
    assert (Hkey : dedup_key r = dedup_key r_read).
    { unfold dedup_key. injection Hpair as -> ->. reflexivity. }
    rewrite Hkey. by apply dedup_key_in_read_keys.
  - unfold second_pass. apply filter_filter_keep.
    intros x Hx. unfold mask_keep. by rewrite Hx.
  - intros r Hin Hread. apply filter_elem_of. split; [done|].
    unfold mask_keep. by rewrite Hread.
Qed.

Lemma second_pass_read_priority_witness :
  second_pass [potter_read; potter_corpus; dune_corpus] = [potter_read; dune_corpus]
  /\ (title_norm_dedup dune_corpus, author_norm_dedup dune_corpus)
       <> (title_norm_dedup potter_read, author_norm_dedup potter_read)
  /\ potter_read ∈ second_pass [potter_read; potter_corpus; dune_corpus].
Proof.
  assert (Hrun : second_pass [potter_read; potter_corpus; dune_corpus]
                 = [potter_read; dune_corpus]) by (vm_compute; reflexivity).
  split; [exact Hrun|].
  destruct (second_pass_read_priority [potter_read; potter_corpus; dune_corpus])
    as (Hpair & _ & Hkept).
  split.
  - apply Hpair.
    + apply list_elem_of_In. simpl. tauto.
    + reflexivity.
    + rewrite Hrun. apply list_elem_of_In. simpl. tauto.
    + reflexivity.
  - apply Hkept.
    + apply list_elem_of_In. simpl. tauto.
    + reflexivity.
Defined.

End DedupFacts.

(** ** Exclusion Filter *)

Module ExclusionFacts.
Import Text Exclusions.

Lemma first_match_kept (table : list ((Book -> bool) * string)) (b : Book) :
  first_match table b = (false, None) <-> Forall (fun entry => entry.1 b = false) table.
Proof.
  induction table as [|[applies tag] table IH]; simpl.
  - split; [constructor | reflexivity].
  - destruct (applies b) eqn:Happ.
    + split; [discriminate|]. intros H. inversion H; simpl in *; congruence.
    + rewrite IH. split.
      * intros H. constructor; [exact Happ | exact H].
      * intros H. inversion H; assumption.
Qed.

Lemma first_match_tag (table : list ((Book -> bool) * string)) (b : Book) (tag : string) :
  first_match table b = (true, Some tag) ->
  exists before applies after,
    table = (before ++ (applies, tag) :: after)%list
    /\ applies b = true
    /\ Forall (fun entry => entry.1 b = false) before.
Proof.
  induction table as [|[applies tag0] table IH]; simpl; [discriminate|].
  destruct (applies b) eqn:Happ.
  - intros [= <-]. exists [], applies, table. repeat split; [exact Happ | constructor].
  - intros H. apply IH in H as (before & applies' & after & -> & Happ' & Hbefore).
    exists ((applies, tag0) :: before), applies', after.
    repeat split; [exact Happ' | constructor; [exact Happ | exact Hbefore]].
Qed.

(** C7: [should_exclude] tries the six rules in the order no-date-read,
    one-star, unread, title list, author list, id list; it answers with the
    tag of the first rule that applies, the six tags are distinct, and a
    book to which no rule applies is kept with [(False, None)]. *)
Theorem should_exclude_first_match (book : Book) (exclusions : Config) :
  should_exclude book exclusions = first_match (rule_table exclusions) book
  /\ (rule_table exclusions).*2
       = ["no_date_read"; "one_star"; "unread"; "title_list"; "author_list"; "id_list"]
  /\ NoDup (rule_table exclusions).*2
  /\ (should_exclude book exclusions = (false, None)
      <-> Forall (fun entry => entry.1 book = false) (rule_table exclusions))
  /\ (forall tag, should_exclude book exclusions = (true, Some tag) ->
        exists before applies after,
          rule_table exclusions = (before ++ (applies, tag) :: after)%list
          /\ applies book = true
          /\ Forall (fun entry => entry.1 book = false) before)
  /\ ((exists tag, should_exclude book exclusions = (true, Some tag))
      \/ should_exclude book exclusions = (false, None)).
Proof.
  assert (Heq : should_exclude book exclusions = first_match (rule_table exclusions) book).
  { unfold should_exclude, rule_table, first_match.
    destruct (rule exclusions "exclude_no_date_read"); simpl;
      [destruct (is_read book) eqn:Hread; simpl;
         [destruct (has_date_read book); simpl; try reflexivity|]|];
      repeat (match goal with
              | |- context [if ?c then _ else _] => destruct c eqn:?; simpl
              end; try reflexivity; try congruence). }
  split; [exact Heq|]. split; [reflexivity|]. split.
  { apply (bool_decide_unpack _). vm_compute. exact I. }
  rewrite Heq. split; [apply first_match_kept|]. split; [apply first_match_tag|].
  generalize (rule_table exclusions). intros table.
  induction table as [|[applies tag] table IH]; simpl.
  - by right.
  - destruct (applies book); [left; eauto | exact IH].
Qed.

Lemma should_exclude_first_match_witness :
  should_exclude
    {| bk_id := Some "isbn:1"; bk_title := Some "Dune"; bk_author := Some "Frank Herbert";
       bk_is_read := Some true; bk_date_read := Some "2020/01/05"; bk_my_rating := Some 1%Z;
       bk_genres := None; bk_description := None |}
    default_config = (true, Some "one_star")
  /\ exists before applies after,
       rule_table default_config = (before ++ (applies, "one_star") :: after)%list
       /\ applies {| bk_id := Some "isbn:1"; bk_title := Some "Dune";
                     bk_author := Some "Frank Herbert"; bk_is_read := Some true;
                     bk_date_read := Some "2020/01/05"; bk_my_rating := Some 1%Z;
                     bk_genres := None; bk_description := None |} = true
       /\ Forall (fun entry =>
                    entry.1 {| bk_id := Some "isbn:1"; bk_title := Some "Dune";
                               bk_author := Some "Frank Herbert"; bk_is_read := Some true;
                               bk_date_read := Some "2020/01/05"; bk_my_rating := Some 1%Z;
                               bk_genres := None; bk_description := None |} = false) before.
Proof.
  split; [vm_compute; reflexivity|].
  apply should_exclude_first_match. vm_compute. reflexivity.
Defined.

End ExclusionFacts.

(** ** Recomputed analytics *)

Module AnalyticsFacts.
Import Text Exclusions TextFacts.

Section CounterFacts.
Context {K : Type} `{EqDecision K}.
Implicit Types (k : K) (c : list (K * nat)).

Lemma counter_get_incr k k' c :
  counter_get (counter_incr k c) k' = (counter_get c k' + if decide (k' = k) then 1 else 0)%nat.
Proof.
  induction c as [|[k0 n] c IH]; simpl.
  - repeat case_decide; lia.
  - destruct (decide (k = k0)) as [-> | Hne]; simpl.
    + repeat case_decide; subst; try lia; congruence.
    + rewrite IH. repeat case_decide; subst; try lia; congruence.
Qed.

Lemma counter_incr_keys k c k' :
  k' ∈ (counter_incr k c).*1 <-> k' = k \/ k' ∈ c.*1.
Proof.
  induction c as [|[k0 n] c IH]; simpl.
  - rewrite list_elem_of_singleton. split; [by left|]. intros [H | H]; [done | inversion H].
  - destruct (decide (k = k0)) as [-> | Hne]; simpl.
    + rewrite !elem_of_cons. tauto.
    + rewrite !elem_of_cons, IH. tauto.
Qed.

Lemma counter_incr_NoDup k c : NoDup c.*1 -> NoDup (counter_incr k c).*1.
Proof.
  induction c as [|[k0 n] c IH]; simpl.
  - intros _. apply NoDup_singleton.
  - rewrite NoDup_cons. intros [Hk0 Hc].
    destruct (decide (k = k0)) as [-> | Hne]; simpl.
    + by apply NoDup_cons.
    + apply NoDup_cons. split; [|by apply IH].
      rewrite counter_incr_keys. intros [-> | H]; [congruence | done].
Qed.

Lemma counter_get_elem c k n :
  NoDup c.*1 -> (k, n) ∈ c -> counter_get c k = n.
Proof.
  induction c as [|[k0 n0] c IH]; simpl.
  - intros _ H. inversion H.
  - rewrite NoDup_cons. intros [Hk0 Hc] Hin.
    apply elem_of_cons in Hin as [[= -> ->] | Hin].
    + by rewrite decide_True.
    + rewrite decide_False; [by apply IH|].
      intros ->. apply Hk0. apply list_elem_of_fmap. by exists (k0, n).
Qed.

Lemma counter_incr_positive k c :
  Forall (fun e => 0 < e.2)%nat c -> Forall (fun e => 0 < e.2)%nat (counter_incr k c).
Proof.
  induction c as [|[k0 n] c IH]; simpl.
  - intros _. repeat constructor.
  - intros H. inversion H as [|? ? Hn Hc]; subst.
    destruct (decide (k = k0)) as [-> | Hne]; constructor; simpl in *;
      try lia; try done. by apply IH.
Qed.

Lemma insert_desc_Permutation (x : K * nat) c : insert_desc x c ≡ₚ x :: c.
Proof.
  induction c as [|y c IH]; simpl; [done|].
  destruct (x.2 <? y.2)%nat; [|done].
  rewrite IH. apply Permutation_swap.
Qed.

Lemma sort_desc_Permutation c : foldr insert_desc [] c ≡ₚ c.
Proof.
  induction c as [|x c IH]; simpl; [done|].
  by rewrite insert_desc_Permutation, IH.
Qed.

Lemma most_common_elem n c (e : K * nat) : e ∈ most_common n c -> e ∈ c.
Proof.
  unfold most_common. intros H.
  rewrite <- (sort_desc_Permutation c).
  by apply (subseteq_take n (foldr insert_desc [] c)).
Qed.

End CounterFacts.

Section GenreCounter.
Variable json_loads : string -> option (list string).

Lemma count_genres_get (gs : list string) (c : list (string * nat)) (g : string) :
  counter_get (foldl (fun counter g' => counter_incr g' counter) c gs) g
  = (counter_get c g + occurrences g gs)%nat.
Proof.
  revert c. induction gs as [|g0 gs IH]; intros c; simpl.
  - unfold occurrences. simpl. lia.
  - rewrite IH, counter_get_incr. unfold occurrences. simpl.
    destruct (String.eqb_spec g g0) as [-> | Hne].
    + rewrite decide_True by done. simpl. lia.
    + rewrite decide_False by done. lia.
Qed.

Lemma count_genres_NoDup (gs : list string) (c : list (string * nat)) :
  NoDup c.*1 -> NoDup (foldl (fun counter g' => counter_incr g' counter) c gs).*1.
Proof.
  revert c. induction gs as [|g0 gs IH]; intros c Hc; simpl; [done|].
  apply IH. by apply counter_incr_NoDup.
Qed.

Lemma count_genres_positive (gs : list string) (c : list (string * nat)) :
  Forall (fun e => 0 < e.2)%nat c ->
  Forall (fun e => 0 < e.2)%nat (foldl (fun counter g' => counter_incr g' counter) c gs).
Proof.
  revert c. induction gs as [|g0 gs IH]; intros c Hc; simpl; [done|].
  apply IH. by apply counter_incr_positive.
Qed.

Lemma genre_loop_get (read_books : list Book) (c : list (string * nat)) (g : string) :
  counter_get (genre_loop json_loads c read_books) g
  = (counter_get c g
     + sum_list ((fun b => occurrences g (firstn 3 (genres_of json_loads b))) <$> read_books))%nat.
Proof.
  revert c. induction read_books as [|b bs IH]; intros c; simpl.
  - lia.
  - unfold genre_loop in *. simpl. rewrite IH, count_genres_get.
    symmetry. apply Nat.add_assoc.
Qed.

Lemma genre_loop_NoDup (read_books : list Book) (c : list (string * nat)) :
  NoDup c.*1 -> NoDup (genre_loop json_loads c read_books).*1.
Proof.
  revert c. induction read_books as [|b bs IH]; intros c Hc; simpl; [done|].
  apply IH. by apply count_genres_NoDup.
Qed.

Lemma genre_loop_positive (read_books : list Book) (c : list (string * nat)) :
  Forall (fun e => 0 < e.2)%nat c -> Forall (fun e => 0 < e.2)%nat (genre_loop json_loads c read_books).
Proof.
  revert c. induction read_books as [|b bs IH]; intros c Hc; simpl; [done|].
  apply IH. by apply count_genres_positive.
Qed.

Lemma occurrences_positive (g : string) (gs : list string) :
  (0 < occurrences g gs)%nat -> g ∈ gs.
Proof.
  unfold occurrences. induction gs as [|g0 gs IH]; simpl; [lia|].
  destruct (String.eqb_spec g g0) as [-> | Hne]; [intros _; by left|].
  intros H. right. by apply IH.
Qed.

Lemma sum_list_positive {A} (f : A -> nat) (l : list A) :
  (0 < sum_list (f <$> l))%nat -> exists x, x ∈ l /\ (0 < f x)%nat.
Proof.
  induction l as [|x l IH]; simpl; [lia|].
  destruct (f x) as [|n] eqn:Hfx.
  - simpl. intros H. destruct (IH H) as (y & Hy & Hpos). exists y. split; [by right | done].
  - intros _. exists x. split; [by left | lia].
Qed.

Lemma filter_length_split {A} (p : A -> bool) (l : list A) :
  (length (List.filter p l) + length (List.filter (fun x => negb (p x)) l))%nat = length l.
Proof.
  induction l as [|x l IH]; simpl; [done|].
  destruct (p x); simpl; lia.
Qed.

(** C8: for every rule set and every input list, the shelf counts of the
    recomputed analytics add up to the number of surviving records, and a
    count of the genre breakdown counts surviving read records only: it is
    the number of times the genre stands among the first three genres of a
    record that passed the filter. *)
Theorem recompute_consistency (exclusions : Config) (books : list Book) :
  let filtered := filtered_books exclusions books in
  let analytics := recalculate_analytics json_loads filtered in
  run_exclusions json_loads exclusions books
    = (filtered, excluded_books exclusions books, analytics)
  /\ sum_list (shelf_summary analytics).*2 = length filtered
  /\ (forall b, b ∈ filtered <-> b ∈ books /\ (should_exclude b exclusions).1 = false)
  /\ (forall g c, (g, c) ∈ genre_breakdown analytics ->
        c = genre_occurrences json_loads g filtered
        /\ exists b, b ∈ filtered /\ is_read b = true
                     /\ g ∈ firstn 3 (genres_of json_loads b)).
Proof.
  cbv zeta. split; [reflexivity|]. split; [|split].
  - simpl. rewrite Nat.add_0_r. apply filter_length_split.
  - intros b. unfold filtered_books. rewrite filter_elem_of, negb_true_iff. tauto.
  - intros g c Hin. simpl in Hin. apply most_common_elem in Hin.
    set (filtered := filtered_books exclusions books) in *.
    unfold genre_counter in Hin.
    assert (Hget : counter_get (genre_loop json_loads [] (List.filter is_read filtered)) g = c).
    { apply counter_get_elem; [|done]. apply genre_loop_NoDup. constructor. }
    rewrite genre_loop_get in Hget. simpl in Hget.
    assert (Hpos : (0 < c)%nat).
    { assert (H := genre_loop_positive (List.filter is_read filtered) [] (Forall_nil_2 _)).
      rewrite Forall_forall in H. apply (H (g, c)). done. }
    split; [symmetry; exact Hget|].
    rewrite <- Hget in Hpos. apply sum_list_positive in Hpos as (b & Hb & Hocc).
    apply filter_elem_of in Hb as [Hb Hread].
    exists b. split; [done|]. split; [done|]. by apply occurrences_positive.
Qed.

End GenreCounter.

Lemma recompute_consistency_witness :
  let shelf := [ {| bk_id := Some "a"; bk_title := Some "Dune"; bk_author := Some "Frank Herbert";
                    bk_is_read := Some true; bk_date_read := Some "2020/01/05";
                    bk_my_rating := Some 5%Z;
                    bk_genres := Some (GenresList ["Science Fiction"; "Classics"]);
                    bk_description := None |};
                 {| bk_id := Some "b"; bk_title := Some "Emma"; bk_author := Some "Jane Austen";
                    bk_is_read := Some true; bk_date_read := Some "2021/03/09";
                    bk_my_rating := Some 1%Z;
                    bk_genres := Some (GenresList ["Classics"; "Romance"]);
                    bk_description := None |};
                 {| bk_id := Some "c"; bk_title := Some "Ulysses"; bk_author := Some "James Joyce";
                    bk_is_read := Some false; bk_date_read := None; bk_my_rating := None;
                    bk_genres := Some (GenresList ["Classics"]);
                    bk_description := None |} ] in
  genre_breakdown (recalculate_analytics (fun _ => None) (filtered_books default_config shelf))
    = [("Science Fiction", 1); ("Classics", 1)]
  /\ 1 = genre_occurrences (fun _ => None) "Classics" (filtered_books default_config shelf).
Proof.
  cbv zeta. split; [vm_compute; reflexivity|].
  match goal with
  | |- _ = genre_occurrences _ _ (filtered_books _ ?shelf) =>
      destruct (recompute_consistency (fun _ => None) default_config shelf)
        as (_ & _ & _ & Hgenres)
  end.
  apply Hgenres. vm_compute. apply list_elem_of_In. simpl. right. left. reflexivity.
Defined.

End AnalyticsFacts.

(** ** Enrichment loop *)

Module EnrichFacts.
Import Text Re Normalizer Frames Enrich Samples.

Section LoopFacts.
Variable W : Type.
Variable now_iso_io : W -> W * string.
Variable google_lookup_io : W -> string -> W * (string + option GoogleInfo).
Variable openlibrary_lookup_io : W -> string -> W * (string + option OpenLibraryInfo).
Variable url_exists_io : W -> string -> W * bool.
Variable save_cache_io : W -> gmap string Payload -> W * option string.
Variable sleep_io : W -> W.

Abbreviation St := (State W).
Abbreviation enrich := (enrich_one W now_iso_io google_lookup_io openlibrary_lookup_io url_exists_io).
Abbreviation process :=
  (process_row W now_iso_io google_lookup_io openlibrary_lookup_io url_exists_io
     save_cache_io sleep_io).
Abbreviation run :=
  (run_queue W now_iso_io google_lookup_io openlibrary_lookup_io url_exists_io
     save_cache_io sleep_io).

(** A lookup, failed or not, leaves both dictionaries alone. *)
Lemma enrich_one_dicts (isbn : string) (st : St) :
  cache W (enrich isbn st).1 = cache W st /\ results W (enrich isbn st).1 = results W st.
Proof.
  unfold enrich_one, bind, now_iso, google_lookup, openlibrary_lookup, url_exists, ret, acted.
  simpl.
  repeat match goal with
         | |- context [now_iso_io ?w] => destruct (now_iso_io w) as [? ?]; simpl
         | |- context [google_lookup_io ?w ?i] =>
             destruct (google_lookup_io w i) as [? [?|?]]; simpl; [done|]
         | |- context [openlibrary_lookup_io ?w ?i] =>
             destruct (openlibrary_lookup_io w i) as [? [?|?]]; simpl; [done|]
         | |- context [url_exists_io ?w ?u] => destruct (url_exists_io w u) as [? ?]; simpl
         | |- context [if ?c then _ else _] => destruct c; simpl
         | |- context [match ?x with Some _ => _ | None => _ end] => destruct x; simpl
         end; done.
Qed.

Lemma process_row_returns (row : QueueRow) (st : St) :
  exists st', process row st = (st', inr tt).
Proof.
  unfold process_row. destruct (is_empty _) eqn:Hisbn; [by eexists|].
  unfold bind at 1. unfold get_cache at 1.
  destruct (cache W st !! _) as [hit|] eqn:Hhit.
  - by eexists.
  - unfold bind at 1, try_except.
    unfold bind at 1.
    destruct (enrich _ st) as [st1 [e|enriched]].
    + unfold bind, now_iso, set_result, sleep. simpl.
      destruct (now_iso_io _) as [w t]. simpl. by eexists.
    + unfold bind, set_cache, set_result, save_cache, sleep, now_iso. simpl.
      destruct (save_cache_io _ _) as [w [e|]]; simpl.
      * destruct (now_iso_io _) as [w' t]. simpl. by eexists.
      * by eexists.
Qed.

Lemma run_queue_returns (rows : list QueueRow) (st : St) :
  exists st', run rows st = (st', inr tt).
Proof.
  revert st. induction rows as [|row rows IH]; intros st; simpl.
  - by eexists.
  - unfold bind. destruct (process_row_returns row st) as [st1 ->]. apply IH.
Qed.

Lemma run_queue_app (pre post : list QueueRow) (st : St) :
  run (pre ++ post)%list st = run post (run pre st).1.
Proof.
  revert st. induction pre as [|row pre IH]; intros st; simpl; [done|].
  unfold bind. destruct (process_row_returns row st) as [st1 ->]. apply IH.
Qed.

(** C9: a lookup that raises makes [enrich_one] raise with the same
    message.  A failure of [enrich_one] for one row of the queue is caught
    and recorded under that row's [book_key] as a payload that holds the
    cleaned ISBN, the message of the exception as its error and the time
    of the handler as its time stamp, and nothing else; the cache stays as
    it is, and the loop goes on with the rows that remain: the run as a
    whole never stops with an exception.  A row whose ISBN is in the cache
    is answered from the cache and nothing is done to the outside world. *)
Theorem enrichment_loop_isolates_failures :
  (forall rows st, exists st', run rows st = (st', inr tt))
  /\ (forall pre row post st,
        run (pre ++ row :: post)%list st
        = run post (process row (run pre st).1).1)
  /\ (forall isbn st message,
        (google_lookup_io (now_iso_io (world W st)).1 (clean_isbn (Some isbn))).2
        = inl message ->
        (enrich isbn st).2 = inl message)
  /\ (forall isbn st found message,
        (google_lookup_io (now_iso_io (world W st)).1 (clean_isbn (Some isbn))).2
        = inr found ->
        (openlibrary_lookup_io
           (google_lookup_io (now_iso_io (world W st)).1 (clean_isbn (Some isbn))).1
           (clean_isbn (Some isbn))).2 = inl message ->
        (enrich isbn st).2 = inl message)
  /\ (forall row st st1 message,
        let book_key := get_or "" (q_book_key row) in
        let isbn := clean_isbn (Some (get_or "" (q_isbn row))) in
        isbn <> "" ->
        cache W st !! isbn = None ->
        enrich isbn st = (st1, inl message) ->
        exists st2,
          process row st = (st2, inr tt)
          /\ results W st2
             = <[book_key := {| p_isbn := Some isbn;
                                p_fetched_at := Some (now_iso_io (world W st1)).2;
                                p_google := None;
                                p_openlibrary := None;
                                p_description := None;
                                p_description_source := None;
                                p_categories_raw := None;
                                p_subjects_raw := None;
                                p_cover_image_url := None;
                                p_cover_source := None;
                                p_error := Some message |}]>
                 (results W st)
          /\ cache W st2 = cache W st)
  /\ (forall row st hit,
        let book_key := get_or "" (q_book_key row) in
        let isbn := clean_isbn (Some (get_or "" (q_isbn row))) in
        isbn <> "" ->
        cache W st !! isbn = Some hit ->
        process row st
        = ({| world := world W st; trace := trace W st; cache := cache W st;
              results := <[book_key := hit]> (results W st) |}, inr tt)).
Proof.
  split; [exact run_queue_returns|]. split; [|split; [|split; [|split]]].
  - intros pre row post st. rewrite run_queue_app. simpl. unfold bind.
    destruct (process_row_returns row (run pre st).1) as [st1 ->]. reflexivity.
  - intros isbn st message.
    unfold enrich_one, bind, now_iso, google_lookup, acted. simpl.
    destruct (now_iso_io (world W st)) as [w t]. simpl.
    destruct (google_lookup_io w _) as [w' r]. simpl. by intros ->.
  - intros isbn st found message.
    unfold enrich_one, bind, now_iso, google_lookup, openlibrary_lookup, acted. simpl.
    destruct (now_iso_io (world W st)) as [w t]. simpl.
    destruct (google_lookup_io w _) as [w' r]. simpl. intros ->.
    destruct (openlibrary_lookup_io w' _) as [w'' r']. simpl. by intros ->.
  - intros row st st1 message book_key isbn Hisbn Hmiss Hfail.
    unfold process_row. fold isbn. fold book_key.
    destruct (is_empty isbn) eqn:Hempty; [destruct isbn; simpl in *; congruence|].
    unfold bind at 1. unfold get_cache at 1. rewrite Hmiss.
    unfold bind at 1, try_except. unfold bind at 1. rewrite Hfail.
    unfold bind, now_iso, set_result, sleep. simpl.
    destruct (now_iso_io (world W st1)) as [w t]. simpl.
    destruct (enrich_one_dicts isbn st) as [Hc Hr]. rewrite Hfail in Hc, Hr. simpl in *.
    eexists. split; [reflexivity|]. simpl. by rewrite Hc, Hr.
  - intros row st hit book_key isbn Hisbn Hhit.
    unfold process_row. fold isbn. fold book_key.
    destruct (is_empty isbn) eqn:Hempty; [destruct isbn; simpl in *; congruence|].
    unfold bind, get_cache. rewrite Hhit. reflexivity.
Qed.

End LoopFacts.

Lemma enrichment_loop_isolates_failures_witness :
  (exists st', sample_run sample_queue sample_start = (st', inr tt))
  /\ (exists st2,
        process_row nat tick_now flaky_google empty_openlibrary no_cover disk_ok S
          {| q_book_key := Some "isbn:9780441172719"; q_isbn := Some "9780441172719" |}
          sample_start = (st2, inr tt)
        /\ p_error <$> results nat st2 !! "isbn:9780441172719" = Some (Some "timeout")
        /\ p_fetched_at <$> results nat st2 !! "isbn:9780441172719"
           = Some (Some "2024-01-01T00:00:00+00:00")
        /\ cache nat st2 = cache nat sample_start)
  /\ results nat (sample_run sample_queue sample_start).1
     = {[ "isbn:9780441172719" :=
            {| p_isbn := Some "9780441172719";
               p_fetched_at := Some "2024-01-01T00:00:00+00:00";
               p_google := None;
               p_openlibrary := None;
               p_description := None;
               p_description_source := None;
               p_categories_raw := None;
               p_subjects_raw := None;
               p_cover_image_url := None;
               p_cover_source := None;
               p_error := Some "timeout" |};
          "isbn:9780439708180" := cached_potter ]}
  /\ trace nat (sample_run sample_queue sample_start).1
     = [EvNow; EvGoogle "9780441172719"; EvNow; EvSleep].
Proof.
  split; [|split].
  - apply (enrichment_loop_isolates_failures nat tick_now flaky_google empty_openlibrary
             no_cover disk_ok S).
  - destruct (enrichment_loop_isolates_failures nat tick_now flaky_google empty_openlibrary
                no_cover disk_ok S) as (_ & _ & _ & _ & Hfail & _).
    destruct (Hfail {| q_book_key := Some "isbn:9780441172719";
                       q_isbn := Some "9780441172719" |}
                sample_start
                (enrich_one nat tick_now flaky_google empty_openlibrary no_cover
                   "9780441172719" sample_start).1
                "timeout") as (st2 & Hrun & Hresults & Hcache).
    + vm_compute. discriminate.
    + vm_compute. reflexivity.
    + vm_compute. reflexivity.
    + exists st2. split; [exact Hrun|]. rewrite Hresults.
      split; [by rewrite lookup_insert_eq|]. split; [|exact Hcache].
      rewrite lookup_insert_eq. vm_compute. reflexivity.
  - split; vm_compute; reflexivity.
Defined.

End EnrichFacts.

(** ** Multi-Pass Matcher and merge-back *)

Module MatcherFacts.
Import Text Re Shapes Normalizer Identity Frames Matcher Enrich Samples.
Import TextFacts ReFacts.

(** C6 (the code departs from the claim): a primary record without ISBN
    whose normalized (title, author) pair is that of a corpus record is
    not backfilled.  The gate of the fallback looks the raw title and
    author up in the set of normalized pairs, and the lookup key lowers the
    author while the dictionary key does not; the fallback only succeeds
    when title and author are in lower case already. *)
Theorem pass2_misses_normalized_match :
  gr_isbn13_clean dune_goodreads = None
  /\ is_english dune_kaggle && has_min_ratings dune_kaggle = true
  /\ (gr_title_norm dune_goodreads, gr_author_norm dune_goodreads)
     = (kg_title_norm dune_kaggle, kg_author_norm dune_kaggle)
  /\ find_kaggle_match [dune_goodreads] [dune_kaggle] (gr_record plain_digest dune_goodreads)
     = None
  /\ backfill_row [dune_goodreads] [dune_kaggle] (gr_record plain_digest dune_goodreads)
     = gr_record plain_digest dune_goodreads
  /\ description_raw (gr_record plain_digest dune_goodreads) = Some ""
  /\ find_kaggle_match [dune_goodreads_lower] [dune_kaggle_lower]
       (gr_record plain_digest dune_goodreads_lower)
     = Some dune_kaggle_lower.
Proof. repeat split; vm_compute; reflexivity. Qed.

Lemma normalize_text_lower_fixed (c : cell) : lower_fixed (normalize_text c) = true.
Proof.
  destruct c as [t|]; [|done]. unfold normalize_text.
  apply re_sub_go_sall; [done|]. apply sall_strip, lower_is_fixed.
Qed.

(** The extent of the slip: whatever the two collections, a record
    without ISBN whose raw title has a capital letter gets no match, as no
    normalized title has one. *)
Lemma pass2_skips_capitalised_titles (goodreads : list GoodreadsRow) (kaggle : list KaggleRow)
    (row : BookRecord) (t : string) :
  isbn13 row = None -> title row = Some t -> lower t <> t ->
  find_kaggle_match goodreads kaggle row = None.
Proof.
  intros Hisbn Htitle Hcapital. unfold find_kaggle_match, raw_pair_known.
  rewrite Hisbn, Htitle. simpl.
  destruct (author row) as [a|]; [|done].
  case_bool_decide as Hin; [|done]. exfalso. apply Hcapital.
  unfold goodreads_titles_authors in Hin.
  apply elem_of_list_to_set, list_elem_of_fmap in Hin as (g & [= -> _] & _).
  apply lower_fixed_id, normalize_text_lower_fixed.
Qed.

Lemma strip_empty_length (s : string) : String.length (strip s) = 0 <-> strip s = "".
Proof. destruct (strip s); simpl; split; congruence. Qed.

(** C4, against the claim as worded: a description of 80 characters, the
    last three of them blanks, is populated and not shorter than the
    threshold, and a cover that holds one space is neither null nor empty;
    the enrichment merge overwrites both. *)
Lemma blank_cover_is_overwritten :
  is_read padded_book = true
  /\ populated (description_raw padded_book)
  /\ (80 <= String.length (fillna (description_raw padded_book)))%nat
  /\ populated (cover_image_url padded_book)
  /\ merge_results plain_dumps all_columns {[ "gr:234225" := long_payload ]} [padded_book]
     = Some [merge_back all_columns padded_book (Some (enriched_row plain_dumps long_payload))]
  /\ description_raw
       (merge_back all_columns padded_book (Some (enriched_row plain_dumps long_payload)))
     = p_description long_payload
  /\ description_raw
       (merge_back all_columns padded_book (Some (enriched_row plain_dumps long_payload)))
     <> description_raw padded_book
  /\ cover_image_url
       (merge_back all_columns padded_book (Some (enriched_row plain_dumps long_payload)))
     = p_cover_image_url long_payload
  /\ cover_image_url
       (merge_back all_columns padded_book (Some (enriched_row plain_dumps long_payload)))
     <> cover_image_url padded_book.
Proof.
  split; [reflexivity|]. split.
  { eexists. split; [reflexivity | discriminate]. }
  split; [vm_compute; lia|]. split.
  { exists " ". split; [reflexivity | discriminate]. }
  split; [vm_compute; reflexivity|].
  split; [vm_compute; reflexivity|].
  split; [vm_compute; discriminate|].
  split; [vm_compute; reflexivity|].
  vm_compute. discriminate.
Qed.

(** C4, as amended.  The records the Kaggle loop of [main] runs over are
    built with an empty description and cover, the genres of the empty
    list and no counts, and with the average rating of the export.  The
    body of the loop, on any record: without a match it changes nothing; it
    leaves an average rating that is not null, and a popularity score that
    is neither null nor zero together with the number of ratings; on a
    match it assigns description, genres and cover from the corpus row
    without a test, and the ratings where the guards let it; it never
    touches key, title, author or the reading columns.  The enrichment
    merge leaves a description whose trimmed length is at least 80 and a
    cover that is not blank; it overwrites a description that is missing by
    that measure with one of at least 80 characters, and a blank cover with
    one that is not empty; it never writes genres or ratings. *)
Theorem backfill_keeps_filled_fields
    (md5_hexdigest : string -> string) (g : GoodreadsRow)
    (row : BookRecord) (kaggle_match : option KaggleRow)
    (cols : Columns) (book : BookRecord) (enriched : option EnrichedRow) :
  let built := gr_record md5_hexdigest g in
  let row' := backfill row kaggle_match in
  let book' := merge_back cols book enriched in
  (description_raw built = Some "" /\ genres_list built = Some "[]"
   /\ cover_image_url built = Some "" /\ num_ratings built = None
   /\ popularity_score built = None /\ avg_rating built = gr_Average_Rating g)
  /\ ((kaggle_match = None -> row' = row)
      /\ (present (avg_rating row) -> avg_rating row' = avg_rating row)
      /\ (present (popularity_score row) -> is_zero (popularity_score row) = false ->
          popularity_score row' = popularity_score row /\ num_ratings row' = num_ratings row)
      /\ (forall k, kaggle_match = Some k ->
            description_raw row' = kg_description k
            /\ genres_list row' = kg_genres k
            /\ cover_image_url row' = kg_coverImg k
            /\ (avg_rating row = None -> avg_rating row' = kg_rating k)
            /\ (popularity_score row = None ->
                popularity_score row' = kg_numRatings k /\ num_ratings row' = kg_numRatings k))
      /\ (book_key row' = book_key row /\ title row' = title row /\ author row' = author row
          /\ is_read row' = is_read row /\ my_rating row' = my_rating row
          /\ date_read row' = date_read row))
  /\ ((has_description_raw cols = true -> is_missing_desc (description_raw book) = false ->
       description_raw book' = description_raw book
       /\ description_source book'
          = column (has_description_source cols) (description_source book))
      /\ (has_cover_image_url cols = true -> filled (cover_image_url book) ->
          cover_image_url book' = cover_image_url book
          /\ cover_image_source book'
             = column (has_cover_image_source cols) (cover_image_source book))
      /\ (forall e, enriched = Some e ->
            is_missing_desc (column (has_description_raw cols) (description_raw book)) = true ->
            (80 <= String.length (fillna (description_new e)))%nat ->
            description_raw book' = description_new e
            /\ description_source book' = Some (fillna (description_source_new e)))
      /\ (forall e, enriched = Some e ->
            is_missing_cover (column (has_cover_image_url cols) (cover_image_url book)) = true ->
            (0 < String.length (fillna (cover_image_url_new e)))%nat ->
            cover_image_url book' = cover_image_url_new e
            /\ cover_image_source book' = Some (fillna (cover_source_new e)))
      /\ genres_list book' = genres_list book
      /\ avg_rating book' = avg_rating book
      /\ num_ratings book' = num_ratings book
      /\ popularity_score book' = popularity_score book).
Proof.
  cbv zeta. split; [by repeat split|]. split.
  - split; [by intros ->|]. split; [|split; [|split]].
    + intros Hrating. unfold present in Hrating.
      destruct kaggle_match as [k|]; simpl; [|done].
      by destruct (avg_rating row).
    + intros Hscore Hzero. unfold present in Hscore.
      destruct kaggle_match as [k|]; simpl; [|done].
      rewrite Hzero. by destruct (popularity_score row).
    + intros k ->. simpl. split; [done|]. split; [done|]. split; [done|].
      split; [by intros ->|]. by intros ->.
    + by destruct kaggle_match.
  - split; [|split; [|split; [|split]]].
    + intros Hcol Hdesc. unfold merge_back. simpl. rewrite Hcol. simpl.
      by rewrite Hdesc.
    + intros Hcol (s & Hs & Hblank). unfold merge_back. simpl. rewrite Hcol. simpl.
      assert (Hmiss : is_missing_cover (cover_image_url book) = false).
      { unfold is_missing_cover. rewrite Hs. simpl.
        apply Nat.eqb_neq. by rewrite strip_empty_length. }
      by rewrite Hmiss.
    + intros e -> Hmiss Hlong%Nat.leb_le. unfold merge_back. cbv zeta.
      cbn [description_raw description_source with_enrichment].
      by rewrite Hmiss, Hlong.
    + intros e -> Hmiss Hsome%Nat.ltb_lt. unfold merge_back. cbv zeta.
      cbn [cover_image_url cover_image_source with_enrichment].
      by rewrite Hmiss, Hsome.
    + by repeat split.
Qed.

Lemma backfill_keeps_filled_fields_witness :
  avg_rating (backfill (gr_record plain_digest dune_goodreads) (Some dune_kaggle))
    = Some (425 # 100)
  /\ description_raw (backfill (kaggle_record plain_digest dune_kaggle) (Some dune_kaggle_lower))
     = kg_description dune_kaggle_lower
  /\ cover_image_url
       (merge_back all_columns
          (backfill (gr_record plain_digest dune_goodreads) (Some dune_kaggle))
          (Some found_cover))
     = Some "https://example.org/dune.jpg"
  /\ description_raw (merge_back all_columns padded_book
                        (Some (enriched_row plain_dumps long_payload)))
     = p_description long_payload.
Proof.
  split; [|split; [|split]].
  - destruct (backfill_keeps_filled_fields plain_digest dune_goodreads
                (gr_record plain_digest dune_goodreads) (Some dune_kaggle)
                all_columns blank_cover_book None) as (_ & (_ & Hrating & _) & _).
    apply Hrating. discriminate.
  - destruct (backfill_keeps_filled_fields plain_digest dune_goodreads
                (kaggle_record plain_digest dune_kaggle) (Some dune_kaggle_lower)
                all_columns blank_cover_book None) as (_ & (_ & _ & _ & Hmatch & _) & _).
    exact (proj1 (Hmatch dune_kaggle_lower eq_refl)).
  - destruct (backfill_keeps_filled_fields plain_digest dune_goodreads
                (gr_record plain_digest dune_goodreads) None all_columns
                (backfill (gr_record plain_digest dune_goodreads) (Some dune_kaggle))
                (Some found_cover)) as (_ & _ & (_ & Hcover & _)).
    apply Hcover; [reflexivity|].
    exists "https://example.org/dune.jpg". split; [reflexivity | vm_compute; discriminate].
  - destruct (backfill_keeps_filled_fields plain_digest dune_goodreads
                (gr_record plain_digest dune_goodreads) None all_columns padded_book
                (Some (enriched_row plain_dumps long_payload)))
      as (_ & _ & (_ & _ & Hdesc & _)).
    apply (Hdesc (enriched_row plain_dumps long_payload) eq_refl).
    + vm_compute. reflexivity.
    + vm_compute. lia.
Defined.

End MatcherFacts.

(** * Further properties of the code *)

(** ** The cleaners and normalizers, in closed form *)

Module CleanerFacts.
Import Text Re Shapes Normalizer Samples TextFacts ReFacts NormalizerFacts.

Lemma sfilter_app (p : ascii -> bool) (s t : string) :
  sfilter p (s ++ t) = sfilter p s ++ sfilter p t.
Proof.
  induction s as [|c s IH]; [done|]. rewrite app_cons. simpl.
  destruct (p c); [by rewrite app_cons, IH | exact IH].
Qed.

Lemma sfilter_none (p : ascii -> bool) (s : string) :
  sall (fun c => negb (p c)) s = true -> sfilter p s = "".
Proof.
  induction s as [|c s IH]; [done|]. simpl.
  intros [Hc Hs]%andb_prop. apply negb_true_iff in Hc. rewrite Hc. by apply IH.
Qed.

Lemma sfilter_sfilter (p q : ascii -> bool) (s : string) :
  (forall c, p c = true -> q c = true) -> sfilter p (sfilter q s) = sfilter p s.
Proof.
  intros Hpq. induction s as [|c s IH]; [done|]. simpl.
  destruct (q c) eqn:Hq; simpl.
  - destruct (p c); by rewrite IH.
  - destruct (p c) eqn:Hp; [|done]. apply Hpq in Hp. congruence.
Qed.

Lemma sfilter_ext (p q : ascii -> bool) (s : string) :
  (forall c, p c = q c) -> sfilter p s = sfilter q s.
Proof. intros Hpq. induction s as [|c s IH]; [done|]. simpl. by rewrite Hpq, IH. Qed.

Lemma sfilter_lstrip (p : ascii -> bool) (s : string) :
  (forall c, is_space c = true -> p c = false) -> sfilter p (lstrip s) = sfilter p s.
Proof.
  intros Hp. unfold lstrip. induction s as [|c s IH]; [done|]. simpl.
  destruct (is_space c) eqn:Hc; [|done]. by rewrite (Hp c Hc).
Qed.

Lemma sfilter_rstrip (p : ascii -> bool) (s : string) :
  (forall c, is_space c = true -> p c = false) -> sfilter p (rstrip s) = sfilter p s.
Proof.
  intros Hp. induction s as [|c s IH]; [done|]. simpl.
  destruct (is_empty (rstrip s) && is_space c) eqn:Hc.
  - apply andb_prop in Hc as [Hempty Hspace]. rewrite (Hp c Hspace).
    rewrite <- IH. by destruct (rstrip s).
  - simpl. by rewrite IH.
Qed.

Lemma sfilter_strip (p : ascii -> bool) (s : string) :
  (forall c, is_space c = true -> p c = false) -> sfilter p (strip s) = sfilter p s.
Proof. intros Hp. unfold strip. by rewrite sfilter_rstrip, sfilter_lstrip. Qed.

Lemma length_smap (f : ascii -> ascii) (s : string) : String.length (smap f s) = String.length s.
Proof. induction s as [|c s IH]; [done|]. simpl. by rewrite IH. Qed.

Lemma length_slice_to (n : nat) (s : string) : (String.length (slice_to n s) <= n)%nat.
Proof.
  revert s. induction n as [|n IH]; intros s; [done|].
  destruct s as [|c s]; simpl; [lia|]. specialize (IH s). lia.
Qed.

Lemma kept_not_excel (c : ascii) :
  kept_char c = true -> negb (chr "=" c || chr dquote c || is_space c || chr "-" c) = true.
Proof. destruct c as [[] [] [] [] [] [] [] []]; vm_compute; congruence. Qed.

Lemma not_excel_solid (c : ascii) :
  negb (chr "=" c || chr dquote c || is_space c || chr "-" c) = true -> negb (is_space c) = true.
Proof. destruct c as [[] [] [] [] [] [] [] []]; vm_compute; congruence. Qed.

Lemma space_not_kept (c : ascii) : is_space c = true -> kept_char c = false.
Proof. destruct c as [[] [] [] [] [] [] [] []]; vm_compute; congruence. Qed.

Lemma clean_isbn_closed_form (x : string) :
  clean_isbn (Some x)
  = if (String.length (upper (sfilter kept_char x)) <? 10)%nat
    then None else Some (upper (sfilter kept_char x)).
Proof.
  unfold clean_isbn, re_excel, re_non_isbn. rewrite !re_sub_cls.
  rewrite strip_solid
    by (unfold free_of; eapply sall_impl; [apply not_excel_solid | apply sall_sfilter]).
  rewrite (sfilter_ext _ kept_char) by (intros c; apply negb_involutive).
  by rewrite sfilter_sfilter by apply kept_not_excel.
Qed.

(** X1: [clean_isbn] gives [None] for a missing value.  For a text it keeps the
    digits and the letters X and x, in their order and in upper case, and
    returns them when they are at least ten, [None] otherwise.  A result
    holds digits and X only and is as long as the kept characters, and two
    texts with the same kept characters have the same result. *)
Theorem clean_isbn_keeps_digits (v : string) :
  let digits := upper (sfilter kept_char v) in
  clean_isbn None = None
  /\ clean_isbn (Some v)
     = (if (String.length digits <? 10)%nat then None else Some digits)
  /\ (forall y, clean_isbn (Some v) = Some y ->
        sall isbn_char y = true
        /\ (10 <= String.length y)%nat
        /\ String.length y = String.length (sfilter kept_char v))
  /\ (forall w, sfilter kept_char w = sfilter kept_char v ->
        clean_isbn (Some w) = clean_isbn (Some v)).
Proof.
  cbv zeta. split; [done|]. split; [apply clean_isbn_closed_form|]. split.
  - intros y Hy. destruct (clean_isbn_alphabet v y Hy) as [Halpha Hlen].
    split; [done|]. split; [done|].
    rewrite clean_isbn_closed_form in Hy. destruct (_ <? 10)%nat; [done|].
    injection Hy as <-. apply length_smap.
  - intros w Hw. by rewrite !clean_isbn_closed_form, Hw.
Qed.

Lemma lstrip_rstrip (s : string) : lstrip (rstrip s) = rstrip (lstrip s).
Proof.
  unfold lstrip. induction s as [|c s IH]; [done|]. simpl.
  destruct (is_space c) eqn:Hc.
  - rewrite andb_true_r. destruct (is_empty (rstrip s)) eqn:Hempty.
    + rewrite <- IH. by destruct (rstrip s).
    + simpl. by rewrite Hc.
  - rewrite andb_false_r. simpl. by rewrite Hc, andb_false_r.
Qed.

Lemma lstrip_idem (s : string) : lstrip (lstrip s) = lstrip s.
Proof. apply starts_solid_lstrip, drop_while_solid. Qed.

Lemma strip_lstrip (s : string) : strip (lstrip s) = strip s.
Proof. unfold strip. by rewrite lstrip_idem. Qed.

Lemma strip_of_rstrip (s : string) : strip (rstrip s) = strip s.
Proof. unfold strip. by rewrite lstrip_rstrip, rstrip_idem. Qed.

Lemma collapse_empty (s : string) : re_sub re_spaces " " s = "" -> s = "".
Proof.
  unfold re_spaces. destruct s as [|c s]; [done|].
  destruct (is_space c) eqn:Hc; [by rewrite collapse_space | by rewrite collapse_solid].
Qed.

Lemma lstrip_empty_rstrip (s : string) : lstrip s = "" -> rstrip s = "".
Proof. intros H. apply rstrip_blank. by apply drop_while_empty_all. Qed.

(** Collapsing runs of whitespace and trimming on the right commute. *)
Lemma rstrip_collapse_upto (n : nat) (s : string) :
  (String.length s <= n)%nat ->
  rstrip (re_sub re_spaces " " s) = re_sub re_spaces " " (rstrip s).
Proof.
  unfold re_spaces. revert s. induction n as [|n IH]; intros s Hn.
  - destruct s; [done | simpl in Hn; lia].
  - destruct s as [|c s]; [done|]. simpl in Hn.
    destruct (is_space c) eqn:Hc.
    + rewrite collapse_space by done. cbn [rstrip]. rewrite Hc, !andb_true_r.
      assert (Hd : (String.length (drop_while is_space s) <= n)%nat).
      { pose proof (is_suffix_length _ _ (drop_while_suffix is_space s)). lia. }
      rewrite (IH _ Hd). change (is_space " ") with true. rewrite ?andb_true_r.
      fold (lstrip s). rewrite <- lstrip_rstrip.
      destruct (rstrip s) as [|c' s'] eqn:Hr.
      * reflexivity.
      * destruct (re_sub (Plus is_space) " " (lstrip (String c' s'))) eqn:Hcol.
        -- apply (collapse_empty (lstrip (String c' s'))) in Hcol.
           apply lstrip_empty_rstrip in Hcol.
           rewrite <- Hr, rstrip_idem, Hr in Hcol. discriminate.
        -- simpl is_empty. cbv iota. rewrite collapse_space by done.
           unfold lstrip in Hcol. by rewrite Hcol.
    + rewrite collapse_solid by done. cbn [rstrip]. rewrite Hc, !andb_false_r.
      rewrite (IH s ltac:(lia)). by rewrite collapse_solid.
Qed.

Lemma rstrip_collapse (s : string) :
  rstrip (re_sub re_spaces " " s) = re_sub re_spaces " " (rstrip s).
Proof. by apply (rstrip_collapse_upto (String.length s)). Qed.

Lemma collapse_starts_solid (s : string) :
  starts_solid s = true -> starts_solid (re_sub re_spaces " " s) = true.
Proof. apply (collapse_is_collapsed_upto (String.length s)). done. Qed.

(** Collapsing a trimmed text leaves it trimmed. *)
Lemma strip_collapse (s : string) :
  strip s = s -> strip (re_sub re_spaces " " s) = re_sub re_spaces " " s.
Proof.
  intros Hs. unfold strip. rewrite starts_solid_lstrip.
  - by rewrite rstrip_collapse, (strip_rstrip s Hs).
  - apply collapse_starts_solid. rewrite <- Hs. unfold strip.
    apply rstrip_starts_solid, drop_while_solid.
Qed.

(** X2: [normalize_text] maps a missing value to the empty text.  Its result is
    in lower case, has no whitespace at either end and no whitespace other
    than single spaces, and [normalize_text] maps it to itself. *)
Theorem normalize_text_settles (text : cell) :
  let y := normalize_text text in
  normalize_text None = ""
  /\ lower y = y
  /\ strip y = y
  /\ collapsed y = true
  /\ normalize_text (Some y) = y.
Proof.
  cbv zeta. split; [done|].
  assert (Hshape : lower (normalize_text text) = normalize_text text
                   /\ strip (normalize_text text) = normalize_text text
                   /\ collapsed (normalize_text text) = true).
  { destruct text as [t|]; [|done]. unfold normalize_text. split; [|split].
    - apply lower_fixed_id. apply re_sub_go_sall; [done|]. apply sall_strip, lower_is_fixed.
    - apply strip_collapse, strip_idem.
    - apply collapse_is_collapsed. }
  destruct Hshape as (Hlow & Hstrip & Hcol).
  split; [done|]. split; [done|]. split; [done|].
  unfold normalize_text at 1. rewrite Hlow, Hstrip.
  by apply collapse_collapsed.
Qed.

(** *** The author normalizer around its comma *)

Lemma drop_while_before (p : ascii -> bool) (s : string) (c : ascii) (v : string) :
  p c = false -> drop_while p (s ++ String c v) = drop_while p s ++ String c v.
Proof.
  intros Hc. induction s as [|a s IH].
  - rewrite !app_nil_l. simpl. by rewrite Hc.
  - rewrite app_cons. simpl. destruct (p a); [exact IH | by rewrite app_cons].
Qed.

Lemma rstrip_behind (u : string) (c : ascii) (v : string) :
  is_space c = false -> rstrip (u ++ String c v) = u ++ String c (rstrip v).
Proof.
  intros Hc. induction u as [|a u IH].
  - rewrite !app_nil_l. simpl. by rewrite Hc, andb_false_r.
  - rewrite !app_cons. simpl. rewrite IH. by destruct u.
Qed.

Lemma strip_around (l : string) (c : ascii) (f : string) :
  is_space c = false -> strip (l ++ String c f) = lstrip l ++ String c (rstrip f).
Proof.
  intros Hc. unfold strip, lstrip. rewrite drop_while_before by done.
  by apply rstrip_behind.
Qed.

Lemma split_once_first (a : ascii) (u r : string) :
  free_of (chr a) u = true -> split_once a (u ++ String a r) = Some (u, r).
Proof.
  unfold free_of, chr. induction u as [|c u IH].
  - intros _. rewrite app_nil_l. simpl. by rewrite Ascii.eqb_refl.
  - rewrite app_cons. simpl. intros [Hc Hu]%andb_prop.
    apply negb_true_iff in Hc. rewrite Hc. by rewrite (IH Hu).
Qed.

Lemma contains_app_chr (a : ascii) (u r : string) : contains a (u ++ String a r) = true.
Proof.
  unfold contains, not_chr. apply negb_true_iff. rewrite sall_app. simpl.
  by rewrite Ascii.eqb_refl, andb_false_r.
Qed.

Lemma free_of_lstrip (p : ascii -> bool) (s : string) :
  free_of p s = true -> free_of p (lstrip s) = true.
Proof. unfold free_of, lstrip. apply sall_suffix, drop_while_suffix. Qed.

(** X3: [normalize_author] maps a missing value to the empty text and trims a
    name without comma.  A name with a comma is cut at its first comma:
    the result is what follows the comma, trimmed, a space, and what
    precedes it, trimmed; further commas stay in the part moved to the
    front. *)
Theorem normalize_author_swaps_at_comma (l f : string) :
  contains "," l = false ->
  normalize_author None = ""
  /\ normalize_author (Some l) = strip l
  /\ normalize_author (Some (l ++ String "," f)) = strip f ++ " " ++ strip l.
Proof.
  intros Hl. split; [done|]. split.
  - unfold normalize_author.
    assert (Hstrip : contains "," (strip l) = false).
    { apply contains_free. by apply sall_strip, contains_free. }
    by rewrite Hstrip.
  - unfold normalize_author. rewrite strip_around by done.
    rewrite contains_app_chr.
    rewrite split_once_first by (by apply free_of_lstrip, contains_free).
    by rewrite strip_lstrip, strip_of_rstrip.
Qed.

Lemma normalize_author_swaps_at_comma_witness :
  normalize_author (Some "King, Stephen") = "Stephen King".
Proof.
  apply (normalize_author_swaps_at_comma "King" " Stephen"). reflexivity.
Defined.

End CleanerFacts.

(** ** From the queue into the enrichment loop *)

Module QueueFacts.
Import Text Re Shapes Normalizer Frames Enrich Queue Samples Cases.
Import TextFacts ReFacts NormalizerFacts CleanerFacts.

Lemma strip_prefix_spec (l s t : string) : strip_prefix l s = Some t -> s = l ++ t.
Proof.
  revert s. induction l as [|a l IH]; intros s; simpl.
  - by intros [= ->].
  - destruct s as [|c s]; [done|]. destruct (Ascii.eqb_spec a c) as [<- | Hne]; [|done].
    intros H. by rewrite app_cons, <- (IH s H).
Qed.

Lemma lit_match_at (l s : string) : match_at (Lit l) s = strip_prefix l s.
Proof. unfold match_at. rewrite lit_match. by destruct (strip_prefix l s). Qed.

(** Taking out a literal that holds none of the characters of a class
    leaves the characters of the class as they are. *)
Lemma sfilter_replace_upto (p : ascii -> bool) (old : string) (n : nat) (s : string) :
  old <> "" -> sall (fun c => negb (p c)) old = true ->
  (String.length s <= n)%nat ->
  sfilter p (replace old "" s) = sfilter p s.
Proof.
  intros Hold Hnone. unfold replace. revert s. induction n as [|n IH]; intros s Hn.
  - destruct s; [|simpl in Hn; lia].
    unfold re_sub. simpl. rewrite lit_match_at. destruct old; [done | done].
  - destruct s as [|c s].
    { unfold re_sub. simpl. rewrite lit_match_at. destruct old; [done | done]. }
    simpl in Hn. destruct (match_at (Lit old) (String c s)) as [rest|] eqn:Hm.
    + rewrite lit_match_at in Hm. apply strip_prefix_spec in Hm as Hparts.
      assert (Hlen : (String.length rest <= String.length s)%nat).
      { apply (f_equal String.length) in Hparts. rewrite length_app in Hparts.
        simpl in Hparts. destruct old; [done | simpl in Hparts; lia]. }
      rewrite (re_sub_step_match (Lit old) "" c s rest)
        by (by rewrite ?lit_match_at, ?Hm).
      rewrite app_nil_l, IH by lia.
      by rewrite Hparts, sfilter_app, (sfilter_none p old Hnone).
    + rewrite re_sub_step_none by done. simpl. by rewrite IH by lia.
Qed.

Lemma sfilter_replace (p : ascii -> bool) (old s : string) :
  old <> "" -> sall (fun c => negb (p c)) old = true ->
  sfilter p (replace old "" s) = sfilter p s.
Proof. intros H1 H2. by apply (sfilter_replace_upto p old (String.length s)). Qed.

Lemma isbn_is_kept (c : ascii) : isbn_char c = true -> kept_char c = true.
Proof. destruct c as [[] [] [] [] [] [] [] []]; vm_compute; congruence. Qed.

Lemma clean_isbn_form (o : option string) :
  Enrich.clean_isbn o = upper (sfilter kept_char (get_or "" o)).
Proof.
  unfold Enrich.clean_isbn. rewrite re_sub_cls. f_equal.
  rewrite (sfilter_ext _ kept_char) by (intros c; apply negb_involutive).
  rewrite !sfilter_replace by done.
  apply sfilter_strip, space_not_kept.
Qed.

Lemma clean_isbn_on_isbn (y : string) :
  sall isbn_char y = true -> Enrich.clean_isbn (Some y) = y.
Proof.
  intros Hy. rewrite clean_isbn_form. simpl.
  rewrite sfilter_id by (eapply sall_impl; [apply isbn_is_kept | done]).
  unfold upper. by apply (smap_id isbn_char); [apply upper_isbn_char|].
Qed.

Lemma clean_isbn_alphabet' (o : option string) : sall isbn_char (Enrich.clean_isbn o) = true.
Proof.
  rewrite clean_isbn_form. unfold upper.
  apply (sall_smap kept_char); [apply upper_kept | apply sall_sfilter].
Qed.

(** X16: [clean_isbn] of the enrichment script gives the empty text for a
    missing value, keeps the digits and the letters X and x in upper case,
    and is idempotent; where [clean_isbn] of the base script gives an
    ISBN, the enrichment script gives the same one, also when it cleans it
    again. *)
Theorem enrichment_isbn_cleaner_agrees :
  Enrich.clean_isbn None = ""
  /\ (forall o, Enrich.clean_isbn o = upper (sfilter kept_char (get_or "" o)))
  /\ (forall o, Enrich.clean_isbn (Some (Enrich.clean_isbn o)) = Enrich.clean_isbn o)
  /\ (forall v y, Normalizer.clean_isbn (Some v) = Some y ->
        Enrich.clean_isbn (Some v) = y /\ Enrich.clean_isbn (Some y) = y).
Proof.
  split; [done|]. split; [exact clean_isbn_form|]. split.
  - intros o. apply clean_isbn_on_isbn, clean_isbn_alphabet'.
  - intros v y Hy.
    destruct (clean_isbn_alphabet v y Hy) as [Hy1 _].
    split; [|by apply clean_isbn_on_isbn].
    rewrite clean_isbn_form. simpl. rewrite clean_isbn_closed_form in Hy.
    destruct (_ <? 10)%nat; [done|]. by injection Hy.
Qed.

Lemma enrichment_isbn_cleaner_agrees_witness :
  Enrich.clean_isbn (Some (String "=" (String dquote ("978-0441172719" ++ String dquote ""))))
  = "9780441172719".
Proof.
  destruct enrichment_isbn_cleaner_agrees as (_ & _ & _ & Hagree).
  apply (Hagree (String "=" (String dquote ("978-0441172719" ++ String dquote "")))).
  vm_compute. reflexivity.
Defined.

Section LoopSkips.
Variable W : Type.
Variable now_iso_io : W -> W * string.
Variable google_lookup_io : W -> string -> W * (string + option GoogleInfo).
Variable openlibrary_lookup_io : W -> string -> W * (string + option OpenLibraryInfo).
Variable url_exists_io : W -> string -> W * bool.
Variable save_cache_io : W -> gmap string Payload -> W * option string.
Variable sleep_io : W -> W.

Abbreviation St := (State W).
Abbreviation enrich := (enrich_one W now_iso_io google_lookup_io openlibrary_lookup_io url_exists_io).
Abbreviation process :=
  (process_row W now_iso_io google_lookup_io openlibrary_lookup_io url_exists_io
     save_cache_io sleep_io).
Abbreviation run :=
  (run_queue W now_iso_io google_lookup_io openlibrary_lookup_io url_exists_io
     save_cache_io sleep_io).

Lemma process_row_skips (row : QueueRow) (st : St) :
  has_isbn row = false -> process row st = (st, inr tt).
Proof.
  unfold has_isbn, process_row. intros H%negb_false_iff. by rewrite H.
Qed.

(** X19: A row of the queue whose ISBN is missing, empty or without any digit or
    X is passed over: the loop leaves the world, the cache and the results
    as they are.  The loop over a queue does what it does over the rows
    with an ISBN alone. *)
Theorem loop_passes_over_rows_without_isbn (rows : list QueueRow) (st : St) :
  (forall row, has_isbn row = false -> process row st = (st, inr tt))
  /\ (forall o, has_isbn {| q_book_key := o; q_isbn := None |} = false
                /\ has_isbn {| q_book_key := o; q_isbn := Some "" |} = false)
  /\ run (List.filter has_isbn rows) st = run rows st.
Proof.
  split; [intros row; apply process_row_skips|]. split; [done|].
  revert st. induction rows as [|row rows IH]; intros st; [done|]. simpl.
  destruct (has_isbn row) eqn:Hrow; simpl.
  - unfold bind. destruct (process row st) as [st1 [e|[]]]; [done | apply IH].
  - unfold bind. rewrite process_row_skips by done. apply IH.
Qed.

(** X20: When the lookup for a row succeeds, the payload is in the cache under
    the cleaned ISBN, also when saving the cache fails; in that case the
    result of the row is overwritten with an error payload.  A later row
    with the same cleaned ISBN gets the payload from the cache, and
    nothing is done to the outside world for it. *)
Theorem repeated_isbn_is_fetched_once (row1 row2 : QueueRow) (st st1 : St) (p : Payload) :
  let book_key1 := get_or "" (q_book_key row1) in
  let book_key2 := get_or "" (q_book_key row2) in
  let isbn := Enrich.clean_isbn (Some (get_or "" (q_isbn row1))) in
  Enrich.clean_isbn (Some (get_or "" (q_isbn row2))) = isbn ->
  isbn <> "" ->
  cache W st !! isbn = None ->
  enrich isbn st = (st1, inr p) ->
  exists st2,
    process row1 st = (st2, inr tt)
    /\ cache W st2 = <[isbn := p]> (cache W st)
    /\ match (save_cache_io (world W st1) (<[isbn := p]> (cache W st))).2 with
       | None => results W st2 = <[book_key1 := p]> (results W st)
       | Some e =>
           exists t, results W st2 = <[book_key1 := error_payload isbn e t]> (results W st)
       end
    /\ process row2 st2
       = ({| world := world W st2; trace := trace W st2; cache := cache W st2;
             results := <[book_key2 := p]> (results W st2) |}, inr tt).
Proof.
  intros book_key1 book_key2 isbn Hsame Hisbn Hmiss Hgot.
  assert (Hempty : is_empty isbn = false) by (destruct isbn; simpl in *; congruence).
  destruct (EnrichFacts.enrich_one_dicts W now_iso_io google_lookup_io openlibrary_lookup_io
              url_exists_io isbn st) as [Hc Hr].
  rewrite Hgot in Hc, Hr. simpl in Hc, Hr.
  assert (Hsecond : forall st2, cache W st2 = <[isbn := p]> (cache W st) ->
            process row2 st2
            = ({| world := world W st2; trace := trace W st2; cache := cache W st2;
                  results := <[book_key2 := p]> (results W st2) |}, inr tt)).
  { intros st2 Hcache. unfold process_row. rewrite Hsame. fold isbn. fold book_key2.
    assert (Hhit : cache W st2 !! isbn = Some p) by (by rewrite Hcache, lookup_insert_eq).
    rewrite Hempty. unfold bind, get_cache. by rewrite Hhit. }
  unfold process_row. fold isbn. fold book_key1. rewrite Hempty.
  unfold bind at 1. unfold get_cache at 1. rewrite Hmiss.
  unfold bind at 1, try_except. unfold bind at 1. rewrite Hgot.
  unfold bind, set_cache, set_result, save_cache, sleep, now_iso. simpl.
  rewrite Hc, Hr.
  destruct (save_cache_io (world W st1) (<[isbn:=p]> (cache W st))) as [w [e|]]; simpl.
  - destruct (now_iso_io w) as [w' t]. simpl.
    eexists. split; [reflexivity|]. simpl. split; [reflexivity|].
    split; [exists t; by rewrite insert_insert_eq|]. by apply Hsecond.
  - eexists. split; [reflexivity|]. simpl. split; [reflexivity|].
    split; [reflexivity|]. by apply Hsecond.
Qed.

End LoopSkips.

Lemma repeated_isbn_is_fetched_once_witness :
  exists st2,
    sample_process emma_row sample_start = (st2, inr tt)
    /\ cache nat st2 !! "9780141439587" = Some bare_payload
    /\ results nat (sample_process emma_reprint st2).1 !! "gr:1" = Some bare_payload.
Proof.
  destruct (repeated_isbn_is_fetched_once nat tick_now flaky_google empty_openlibrary
              no_cover disk_ok S emma_row emma_reprint sample_start
              (sample_lookup "9780141439587" sample_start).1
              bare_payload) as (st2 & Hrun & Hcache & _ & Hnext).
  - vm_compute. reflexivity.
  - vm_compute. discriminate.
  - vm_compute. reflexivity.
  - vm_compute. reflexivity.
  - exists st2. split; [exact Hrun|]. split.
    + rewrite Hcache. apply lookup_insert_eq.
    + unfold sample_process. rewrite Hnext. apply lookup_insert_eq.
Defined.

End QueueFacts.

(** ** Descriptions, genres and the embedding text *)

Module DescribeFacts.
Import Text Re Shapes Normalizer Frames Matcher Describe Samples.
Import TextFacts ReFacts NormalizerFacts CleanerFacts.

(** *** [infer_primary_genre] *)

Lemma prefix_nil (s : string) : String.prefix "" s = true.
Proof. by destruct s. Qed.

Lemma prefix_cons (a : ascii) (n : string) (c : ascii) (s : string) :
  String.prefix (String a n) (String c s) = if ascii_dec a c then String.prefix n s else false.
Proof. reflexivity. Qed.

Lemma prefix_self_app (n t : string) : String.prefix n (n ++ t) = true.
Proof.
  induction n as [|a n IH]; [apply prefix_nil|]. rewrite app_cons, prefix_cons.
  destruct (ascii_dec a a); [exact IH | done].
Qed.

Lemma prefix_split (n s : string) : String.prefix n s = true -> exists t, s = n ++ t.
Proof.
  revert s. induction n as [|a n IH]; intros s.
  - intros _. by exists s.
  - destruct s as [|c s]; [done|]. rewrite prefix_cons.
    destruct (ascii_dec a c) as [<- | Hne]; [|done].
    intros H. destruct (IH s H) as [t ->]. by exists t.
Qed.

Lemma has_substring_behind (n u t : string) : has_substring n (u ++ n ++ t) = true.
Proof.
  induction u as [|c u IH].
  - rewrite app_nil_l. pose proof (prefix_self_app n t) as H.
    destruct (n ++ t); cbn [has_substring]; by rewrite H.
  - rewrite app_cons. cbn [has_substring]. rewrite IH. apply orb_true_r.
Qed.

Lemma has_substring_split (n s : string) :
  has_substring n s = true -> exists u t, s = u ++ n ++ t.
Proof.
  induction s as [|c s IH]; cbn [has_substring].
  - rewrite orb_false_r. intros [t Ht]%prefix_split. by exists "", t.
  - intros [H | H]%orb_prop.
    + apply prefix_split in H as [t Ht]. by exists "", t.
    + destruct (IH H) as (u & t & ->). by exists (String c u), t.
Qed.

(** A text that holds [u ++ v] holds [v]. *)
Lemma has_substring_tail (u v s : string) :
  has_substring (u ++ v) s = true -> has_substring v s = true.
Proof.
  intros (a & b & ->)%has_substring_split.
  rewrite app_assoc, <- (app_assoc a u). apply has_substring_behind.
Qed.

(** X9: [infer_primary_genre] gives Unknown for the empty list, and Fiction for
    every list whose first genre contains the word fiction in any case.
    The map is read in its order and the entry for fiction comes first, so
    the categories Science Fiction and Nonfiction are never the result. *)
Theorem infer_primary_genre_takes_fiction_first (genres_list : list string) :
  infer_primary_genre [] = "Unknown"
  /\ (forall g rest, has_substring "fiction" (lower g) = true ->
        infer_primary_genre (g :: rest) = "Fiction")
  /\ infer_primary_genre genres_list <> "Science Fiction"
  /\ infer_primary_genre genres_list <> "Nonfiction".
Proof.
  split; [done|]. split.
  { intros g rest H. unfold infer_primary_genre. simpl. by rewrite H. }
  assert (Hsf : forall s, has_substring "fiction" s = false ->
                  has_substring "science fiction" s = false).
  { intros s H. destruct (has_substring "science fiction" s) eqn:H'; [|done].
    apply (has_substring_tail "science " "fiction") in H'. congruence. }
  assert (Hnf : forall s, has_substring "fiction" s = false ->
                  has_substring "nonfiction" s = false).
  { intros s H. destruct (has_substring "nonfiction" s) eqn:H'; [|done].
    apply (has_substring_tail "non" "fiction") in H'. congruence. }
  destruct genres_list as [|g0 rest]; [split; discriminate|].
  unfold infer_primary_genre. simpl.
  destruct (has_substring "fiction" (lower g0)) eqn:Hfiction; [split; discriminate|].
  rewrite (Hsf _ Hfiction), (Hnf _ Hfiction).
  repeat match goal with
         | |- context [if has_substring ?k ?s then _ else _] =>
             destruct (has_substring k s); [split; discriminate|]
         end.
  split; intros ->; vm_compute in Hfiction; discriminate.
Qed.

Lemma infer_primary_genre_takes_fiction_first_witness :
  infer_primary_genre ["Science Fiction"; "Space Opera"] = "Fiction".
Proof.
  apply (infer_primary_genre_takes_fiction_first []). vm_compute. reflexivity.
Defined.

(** *** [prepare_embedding_text] *)

(** X7: The text [prepare_embedding_text] builds is at most 2048 characters
    longer than title, author and genres together; it is empty exactly
    when title and author are empty texts and genres and description are
    empty; a description of more than 2000 characters enters as its first
    2000 characters and three dots, at the end of the text; a missing
    title is a NaN, which is true, and enters as [Title: nan]. *)
Theorem prepare_embedding_text_is_capped (title author : cell) (description genres : string) :
  let text := prepare_embedding_text title author description genres in
  (String.length text
   <= String.length (py_str title) + String.length (py_str author) + String.length genres
      + DESCRIPTION_EMBEDDING_MAX_CHARS + 48)%nat
  /\ (text = "" <-> cell_truth title = false /\ cell_truth author = false
                    /\ genres = "" /\ description = "")
  /\ ((DESCRIPTION_EMBEDDING_MAX_CHARS < String.length description)%nat ->
      exists before,
        text = before ++ "Description: "
                 ++ slice_to DESCRIPTION_EMBEDDING_MAX_CHARS description ++ "...")
  /\ (title = None -> exists rest, text = "Title: nan" ++ rest).
Proof.
  cbv zeta. unfold prepare_embedding_text, append.
  pose proof (length_slice_to DESCRIPTION_EMBEDDING_MAX_CHARS description) as Hcap.
  generalize dependent DESCRIPTION_EMBEDDING_MAX_CHARS. intros cap Hcap.
  split; [|split; [|split]].
  - destruct (cell_truth title), (cell_truth author), genres as [|g genres],
      description as [|d description];
      cbn [is_empty negb app join];
      try destruct (cap <? _)%nat eqn:Hlong;
      try apply Nat.ltb_ge in Hlong;
      rewrite ?length_app; cbn [String.length] in *; rewrite ?length_app;
      cbn [String.length] in *; lia.
  - split.
    + destruct (cell_truth title), (cell_truth author), genres as [|g genres],
        description as [|d description];
        cbn [is_empty negb app join]; rewrite ?app_cons; try discriminate; done.
    + intros (-> & -> & -> & ->). reflexivity.
  - intros Hlong. apply Nat.ltb_lt in Hlong as Hlong'. rewrite Hlong'.
    destruct description as [|d description]; [simpl in Hlong; lia|].
    cbn [is_empty negb].
    destruct (cell_truth title), (cell_truth author), genres as [|g genres];
      cbn [is_empty negb app join];
      [ exists ("Title: " ++ py_str title ++ " | " ++ "Author: " ++ py_str author ++ " | ")
      | exists ("Title: " ++ py_str title ++ " | " ++ "Author: " ++ py_str author ++ " | "
                ++ "Genres: " ++ String g genres ++ " | ")
      | exists ("Title: " ++ py_str title ++ " | ")
      | exists ("Title: " ++ py_str title ++ " | " ++ "Genres: " ++ String g genres ++ " | ")
      | exists ("Author: " ++ py_str author ++ " | ")
      | exists ("Author: " ++ py_str author ++ " | " ++ "Genres: " ++ String g genres ++ " | ")
      | exists ""
      | exists ("Genres: " ++ String g genres ++ " | ") ];
      by rewrite ?app_assoc.
  - intros ->. cbn [cell_truth py_str].
    destruct (cell_truth author), genres as [|g genres], description as [|d description];
      cbn [is_empty negb app join]; rewrite ?app_assoc; eexists; reflexivity.
Qed.

Lemma prepare_embedding_text_is_capped_witness :
  prepare_embedding_text None (Some "Frank Herbert") "" "Science Fiction, Classics"
  = "Title: nan | Author: Frank Herbert | Genres: Science Fiction, Classics".
Proof.
  destruct (prepare_embedding_text_is_capped None (Some "Frank Herbert") ""
              "Science Fiction, Classics") as (_ & _ & _ & Hnan).
  destruct (Hnan eq_refl) as [rest Hrest]. rewrite Hrest. clear Hnan.
  vm_compute in Hrest. injection Hrest as <-. reflexivity.
Defined.

(** *** [parse_genres] *)

Lemma split_on_single (a : ascii) (g : string) :
  free_of (chr a) g = true -> split_on a g = [g].
Proof.
  unfold free_of, chr. induction g as [|c g IH]; [done|]. simpl.
  intros [Hc Hg]%andb_prop. apply negb_true_iff in Hc. by rewrite Hc, (IH Hg).
Qed.

Lemma split_on_first (a : ascii) (g rest : string) :
  free_of (chr a) g = true -> split_on a (g ++ String a rest) = g :: split_on a rest.
Proof.
  unfold free_of, chr. induction g as [|c g IH].
  - intros _. rewrite app_nil_l. simpl. by rewrite Ascii.eqb_refl.
  - rewrite app_cons. simpl. intros [Hc Hg]%andb_prop.
    apply negb_true_iff in Hc. by rewrite Hc, (IH Hg).
Qed.

Lemma split_on_free (a : ascii) (s : string) :
  Forall (fun g => free_of (chr a) g = true) (split_on a s).
Proof.
  unfold free_of, chr. induction s as [|c s IH]; simpl.
  - by repeat constructor.
  - destruct (Ascii.eqb a c) eqn:Hc; [by constructor|].
    destruct (split_on a s) as [|h t]; [repeat constructor; simpl; by rewrite Hc|].
    inversion IH as [|? ? Hh Ht]; subst. constructor; [|done].
    simpl. by rewrite Hc, Hh.
Qed.

Lemma strip_fixed_solid (g : string) : strip g = g -> starts_solid g = true.
Proof.
  intros <-. unfold strip. apply rstrip_starts_solid, drop_while_solid.
Qed.

Lemma rstrip_tail (c : ascii) (s : string) :
  is_space c = false -> rstrip (String c s) = String c s -> rstrip s = s.
Proof. simpl. intros ->. rewrite andb_false_r. by intros [= ->]. Qed.

(** A list of trimmed names, joined: trimmed as a whole. *)
Lemma join_trimmed (l : list string) :
  Forall (fun g => g <> "" /\ strip g = g /\ contains "," g = false) l -> l <> [] ->
  join ", " l <> "" /\ starts_solid (join ", " l) = true
  /\ rstrip (join ", " l) = join ", " l.
Proof.
  induction l as [|g l IH]; [done|]. intros Hall _.
  inversion Hall as [|? ? (Hne & Hstrip & Hcomma) Hl]; subst.
  pose proof (strip_fixed_solid g Hstrip) as Hsolid.
  destruct l as [|g' l].
  - simpl. split; [done|]. split; [done|]. by apply strip_rstrip.
  - destruct (IH Hl ltac:(done)) as (Hne' & Hsolid' & Hfix').
    change (join ", " (g :: g' :: l)) with (g ++ ", " ++ join ", " (g' :: l)).
    split; [destruct g; [done | by rewrite app_cons]|].
    split; [destruct g; [done | by rewrite app_cons]|].
    destruct (join ", " (g' :: l)) as [|c j]; [done|].
    simpl in Hsolid'. apply negb_true_iff in Hsolid'.
    rewrite <- !app_assoc. rewrite rstrip_behind by done.
    by rewrite (rstrip_tail c j).
Qed.

Lemma split_joined (l : list string) (g : string) :
  Forall (fun g => g <> "" /\ strip g = g /\ contains "," g = false) (g :: l) ->
  split_on "," (join ", " (g :: l)) = g :: ((fun g' => " " ++ g') <$> l).
Proof.
  revert g. induction l as [|g' l IH]; intros g Hall;
    inversion Hall as [|? ? (Hne & Hstrip & Hcomma) Hl]; subst.
  - simpl. apply split_on_single. by apply contains_free.
  - change (join ", " (g :: g' :: l)) with (g ++ String "," (" " ++ join ", " (g' :: l))).
    rewrite split_on_first by (by apply contains_free).
    rewrite app_cons, app_nil_l. cbn [split_on]. change (Ascii.eqb "," " ") with false.
    cbv iota. by rewrite (IH g' Hl).
Qed.

Lemma strip_behind_space (g : string) : strip (" " ++ g) = strip g.
Proof. reflexivity. Qed.

Lemma kept_behind_space (l : list string) :
  Forall (fun g => g <> "" /\ strip g = g /\ contains "," g = false) l ->
  strip <$> List.filter (fun g => negb (is_empty (strip g))) ((fun g' => " " ++ g') <$> l) = l.
Proof.
  induction l as [|g l IH]; [done|]. intros Hall.
  inversion Hall as [|? ? (Hne & Hg & _) Hl]; subst.
  rewrite fmap_cons. cbn [List.filter]. rewrite strip_behind_space, Hg.
  destruct g as [|c g]; [by destruct Hne|]. cbn [is_empty negb].
  rewrite fmap_cons, strip_behind_space, Hg. f_equal. by apply IH.
Qed.

(** X8: [parse_genres] gives the empty list for a missing value, for the empty
    text, and for a text that starts with a bracket and that
    [ast.literal_eval] rejects.  For any other text every genre it
    returns is non-empty, trimmed and free of commas; and joining such
    genres with a comma and a space and parsing the result gives them
    back. *)
Theorem parse_genres_splits_on_commas (literal_eval : string -> option (list string))
    (s : string) :
  parse_genres literal_eval None = []
  /\ parse_genres literal_eval (Some "") = []
  /\ (starts_with "[" (strip s) = true -> literal_eval (strip s) = None ->
      parse_genres literal_eval (Some s) = [])
  /\ (starts_with "[" (strip s) = false ->
      Forall (fun g => g <> "" /\ strip g = g /\ contains "," g = false)
        (parse_genres literal_eval (Some s)))
  /\ (forall l,
        Forall (fun g => g <> "" /\ strip g = g /\ contains "," g = false) l ->
        starts_with "[" (join ", " l) = false ->
        parse_genres literal_eval (Some (join ", " l)) = l).
Proof.
  split; [done|]. split; [done|]. split; [|split].
  - intros Hlist Hraise. unfold parse_genres. by rewrite Hlist, Hraise.
  - intros Hplain. unfold parse_genres. rewrite Hplain.
    apply Forall_fmap, Forall_forall. intros g [Hg Hkeep]%filter_elem_of.
    simpl. split; [|split].
    + intros Hempty. by rewrite Hempty in Hkeep.
    + apply strip_idem.
    + apply contains_free. apply sall_strip.
      pose proof (split_on_free "," (strip s)) as Hfree.
      rewrite Forall_forall in Hfree. by apply Hfree.
  - intros l Hall Hplain. unfold parse_genres.
    destruct l as [|g l]; [done|].
    destruct (join_trimmed (g :: l) Hall ltac:(done)) as (_ & Hsolid & Hfix).
    assert (Hstrip : strip (join ", " (g :: l)) = join ", " (g :: l)).
    { unfold strip. by rewrite starts_solid_lstrip. }
    rewrite Hstrip, Hplain, split_joined by done.
    inversion Hall as [|? ? (Hne & Hg & _) Hl]; subst.
    cbn [List.filter]. rewrite Hg.
    destruct g as [|c g]; [by destruct Hne|]. cbn [is_empty negb].
    rewrite fmap_cons, Hg. f_equal. by apply kept_behind_space.
Qed.

Lemma parse_genres_splits_on_commas_witness :
  parse_genres (fun _ => None) (Some "Science Fiction, Classics")
  = ["Science Fiction"; "Classics"].
Proof.
  destruct (parse_genres_splits_on_commas (fun _ => None) "") as (_ & _ & _ & _ & Hround).
  apply (Hround ["Science Fiction"; "Classics"]); [|reflexivity].
  repeat constructor; done.
Defined.

(** *** [clean_description] *)

Lemma tag_match (s : string) :
  match_at re_tag s = if starts_tag s then Some (after_tag s) else None.
Proof.
  unfold match_at, starts_tag, after_tag.
  change re_tag with (Cat (Cls (chr "<")) (Cat (Plus (not_chr ">")) (Cls (chr ">")))).
  unfold Plus. cbn [rmatch].
  destruct s as [|c0 [|c1 s2]]; [done | by destruct (chr "<" c0) |].
  destruct (chr "<" c0); [|done]. cbn [andb].
  destruct (not_chr ">" c1); [|done]. cbn [andb].
  rewrite star_disjoint.
  - destruct (drop_while (not_chr ">") s2) as [|c3 s3] eqn:Hclose; [done|].
    pose proof (drop_while_head (not_chr ">") s2) as H. rewrite Hclose in H.
    unfold not_chr in H. unfold chr. apply negb_false_iff in H. by rewrite H.
  - intros c t Hc. unfold not_chr in Hc. unfold chr.
    by apply negb_true_iff in Hc as ->.
Qed.

Lemma after_tag_shorter (s : string) :
  starts_tag s = true -> (String.length (after_tag s) < String.length s)%nat.
Proof.
  unfold starts_tag, after_tag. destruct s as [|c0 [|c1 s2]]; try done.
  pose proof (is_suffix_length _ _ (drop_while_suffix (not_chr ">") s2)) as H2.
  destruct (drop_while (not_chr ">") s2) as [|c3 s3]; [by rewrite !andb_false_r|].
  intros _. simpl in *. lia.
Qed.

Lemma tag_sub_hit (s : string) :
  starts_tag s = true -> re_sub re_tag "" s = re_sub re_tag "" (after_tag s).
Proof.
  intros Hhit. pose proof (after_tag_shorter s Hhit) as Hlen.
  destruct s as [|c s]; [done|]. cbn [String.length] in Hlen.
  rewrite (re_sub_step_match re_tag "" c s (after_tag (String c s))).
  - by rewrite app_nil_l.
  - by rewrite tag_match, Hhit.
  - lia.
Qed.

Lemma tag_sub_miss (c : ascii) (s : string) :
  starts_tag (String c s) = false ->
  re_sub re_tag "" (String c s) = String c (re_sub re_tag "" s).
Proof. intros Hmiss. apply re_sub_step_none. by rewrite tag_match, Hmiss. Qed.

Section KeepsTags.
(** A replacement that leaves a closing angle at the head where it is and
    brings no closing angle in. *)
Variable r : regex.
Variable repl : string.
Hypothesis no_empty_match : match_at r "" = None.
Hypothesis no_match_at_close : forall t, match_at r (String ">" t) = None.
Hypothesis repl_no_close : sall (not_chr ">") repl = true.

Lemma angle_stays_unmatched (c : ascii) (s : string) :
  starts_tag (String c s) = false -> starts_tag (String c (re_sub r repl s)) = false.
Proof.
  unfold starts_tag.
  destruct (chr "<" c); [|by destruct (re_sub r repl s)]. cbn [andb].
  destruct s as [|c1 s2].
  - unfold re_sub. simpl. by rewrite no_empty_match.
  - destruct (not_chr ">" c1) eqn:Hc1; cbn [andb].
    + intros Hclose%negb_false_iff. unfold is_empty in Hclose.
      assert (Hall : sall (not_chr ">") (re_sub r repl (String c1 s2)) = true).
      { apply re_sub_go_sall; [done|]. simpl. rewrite Hc1.
        apply drop_while_empty_all. by destruct (drop_while (not_chr ">") s2). }
      destruct (re_sub r repl (String c1 s2)) as [|d1 o2]; [done|].
      simpl in Hall. apply andb_prop in Hall as [-> Hall].
      by rewrite (drop_while_all _ _ Hall).
    + intros _. unfold not_chr in Hc1. apply negb_false_iff, Ascii.eqb_eq in Hc1 as <-.
      rewrite re_sub_step_none by apply no_match_at_close. done.
Qed.

End KeepsTags.

(** After the tag pass no tag is left. *)
Lemma tag_sub_free_upto (n : nat) (s : string) :
  (String.length s <= n)%nat -> hit_free starts_tag (re_sub re_tag "" s).
Proof.
  revert s. induction n as [|n IH]; intros s Hn.
  - destruct s; [by apply hit_free_nil | simpl in Hn; lia].
  - destruct s as [|c s]; [by apply hit_free_nil|]. simpl in Hn.
    destruct (starts_tag (String c s)) eqn:Hhit.
    + rewrite tag_sub_hit by done. apply IH.
      pose proof (after_tag_shorter _ Hhit) as Hlen. cbn [String.length] in Hlen. lia.
    + rewrite tag_sub_miss by done.
      apply hit_free_cons; [|apply IH; lia].
      apply (angle_stays_unmatched re_tag ""); try done;
        intros t'; by rewrite tag_match.
Qed.

Lemma tag_sub_free (s : string) : hit_free starts_tag (re_sub re_tag "" s).
Proof. by apply (tag_sub_free_upto (String.length s)). Qed.

Lemma starts_tag_app (s v : string) : starts_tag s = true -> starts_tag (s ++ v) = true.
Proof.
  unfold starts_tag. destruct s as [|c0 [|c1 s2]]; try done. rewrite !app_cons.
  intros H. apply andb_prop in H as [-> H]. simpl.
  rewrite drop_while_app by (intros Hd; by rewrite Hd in H).
  by destruct (drop_while (not_chr ">") s2).
Qed.

Lemma tag_free_strip (s : string) : hit_free starts_tag s -> hit_free starts_tag (strip s).
Proof.
  intros Hfree. unfold strip, lstrip.
  apply (hit_free_prefix starts_tag starts_tag_app _ _ (rstrip_prefix _)).
  by apply (hit_free_suffix _ _ s (drop_while_suffix _ _)).
Qed.

Lemma tag_free_collapse_upto (n : nat) (s : string) :
  (String.length s <= n)%nat ->
  hit_free starts_tag s -> hit_free starts_tag (re_sub re_spaces " " s).
Proof.
  unfold re_spaces. revert s. induction n as [|n IH]; intros s Hn Hs.
  - destruct s; [by apply hit_free_nil | simpl in Hn; lia].
  - destruct s as [|c s]; [by apply hit_free_nil|]. simpl in Hn.
    destruct (is_space c) eqn:Hc.
    + rewrite collapse_space by done.
      apply hit_free_cons; [unfold starts_tag; by destruct (re_sub _ _ _)|]. apply IH.
      * pose proof (is_suffix_length _ _ (drop_while_suffix is_space s)). lia.
      * apply (hit_free_suffix _ _ (String c s)); [|done].
        apply is_suffix_tail, drop_while_suffix.
    + rewrite collapse_solid by done.
      apply hit_free_cons.
      * apply (angle_stays_unmatched (Plus is_space) " "); try done.
        apply Hs, is_suffix_refl.
      * apply IH; [lia|]. apply (hit_free_suffix _ _ (String c s)); [|done].
        apply is_suffix_tail, is_suffix_refl.
Qed.

Lemma tag_free_collapse (s : string) :
  hit_free starts_tag s -> hit_free starts_tag (re_sub re_spaces " " s).
Proof. by apply (tag_free_collapse_upto (String.length s)). Qed.

Lemma tag_free_stable (s : string) : hit_free starts_tag s -> re_sub re_tag "" s = s.
Proof.
  intros Hfree. apply re_sub_no_match. intros t Ht.
  by rewrite tag_match, (Hfree t Ht).
Qed.

(** A literal with a code point beyond the range of the text model occurs
    in no text. *)
Lemma lit_codes_beyond {A} (old : list N) (k : string -> option A) (s : string) :
  Exists (fun n => (256 <= n)%N) old -> rmatch (LitCodes old) k s = None.
Proof.
  intros Hold. revert s. induction Hold as [n old Hn | n old _ IH]; intros s.
  - cbn [LitCodes rmatch]. destruct s as [|c s]; [done|].
    pose proof (N_ascii_bounded c) as Hc.
    destruct (N.eqb_spec (N_of_ascii c) n) as [<- | Hne]; [lia | done].
  - cbn [LitCodes rmatch]. destruct s as [|c s]; [done|].
    destruct (N.eqb _ _); [apply IH | done].
Qed.

Lemma replace_codes_beyond (old : list N) (new s : string) :
  Exists (fun n => (256 <= n)%N) old -> replace_codes old new s = s.
Proof.
  intros Hold. apply re_sub_no_match. intros t _. by apply lit_codes_beyond.
Qed.

Lemma collapsed_tail (c : ascii) (s : string) : collapsed (String c s) = true -> collapsed s = true.
Proof. simpl. by intros [_ H]%andb_prop. Qed.

Lemma collapsed_suffix (t s : string) : is_suffix t s -> collapsed s = true -> collapsed t = true.
Proof.
  intros [u ->]. induction u as [|c u IH]; [done|]. rewrite app_cons.
  intros H. by apply IH, (collapsed_tail c).
Qed.

Lemma collapsed_strip (s : string) : collapsed s = true -> collapsed (strip s) = true.
Proof.
  intros H. unfold strip, lstrip.
  apply (collapsed_prefix _ _ (rstrip_prefix _)).
  by apply (collapsed_suffix _ s (drop_while_suffix _ _)).
Qed.

Lemma length_re_sub_go (r : regex) (n : nat) (s : string) :
  (String.length (re_sub_go r "" n s) <= String.length s)%nat.
Proof.
  revert n. induction s as [|c s IH]; intros n; simpl.
  - destruct n; [|done]. by destruct (match_at r "").
  - destruct n as [|n]; [|specialize (IH n); lia].
    destruct (match_at r (String c s)) as [rest|].
    + destruct (_ - _)%nat as [|m]; rewrite app_nil_l; simpl.
      * specialize (IH 0%nat). lia.
      * specialize (IH m). lia.
    + simpl. specialize (IH 0%nat). lia.
Qed.

Lemma length_collapse_upto (n : nat) (s : string) :
  (String.length s <= n)%nat ->
  (String.length (re_sub re_spaces " " s) <= String.length s)%nat.
Proof.
  unfold re_spaces. revert s. induction n as [|n IH]; intros s Hn.
  - destruct s; [done | simpl in Hn; lia].
  - destruct s as [|c s]; [done|]. simpl in Hn.
    destruct (is_space c) eqn:Hc.
    + rewrite collapse_space by done.
      pose proof (is_suffix_length _ _ (drop_while_suffix is_space s)) as Hd.
      specialize (IH (drop_while is_space s) ltac:(lia)). simpl. lia.
    + rewrite collapse_solid by done. specialize (IH s ltac:(lia)). simpl. lia.
Qed.

Lemma length_strip (s : string) : (String.length (strip s) <= String.length s)%nat.
Proof.
  unfold strip, lstrip.
  destruct (rstrip_prefix (drop_while is_space s)) as [v Hv].
  pose proof (is_suffix_length _ _ (drop_while_suffix is_space s)) as Hd.
  apply (f_equal String.length) in Hv. rewrite length_app in Hv. lia.
Qed.

(** X6: [clean_description] maps a missing value to the empty text.  On a text
    of code points below 256 the two [replace] calls find nothing, their
    needles holding code points beyond that range, and the result is the
    text without its tags, with every run of whitespace turned into one
    space, trimmed.  The result has no tag left, is never longer than the
    input, and [clean_description] maps it to itself. *)
Theorem clean_description_settles (desc : string) :
  let y := clean_description (Some desc) in
  clean_description None = ""
  /\ y = strip (re_sub re_spaces " " (re_sub re_tag "" desc))
  /\ collapsed y = true
  /\ strip y = y
  /\ hit_free starts_tag y
  /\ (String.length y <= String.length desc)%nat
  /\ clean_description (Some y) = y.
Proof.
  cbv zeta.
  assert (Hform : forall d, clean_description (Some d)
                            = strip (re_sub re_spaces " " (re_sub re_tag "" d))).
  { intros d. unfold clean_description.
    rewrite !replace_codes_beyond; [done | |];
      apply Exists_cons_tl, Exists_cons_hd; done. }
  split; [done|]. split; [apply Hform|]. rewrite Hform.
  set (y := strip (re_sub re_spaces " " (re_sub re_tag "" desc))).
  assert (Hcol : collapsed y = true) by apply collapsed_strip, collapse_is_collapsed.
  assert (Hstrip : strip y = y) by apply strip_idem.
  assert (Hfree : hit_free starts_tag y)
    by apply tag_free_strip, tag_free_collapse, tag_sub_free.
  split; [done|]. split; [done|]. split; [done|]. split.
  - unfold y. etransitivity; [apply length_strip|].
    etransitivity; [apply (length_collapse_upto _ _ (Nat.le_refl _))|].
    apply length_re_sub_go.
  - rewrite Hform, (tag_free_stable y Hfree).
    unfold re_spaces. by rewrite (collapse_collapsed y Hcol).
Qed.

End DescribeFacts.

(** ** The author key of the second pass *)

Module AuthorKeyFacts.
Import Text Re Shapes Normalizer Samples.
Import TextFacts ReFacts NormalizerFacts CleanerFacts.

Lemma app_nil_r (s : string) : s ++ "" = s.
Proof. induction s as [|c s IH]; [done|]. by rewrite app_cons, IH. Qed.

(** [re.sub] and [re.split] walk over a prefix in which no match starts. *)
Lemma re_sub_prefix (r : regex) (repl u v : string) :
  (forall w t, u = w ++ t -> t <> "" -> match_at r (t ++ v) = None) ->
  re_sub r repl (u ++ v) = u ++ re_sub r repl v.
Proof.
  induction u as [|c u IH]; intros Hno; [done|].
  rewrite !app_cons. rewrite re_sub_step_none.
  - f_equal. apply IH. intros w t -> Ht. by apply (Hno (String c w) t).
  - rewrite <- app_cons. by apply (Hno "" (String c u)).
Qed.

Lemma re_split_head_prefix (r : regex) (u v : string) :
  (forall w t, u = w ++ t -> t <> "" -> match_at r (t ++ v) = None) ->
  re_split_head r (u ++ v) = u ++ re_split_head r v.
Proof.
  induction u as [|c u IH]; intros Hno; [done|].
  pose proof (Hno "" (String c u) eq_refl ltac:(done)) as H0.
  rewrite !app_cons in *. cbn [re_split_head]. rewrite H0.
  f_equal. apply IH. intros w t -> Ht. by apply (Hno (String c w) t).
Qed.

Lemma re_split_head_match (r : regex) (s rest : string) :
  match_at r s = Some rest -> re_split_head r s = "".
Proof. intros H. destruct s; simpl; by rewrite H. Qed.

Lemma re_split_head_no_match (r : regex) (s : string) :
  (forall t, is_suffix t s -> match_at r t = None) -> re_split_head r s = s.
Proof.
  induction s as [|c s IH]; intros Hno.
  - simpl. by rewrite (Hno "" (is_suffix_refl _)).
  - cbn [re_split_head]. rewrite (Hno _ (is_suffix_refl _)). f_equal.
    apply IH. intros t Ht. by apply Hno, is_suffix_tail.
Qed.

Lemma space_not_paren (c : ascii) : is_space c = true -> chr "(" c = false.
Proof. unfold chr. destruct (Ascii.eqb_spec "(" c) as [<- | Hne]; done. Qed.

(** The parenthetical pattern needs an opening parenthesis behind the
    whitespace at the start. *)
Lemma paren_needs_open (s : string) :
  match drop_while is_space s with
  | String c _ => chr "(" c = false
  | EmptyString => True
  end ->
  match_at re_paren s = None.
Proof.
  unfold match_at.
  change re_paren with
    (Cat (Star is_space) (Cat (Cls (chr "(")) (Cat (Plus (not_chr ")")) (Cls (chr ")"))))).
  cbn [rmatch]. rewrite star_disjoint.
  - destruct (drop_while is_space s) as [|c t]; [done|]. by intros ->.
  - intros c t Hc. by rewrite (space_not_paren c Hc).
Qed.

Lemma head_before_comma (t w : string) :
  free_of (chr "(") t = true ->
  match drop_while is_space (t ++ String "," w) with
  | String c _ => chr "(" c = false
  | EmptyString => True
  end.
Proof.
  unfold free_of. induction t as [|c t IH].
  - intros _. by rewrite app_nil_l.
  - rewrite app_cons. simpl. intros [Hc Ht]%andb_prop.
    destruct (is_space c); [by apply IH | by apply negb_true_iff].
Qed.

Lemma paren_free_stable (s : string) :
  free_of (chr "(") s = true -> re_sub re_paren "" s = s.
Proof.
  intros Hfree. apply re_sub_no_match. intros t Ht. apply paren_needs_open.
  pose proof (sall_suffix _ t s Ht Hfree) as Hfree'.
  pose proof (sall_suffix _ _ t (drop_while_suffix is_space t) Hfree') as Hd.
  destruct (drop_while is_space t) as [|c d]; [done|].
  simpl in Hd. by apply andb_prop in Hd as [Hc%negb_true_iff _].
Qed.

Lemma coauthor_needs_comma (c : ascii) (t : string) :
  chr "," c = false -> match_at re_coauthor (String c t) = None.
Proof. unfold match_at, re_coauthor. simpl. by intros ->. Qed.

Lemma comma_free_stable (s : string) :
  free_of (chr ",") s = true -> re_split_head re_coauthor s = s.
Proof.
  intros Hfree. apply re_split_head_no_match. intros t Ht.
  pose proof (sall_suffix _ t s Ht Hfree) as Hfree'.
  destruct t as [|c t]; [done|]. apply coauthor_needs_comma.
  simpl in Hfree'. by apply andb_prop in Hfree' as [Hc%negb_true_iff _].
Qed.

Lemma upper_az_class (c : ascii) :
  is_upper_az c = true -> is_space c = false /\ chr "(" c = false /\ chr "," c = false.
Proof. destruct c as [[] [] [] [] [] [] [] []]; vm_compute; intuition congruence. Qed.

Lemma rstrip_smap (f : ascii -> ascii) (s : string) :
  (forall c, is_space (f c) = is_space c) -> rstrip (smap f s) = smap f (rstrip s).
Proof.
  intros Hf. induction s as [|c s IH]; [done|]. simpl. rewrite IH, Hf.
  replace (is_empty (smap f (rstrip s))) with (is_empty (rstrip s))
    by (by destruct (rstrip s)).
  by destruct (is_empty (rstrip s) && is_space c).
Qed.

Lemma strip_lower (s : string) : strip (lower s) = lower (strip s).
Proof.
  unfold strip, lstrip, lower.
  rewrite drop_while_smap by (intros c; apply lower_char_class).
  apply rstrip_smap. intros c. apply lower_char_class.
Qed.

Lemma dedup_plain_name (a : string) :
  contains "," a = false -> contains "(" a = false ->
  normalize_author_for_dedup (Some a) = lower (strip a).
Proof.
  intros Hcomma Hparen. unfold normalize_author_for_dedup.
  assert (Hcomma' : free_of (chr ",") (strip a) = true)
    by (by apply sall_strip, contains_free).
  assert (Hparen' : free_of (chr "(") (strip a) = true)
    by (by apply sall_strip, contains_free).
  rewrite (paren_free_stable _ Hparen'), (comma_free_stable _ Hcomma'), strip_idem.
  rewrite (proj2 (contains_free "," (strip a)) Hcomma').
  by rewrite strip_lower, strip_idem.
Qed.

(** X4: For a first author without comma and without opening parenthesis,
    [normalize_author_for_dedup] gives the name trimmed and in lower case;
    a list of co-authors that starts with this name, a comma, one space and
    a capital letter A-Z gets the same result as the name alone, whatever
    follows.  A missing value gives the empty text. *)
Theorem dedup_author_is_first_author (a rest : string) (c : ascii) :
  contains "," a = false -> contains "(" a = false -> is_upper_az c = true ->
  normalize_author_for_dedup None = ""
  /\ normalize_author_for_dedup (Some a) = lower (strip a)
  /\ normalize_author_for_dedup (Some (a ++ ", " ++ String c rest))
     = normalize_author_for_dedup (Some a).
Proof.
  intros Hcomma Hparen Hupper. split; [done|].
  split; [by apply dedup_plain_name|].
  rewrite (dedup_plain_name a Hcomma Hparen).
  destruct (upper_az_class c Hupper) as (Hsolid & Hopen & Hnocomma).
  assert (Hcomma' : free_of (chr ",") (lstrip a) = true)
    by (by apply free_of_lstrip, contains_free).
  assert (Hparen' : free_of (chr "(") (lstrip a) = true)
    by (by apply free_of_lstrip, contains_free).
  assert (Hhead : strip (re_split_head re_coauthor
                           (re_sub re_paren "" (strip (a ++ ", " ++ String c rest))))
                  = strip a).
  { change (a ++ ", " ++ String c rest) with (a ++ String "," (String " " (String c rest))).
    rewrite strip_around by done.
    replace (rstrip (String " " (String c rest))) with (String " " (String c (rstrip rest)))
      by (simpl; by rewrite Hsolid, !andb_false_r).
    (* the parenthetical pass walks over the first author, the comma and the blank *)
    rewrite (re_sub_prefix re_paren "" (lstrip a)).
    2:{ intros w t Hw Ht. apply paren_needs_open, head_before_comma.
        apply (sall_suffix _ t (lstrip a)); [by exists w | done]. }
    rewrite (re_sub_step_none re_paren "" ",") by (by apply paren_needs_open).
    rewrite (re_sub_step_none re_paren "" " ")
      by (apply paren_needs_open; simpl; by rewrite Hsolid).
    rewrite (re_sub_step_none re_paren "" c)
      by (apply paren_needs_open; simpl; by rewrite Hsolid).
    (* the split stops at the comma in front of the capital *)
    rewrite (re_split_head_prefix re_coauthor (lstrip a)).
    2:{ intros w t Hw Ht. destruct t as [|x t]; [done|]. rewrite app_cons.
        apply coauthor_needs_comma.
        assert (Hfree : free_of (chr ",") (String x t) = true)
          by (apply (sall_suffix _ _ (lstrip a)); [by exists w | done]).
        simpl in Hfree. by apply andb_prop in Hfree as [Hx%negb_true_iff _]. }
    rewrite (re_split_head_match re_coauthor _ (String c (re_sub re_paren "" (rstrip rest)))).
    2:{ unfold match_at, re_coauthor. simpl. by rewrite Hsolid, Hupper. }
    by rewrite app_nil_r, strip_lstrip. }
  unfold normalize_author_for_dedup. rewrite Hhead.
  rewrite (proj2 (contains_free "," (strip a))) by (by apply sall_strip, contains_free).
  by rewrite strip_lower, strip_idem.
Qed.

Lemma dedup_author_is_first_author_witness :
  normalize_author_for_dedup (Some "J.K. Rowling, Mary GrandPre (Illustrator)")
  = normalize_author_for_dedup (Some "J.K. Rowling").
Proof.
  apply (dedup_author_is_first_author "J.K. Rowling" "ary GrandPre (Illustrator)" "M");
    reflexivity.
Defined.

End AuthorKeyFacts.

(** ** The record set of [main] *)

Module RecordSetFacts.
Import Text Re Shapes Normalizer Identity Frames Matcher Dedup Pipeline Samples.
Import TextFacts ReFacts NormalizerFacts IdentityFacts DedupFacts CleanerFacts.

(** *** Keys *)

Lemma cleaned_isbn_valid (v : cell) (i : string) :
  clean_isbn v = Some i -> i <> "" /\ i <> "nan".
Proof.
  destruct v as [v|]; [|done]. intros [_ Hlen]%clean_isbn_alphabet.
  split; intros ->; simpl in Hlen; lia.
Qed.

Lemma key_of_cleaned_isbn (md5_hexdigest : string -> string) (v t a id : cell) (i : string) :
  clean_isbn v = Some i -> generate_book_key md5_hexdigest (clean_isbn v) t a id = "isbn:" ++ i.
Proof.
  intros Hi. destruct (cleaned_isbn_valid v i Hi) as [Hne Hnan]. rewrite Hi.
  unfold generate_book_key. by rewrite valid_isbn_branch.
Qed.

Lemma gr_book_key_cases (md5_hexdigest : string -> string) (g : GoodreadsRow) :
  gr_Book_Id g <> Some "" ->
  gr_book_key md5_hexdigest g
  = match gr_isbn13_clean g with
    | Some i => "isbn:" ++ i
    | None => "gr:" ++ py_str (gr_Book_Id g)
    end.
Proof.
  intros Hid. unfold gr_book_key, gr_isbn13_clean.
  destruct (clean_isbn (gr_ISBN13 g)) as [i|] eqn:Hi.
  - rewrite <- Hi. by apply key_of_cleaned_isbn.
  - unfold generate_book_key. simpl.
    destruct (gr_Book_Id g) as [[|c id]|]; [done | done | done].
Qed.

Lemma kaggle_key_cases (md5_hexdigest : string -> string) (k : KaggleRow) :
  book_key (kaggle_record md5_hexdigest k)
  = match kg_isbn_clean k with
    | Some i => "isbn:" ++ i
    | None =>
        "ta:" ++ slice_to 12 (md5_hexdigest (normalize_text (kg_title k) ++ "|"
                                             ++ normalize_text (kg_author k)))
    end.
Proof.
  unfold kaggle_record, kg_isbn_clean. cbn [book_key].
  destruct (clean_isbn (kg_isbn k)) as [i|] eqn:Hi.
  - rewrite <- Hi. by apply key_of_cleaned_isbn.
  - reflexivity.
Qed.

(** X5: The keys [main] gives the two sources.  A Goodreads record whose Book Id
    is not the empty text never has a hash key, and a Kaggle record never
    has a native key.  A Goodreads row with no valid ISBN13 and a missing
    Book Id gets the key gr:nan, since [main] hands [generate_book_key]
    the [str] of the id.  A Goodreads record and a Kaggle record have the
    same key only when both rows have the same cleaned ISBN. *)
Theorem keys_meet_only_on_isbn (md5_hexdigest : string -> string)
    (g : GoodreadsRow) (k : KaggleRow) :
  gr_Book_Id g <> Some "" ->
  is_hash_key (book_key (gr_record md5_hexdigest g)) = false
  /\ is_native_key (book_key (kaggle_record md5_hexdigest k)) = false
  /\ (gr_isbn13_clean g = None -> gr_Book_Id g = None ->
      book_key (gr_record md5_hexdigest g) = "gr:nan")
  /\ (book_key (gr_record md5_hexdigest g) = book_key (kaggle_record md5_hexdigest k) ->
      exists i, gr_isbn13_clean g = Some i /\ kg_isbn_clean k = Some i).
Proof.
  intros Hid. rewrite kaggle_key_cases. cbn [gr_record book_key].
  rewrite (gr_book_key_cases md5_hexdigest g Hid).
  unfold is_hash_key, is_native_key.
  destruct (gr_isbn13_clean g) as [i|], (kg_isbn_clean k) as [j|];
    rewrite ?app_cons, ?app_nil_l; repeat split; try done.
  - intros Heq. exists i. split; [done|]. by injection Heq as ->.
  - by intros _ ->.
  - by intros _ ->.
Qed.

Lemma keys_meet_only_on_isbn_witness :
  is_hash_key (book_key (gr_record plain_digest dune_goodreads)) = false
  /\ is_native_key (book_key (kaggle_record plain_digest dune_kaggle)) = false.
Proof.
  destruct (keys_meet_only_on_isbn plain_digest dune_goodreads dune_kaggle) as (H1 & H2 & _).
  - discriminate.
  - by split.
Defined.

(** *** The unread corpus *)

Lemma filter_sublist {A} (p : A -> bool) (l : list A) : sublist (List.filter p l) l.
Proof.
  induction l as [|x l IH]; simpl; [constructor|].
  destruct (p x); by constructor.
Qed.

(** X10: The unread corpus rows [main] keeps are at most [TOP_N_POPULAR_BOOKS],
    in the order of the corpus, and none of them shares its cleaned ISBN
    or its normalized title and author with a row of the read shelf. *)
Theorem kaggle_unread_leaves_out_the_read (goodreads : list GoodreadsRow)
    (kaggle : list KaggleRow) :
  let unread := kaggle_unread goodreads kaggle in
  (length unread <= TOP_N_POPULAR_BOOKS)%nat
  /\ sublist unread kaggle
  /\ (forall k g, k ∈ unread -> g ∈ goodreads ->
        (forall i, kg_isbn_clean k = Some i -> gr_isbn13_clean g <> Some i)
        /\ (kg_title_norm k, kg_author_norm k) <> (gr_title_norm g, gr_author_norm g)).
Proof.
  cbv zeta. unfold kaggle_unread.
  set (unread := List.filter (fun k => negb (is_already_read goodreads k)) kaggle).
  assert (Hsub : sublist unread kaggle) by apply filter_sublist.
  assert (Hunread : forall k, k ∈ unread -> is_already_read goodreads k = false).
  { intros k [_ Hk]%filter_elem_of. by apply negb_true_iff. }
  generalize TOP_N_POPULAR_BOOKS. intros top.
  assert (Htake : sublist (if (top <? length unread)%nat then firstn top unread else unread)
                    unread).
  { destruct (top <? length unread)%nat; [apply sublist_take | done]. }
  split; [|split].
  - destruct (top <? length unread)%nat eqn:Hlen.
    + apply firstn_le_length.
    + by apply Nat.ltb_ge.
  - by etransitivity.
  - intros k g Hk Hg.
    assert (Hk' : k ∈ unread) by (by apply (elem_of_sublist _ _ _ Hk Htake)).
    apply Hunread in Hk'. unfold is_already_read in Hk'. split.
    + intros i Hi Hgi. rewrite Hi in Hk'.
      destruct (cleaned_isbn_valid _ i Hi) as [Hne _].
      rewrite (truthy_Some i Hne) in Hk'. simpl in Hk'.
      rewrite bool_decide_eq_true_2 in Hk'; [done|].
      unfold goodreads_isbns. apply elem_of_list_to_set, list_elem_of_omap. eauto.
    + intros Hpair. rewrite Hpair in Hk'.
      rewrite (bool_decide_eq_true_2
                 ((gr_title_norm g, gr_author_norm g) ∈ goodreads_titles_authors goodreads))
        in Hk'.
      * by destruct (_ && _).
      * unfold goodreads_titles_authors. apply elem_of_list_to_set, list_elem_of_fmap. eauto.
Qed.

Lemma kaggle_unread_leaves_out_the_read_witness :
  (kg_title_norm dune_kaggle_lower, kg_author_norm dune_kaggle_lower)
  <> (gr_title_norm dune_goodreads, gr_author_norm dune_goodreads).
Proof.
  destruct (kaggle_unread_leaves_out_the_read [dune_goodreads] [dune_kaggle_lower])
    as (_ & _ & Hout).
  apply Hout.
  - replace (kaggle_unread [dune_goodreads] [dune_kaggle_lower]) with [dune_kaggle_lower]
      by (vm_compute; reflexivity).
    by left.
  - by left.
Defined.

(** *** The ISBN pass of the backfill *)

Lemma kaggle_by_isbn_first (kaggle : list KaggleRow) (i : string) :
  match kaggle_by_isbn kaggle !! i with
  | Some k =>
      exists before after,
        kaggle = (before ++ k :: after)%list
        /\ kg_isbn_clean k = Some i
        /\ Forall (fun k' => kg_isbn_clean k' <> Some i) before
  | None => Forall (fun k' => kg_isbn_clean k' <> Some i) kaggle
  end.
Proof.
  unfold kaggle_by_isbn. induction kaggle as [|k kaggle IH]; simpl;
    [rewrite lookup_empty; constructor|].
  destruct (kg_isbn_clean k) as [j|] eqn:Hj; simpl.
  - destruct (decide (j = i)) as [-> | Hne].
    + rewrite lookup_insert_eq. exists [], kaggle. by repeat split.
    + rewrite lookup_insert_ne by done.
      destruct (list_to_map _ !! i) as [k'|].
      * destruct IH as (before & after & -> & Hk' & Hbefore).
        exists (k :: before), after. repeat split; [done|].
        constructor; [|done]. rewrite Hj. congruence.
      * constructor; [|done]. rewrite Hj. congruence.
  - destruct (list_to_map _ !! i) as [k'|].
    + destruct IH as (before & after & -> & Hk' & Hbefore).
      exists (k :: before), after. repeat split; [done|].
      constructor; [|done]. by rewrite Hj.
    + constructor; [|done]. by rewrite Hj.
Qed.

(** X11: A record of the read shelf whose ISBN13 is the cleaned ISBN of some
    corpus row is matched by the first such row of the corpus, and its
    description, genres and cover after the backfill are those of that
    row. *)
Theorem isbn_pass_takes_first_corpus_row (goodreads : list GoodreadsRow)
    (kaggle : list KaggleRow) (row : BookRecord) (i : string) :
  isbn13 row = Some i -> i <> "" ->
  Exists (fun k => kg_isbn_clean k = Some i) kaggle ->
  exists before k after,
    kaggle = (before ++ k :: after)%list
    /\ kg_isbn_clean k = Some i
    /\ Forall (fun k' => kg_isbn_clean k' <> Some i) before
    /\ find_kaggle_match goodreads kaggle row = Some k
    /\ description_raw (backfill_row goodreads kaggle row) = kg_description k
    /\ genres_list (backfill_row goodreads kaggle row) = kg_genres k
    /\ cover_image_url (backfill_row goodreads kaggle row) = kg_coverImg k.
Proof.
  intros Hrow Hne Hsome.
  pose proof (kaggle_by_isbn_first kaggle i) as Hfirst.
  destruct (kaggle_by_isbn kaggle !! i) as [k|] eqn:Hlook.
  - destruct Hfirst as (before & after & Hparts & Hk & Hbefore).
    exists before, k, after. split; [done|]. split; [done|]. split; [done|].
    assert (Hfind : find_kaggle_match goodreads kaggle row = Some k).
    { unfold find_kaggle_match. rewrite Hrow. simpl text_of.
      by rewrite (truthy_Some i Hne), Hlook. }
    split; [done|]. unfold backfill_row. by rewrite Hfind.
  - exfalso. apply Exists_exists in Hsome as (k & Hin & Hk).
    rewrite Forall_forall in Hfirst. by apply (Hfirst k).
Qed.

Lemma isbn_pass_takes_first_corpus_row_witness :
  description_raw (backfill_row [dune_goodreads_isbn] [dune_kaggle; dune_kaggle_lower]
                     (gr_record plain_digest dune_goodreads_isbn))
  = Some "Set on the desert planet Arrakis.".
Proof.
  destruct (isbn_pass_takes_first_corpus_row [dune_goodreads_isbn]
              [dune_kaggle; dune_kaggle_lower]
              (gr_record plain_digest dune_goodreads_isbn) "9780441172719")
    as (before & k & after & Hparts & _ & Hbefore & _ & Hdesc & _).
  - vm_compute. reflexivity.
  - discriminate.
  - left. vm_compute. reflexivity.
  - rewrite Hdesc. destruct before as [|k0 before].
    + by injection Hparts as <- _.
    + exfalso. injection Hparts as <- _. inversion Hbefore as [|? ? Hk0 _]; subst.
      apply Hk0. vm_compute. reflexivity.
Defined.

(** *** The two passes of the deduplication *)

Lemma drop_duplicates_go_fixed (seen : gset string) (rs : list BookRecord) :
  NoDup (book_key <$> rs) -> Forall (fun r => book_key r ∉ seen) rs ->
  drop_duplicates_go seen rs = rs.
Proof.
  revert seen. induction rs as [|r rs IH]; intros seen; simpl; [done|].
  rewrite NoDup_cons. intros [Hr Hrs] Hseen.
  inversion Hseen as [|? ? Hnew Hrest]; subst.
  rewrite bool_decide_eq_false_2 by done. f_equal. apply IH; [done|].
  apply Forall_forall. intros r' Hr'. rewrite Forall_forall in Hrest.
  rewrite elem_of_union, elem_of_singleton. intros [Heq | Hin]; [|by apply (Hrest r')].
  apply Hr. rewrite <- Heq. apply list_elem_of_fmap. by exists r'.
Qed.

Lemma drop_duplicates_fixed (rs : list BookRecord) :
  NoDup (book_key <$> rs) -> drop_duplicates rs = rs.
Proof.
  intros H. apply drop_duplicates_go_fixed; [done|].
  apply Forall_forall. intros r _. apply not_elem_of_empty.
Qed.

Lemma read_dedup_keys_second_pass (rs : list BookRecord) :
  read_dedup_keys (second_pass rs) = read_dedup_keys rs.
Proof.
  unfold read_dedup_keys, second_pass. rewrite filter_filter_keep; [done|].
  intros r Hr. unfold mask_keep. by rewrite Hr.
Qed.

Lemma filter_twice {A} (p : A -> bool) (l : list A) :
  List.filter p (List.filter p l) = List.filter p l.
Proof. by apply filter_filter_keep. Qed.

Lemma filter_ext_in {A} (p q : A -> bool) (l : list A) :
  (forall x, p x = q x) -> List.filter p l = List.filter q l.
Proof. intros H. induction l as [|x l IH]; simpl; [done|]. by rewrite H, IH. Qed.

Lemma second_pass_twice (rs : list BookRecord) : second_pass (second_pass rs) = second_pass rs.
Proof.
  unfold second_pass at 1.
  rewrite (filter_ext_in (mask_keep (second_pass rs)) (mask_keep rs)).
  - apply filter_twice.
  - intros r. unfold mask_keep. by rewrite read_dedup_keys_second_pass.
Qed.

(** X13: The two deduplication passes of [main] together are idempotent and
    only take records out, keeping the order of the rest; on records with
    distinct keys the first pass changes nothing. *)
Theorem deduplicate_is_idempotent (rs : list BookRecord) :
  deduplicate (deduplicate rs) = deduplicate rs
  /\ sublist (deduplicate rs) rs
  /\ (NoDup (book_key <$> rs) -> drop_duplicates rs = rs).
Proof.
  split; [|split].
  - unfold deduplicate at 1. rewrite drop_duplicates_fixed.
    + apply second_pass_twice.
    + unfold deduplicate, second_pass.
      apply NoDup_fmap_filter, drop_duplicates_go_NoDup.
  - unfold deduplicate, second_pass. etransitivity; [apply filter_sublist|].
    unfold drop_duplicates. generalize (∅ : gset string).
    induction rs as [|r rs IH]; intros seen; simpl; [done|].
    case_bool_decide; [by constructor | by constructor].
  - apply drop_duplicates_fixed.
Qed.

Lemma deduplicate_is_idempotent_witness :
  drop_duplicates [potter_read; potter_corpus; dune_corpus]
  = [potter_read; potter_corpus; dune_corpus].
Proof.
  apply (deduplicate_is_idempotent [potter_read; potter_corpus; dune_corpus]).
  apply (bool_decide_unpack _). vm_compute. exact I.
Defined.

Lemma drop_duplicates_go_first (seen : gset string) (rs : list BookRecord) (r : BookRecord) :
  r ∈ drop_duplicates_go seen rs ->
  exists before after,
    rs = (before ++ r :: after)%list /\ book_key r ∉ book_key <$> before.
Proof.
  revert seen. induction rs as [|r0 rs IH]; intros seen; simpl.
  - intros H. inversion H.
  - case_bool_decide as Hseen.
    + intros H. pose proof (drop_duplicates_go_sub _ _ _ H) as [_ Hnotin].
      destruct (IH _ H) as (before & after & -> & Hfirst).
      exists (r0 :: before), after. split; [done|].
      rewrite fmap_cons, not_elem_of_cons. split; [|done].
      intros Heq. apply Hnotin. by rewrite Heq.
    + intros [-> | H]%elem_of_cons.
      * exists [], rs. split; [done|]. apply not_elem_of_nil.
      * pose proof (drop_duplicates_go_sub _ _ _ H) as [_ Hnotin].
        destruct (IH _ H) as (before & after & -> & Hfirst).
        exists (r0 :: before), after. split; [done|].
        rewrite fmap_cons, not_elem_of_cons. split; [|done].
        intros Heq. apply Hnotin, elem_of_union. left. by apply elem_of_singleton.
Qed.

Lemma drop_duplicates_go_covers (seen : gset string) (rs : list BookRecord) (r : BookRecord) :
  r ∈ rs -> book_key r ∉ seen ->
  exists r', r' ∈ drop_duplicates_go seen rs /\ book_key r' = book_key r.
Proof.
  revert seen. induction rs as [|r0 rs IH]; intros seen; simpl.
  - intros H. inversion H.
  - intros Hin Hnew. case_bool_decide as Hseen.
    + apply elem_of_cons in Hin as [-> | Hin]; [done|]. by apply IH.
    + destruct (decide (book_key r = book_key r0)) as [Heq | Hne].
      * exists r0. split; [by left | done].
      * apply elem_of_cons in Hin as [-> | Hin]; [done|].
        destruct (IH ({[book_key r0]} ∪ seen) Hin) as (r' & Hr' & Hkey).
        { rewrite elem_of_union, elem_of_singleton. by intros [? | ?]. }
        exists r'. split; [by right | done].
Qed.

(** X14: [drop_duplicates] with [keep='first'] on the key column: a record it
    keeps is the first of its key in the input, every key of the input is
    still there, and the first record of the input is always kept. *)
Theorem drop_duplicates_keeps_first (rs : list BookRecord) :
  (forall r, r ∈ drop_duplicates rs ->
     exists before after,
       rs = (before ++ r :: after)%list /\ book_key r ∉ book_key <$> before)
  /\ (forall r, r ∈ rs -> exists r', r' ∈ drop_duplicates rs /\ book_key r' = book_key r)
  /\ (forall r rest, head (drop_duplicates (r :: rest)) = Some r).
Proof.
  split; [|split].
  - intros r. apply drop_duplicates_go_first.
  - intros r Hr. apply drop_duplicates_go_covers; [done | apply not_elem_of_empty].
  - intros r rest. unfold drop_duplicates. simpl.
    by rewrite bool_decide_eq_false_2 by apply not_elem_of_empty.
Qed.

(** *** The read shelf in the record set *)

Lemma filter_none {A} (p : A -> bool) (l : list A) :
  Forall (fun x => p x = false) l -> List.filter p l = [].
Proof.
  induction l as [|x l IH]; simpl; [done|].
  intros H. inversion H as [|? ? Hx Hl]; subst. by rewrite Hx, IH.
Qed.

Lemma drop_duplicates_go_Forall (P : BookRecord -> Prop) (seen : gset string)
    (rs : list BookRecord) :
  Forall P rs -> Forall P (drop_duplicates_go seen rs).
Proof.
  intros H. apply Forall_forall. intros r [Hr _]%drop_duplicates_go_sub.
  rewrite Forall_forall in H. by apply H.
Qed.

(** The first pass over read records followed by unread ones: the read
    ones are deduplicated among themselves. *)
Lemma read_first (seen : gset string) (reads unreads : list BookRecord) :
  Forall (fun r => is_read r = true) reads ->
  Forall (fun r => is_read r = false) unreads ->
  List.filter is_read (drop_duplicates_go seen (reads ++ unreads)%list)
  = drop_duplicates_go seen reads.
Proof.
  intros Hreads Hunreads. revert seen.
  induction Hreads as [|r reads Hr Hreads IH]; intros seen.
  - simpl. by apply filter_none, drop_duplicates_go_Forall.
  - simpl. case_bool_decide; [apply IH|]. simpl. by rewrite Hr, IH.
Qed.

Section Shelf.
Variable md5_hexdigest : string -> string.
Variable sort_by_popularity : list KaggleRow -> list KaggleRow.
Variable clean_description : cell -> string.
Variable parsed_genres_json : cell -> string.
Variable primary_genre : cell -> string.
Variable embedding_text : cell -> cell -> string -> cell -> string.

Abbreviation finish :=
  (finalize clean_description parsed_genres_json primary_genre embedding_text).
Abbreviation dataset :=
  (build_base_dataset md5_hexdigest sort_by_popularity clean_description parsed_genres_json
     primary_genre embedding_text).

Lemma backfill_row_identity (goodreads : list GoodreadsRow) (kaggle : list KaggleRow)
    (row : BookRecord) :
  book_key (backfill_row goodreads kaggle row) = book_key row
  /\ is_read (backfill_row goodreads kaggle row) = is_read row
  /\ source (backfill_row goodreads kaggle row) = source row.
Proof. unfold backfill_row, backfill. by destruct (find_kaggle_match _ _ _). Qed.

(** X12: The read records of the saved record set are the records built from the
    read shelf, without the later ones of equal key: the second pass
    removes no read record.  When the keys of the shelf are distinct they
    are all of them.  Every saved record is a read one from the Goodreads
    export or an unread one from the corpus without rating and date. *)
Theorem read_shelf_survives (goodreads : list GoodreadsRow) (kaggle : list KaggleRow) :
  let shelf := read_shelf goodreads in
  let corpus := quality_corpus sort_by_popularity kaggle in
  let gr_records :=
    finish <$> (backfill_row shelf corpus <$> (gr_record md5_hexdigest <$> shelf)) in
  List.filter is_read (dataset goodreads kaggle) = drop_duplicates gr_records
  /\ (NoDup (gr_book_key md5_hexdigest <$> shelf) ->
      List.filter is_read (dataset goodreads kaggle) = gr_records)
  /\ (forall r, r ∈ dataset goodreads kaggle ->
        (is_read r = true /\ source r = Some "goodreads_export")
        \/ (is_read r = false /\ source r = Some "kaggle_best_books"
            /\ my_rating r = None /\ date_read r = None)).
Proof.
  cbv zeta. unfold build_base_dataset, deduplicate, all_records.
  set (shelf := read_shelf goodreads).
  set (corpus := quality_corpus sort_by_popularity kaggle).
  set (reads := finish <$> (backfill_row shelf corpus <$> (gr_record md5_hexdigest <$> shelf))).
  set (unreads := finish <$> (kaggle_record md5_hexdigest <$> kaggle_unread shelf corpus)).
  assert (Hreads : Forall (fun r => is_read r = true /\ source r = Some "goodreads_export")
                     reads).
  { apply Forall_fmap, Forall_fmap, Forall_fmap, Forall_forall. intros g _. simpl.
    by destruct (backfill_row_identity shelf corpus (gr_record md5_hexdigest g))
      as (_ & -> & ->). }
  assert (Hunreads : Forall (fun r => is_read r = false /\ source r = Some "kaggle_best_books"
                                      /\ my_rating r = None /\ date_read r = None) unreads).
  { apply Forall_fmap, Forall_fmap, Forall_forall. by intros k _. }
  assert (Hsplit : List.filter is_read
                     (second_pass (drop_duplicates
                        (finish <$> ((backfill_row shelf corpus
                                       <$> (gr_record md5_hexdigest <$> shelf))
                                     ++ (kaggle_record md5_hexdigest
                                           <$> kaggle_unread shelf corpus))%list)))
                   = drop_duplicates reads).
  { unfold second_pass. rewrite filter_filter_keep
      by (intros x Hx; unfold mask_keep; by rewrite Hx).
    rewrite fmap_app. fold reads. fold unreads. apply read_first.
    - eapply Forall_impl; [exact Hreads | by intros r [? _]].
    - eapply Forall_impl; [exact Hunreads | by intros r [? _]]. }
  split; [exact Hsplit|]. split.
  - intros Hkeys. rewrite Hsplit. apply drop_duplicates_fixed.
    unfold reads. rewrite <- !list_fmap_compose.
    erewrite list_fmap_ext; [exact Hkeys|]. intros i g _. simpl.
    by destruct (backfill_row_identity shelf corpus (gr_record md5_hexdigest g)) as (-> & _).
  - intros r [Hr _]%filter_elem_of. apply drop_duplicates_go_sub in Hr as [Hr _].
    rewrite fmap_app in Hr. fold reads in Hr. fold unreads in Hr.
    apply elem_of_app in Hr as [Hr | Hr].
    + left. rewrite Forall_forall in Hreads. by apply Hreads.
    + right. rewrite Forall_forall in Hunreads. by apply Hunreads.
Qed.

End Shelf.

Lemma read_shelf_survives_witness :
  List.filter is_read
    (build_base_dataset plain_digest (fun l => l) (fun _ => "") (fun _ => "[]")
       (fun _ => "Unknown") (fun _ _ _ _ => "") [dune_goodreads] [dune_kaggle])
  = [finalize (fun _ => "") (fun _ => "[]") (fun _ => "Unknown") (fun _ _ _ _ => "")
       (gr_record plain_digest dune_goodreads)].
Proof.
  destruct (read_shelf_survives plain_digest (fun l => l) (fun _ => "") (fun _ => "[]")
              (fun _ => "Unknown") (fun _ _ _ _ => "") [dune_goodreads] [dune_kaggle])
    as (_ & Hall & _).
  rewrite Hall; [vm_compute; reflexivity|].
  apply (bool_decide_unpack _). vm_compute. exact I.
Defined.

End RecordSetFacts.

(** ** The analytics of the published shelf *)

Module ShelfFacts.
Import Text Shapes Exclusions Samples Cases TextFacts NormalizerFacts AnalyticsFacts CleanerFacts.

Section Counters.
Context {K : Type} `{EqDecision K}.
Implicit Types (k : K) (c : list (K * nat)) (ks : list K).

Lemma counter_loop_get ks c k :
  counter_get (foldl (fun c k' => counter_incr k' c) c ks) k
  = (counter_get c k + length (List.filter (fun x => bool_decide (x = k)) ks))%nat.
Proof.
  revert c. induction ks as [|k0 ks IH]; intros c; simpl; [lia|].
  rewrite IH, counter_get_incr.
  destruct (decide (k = k0)) as [-> | Hne].
  - rewrite bool_decide_eq_true_2 by done. simpl. lia.
  - rewrite bool_decide_eq_false_2 by congruence. lia.
Qed.

Lemma counter_of_get ks k :
  counter_get (counter_of ks) k = length (List.filter (fun x => bool_decide (x = k)) ks).
Proof. unfold counter_of. by rewrite counter_loop_get. Qed.

Lemma counter_loop_NoDup ks c :
  NoDup c.*1 -> NoDup (foldl (fun c k' => counter_incr k' c) c ks).*1.
Proof.
  revert c. induction ks as [|k0 ks IH]; intros c Hc; simpl; [done|].
  by apply IH, counter_incr_NoDup.
Qed.

Lemma counter_loop_positive ks c :
  Forall (fun e => 0 < e.2)%nat c ->
  Forall (fun e => 0 < e.2)%nat (foldl (fun c k' => counter_incr k' c) c ks).
Proof.
  revert c. induction ks as [|k0 ks IH]; intros c Hc; simpl; [done|].
  by apply IH, counter_incr_positive.
Qed.

Lemma counter_incr_sum k c : sum_list (counter_incr k c).*2 = S (sum_list c.*2).
Proof.
  induction c as [|[k0 n] c IH]; simpl; [done|].
  destruct (decide (k = k0)); simpl; [done|].
  exact (eq_trans (f_equal (Nat.add n) IH) (Nat.add_succ_r _ _)).
Qed.

Lemma counter_loop_sum ks c :
  sum_list (foldl (fun c k' => counter_incr k' c) c ks).*2 = (sum_list c.*2 + length ks)%nat.
Proof.
  revert c. induction ks as [|k0 ks IH]; intros c; simpl; [lia|].
  rewrite IH, counter_incr_sum. lia.
Qed.

(** What a counter holds: every key once, with the number of its
    occurrences, which is not zero. *)
Lemma counter_of_spec ks :
  NoDup (counter_of ks).*1
  /\ sum_list (counter_of ks).*2 = length ks
  /\ (forall k n, (k, n) ∈ counter_of ks <->
        (0 < n)%nat /\ n = length (List.filter (fun x => bool_decide (x = k)) ks)).
Proof.
  assert (Hnodup : NoDup (counter_of ks).*1) by (apply counter_loop_NoDup; constructor).
  split; [done|]. split; [unfold counter_of; by rewrite counter_loop_sum|].
  intros k n. split.
  - intros Hin. split.
    + assert (H := counter_loop_positive ks [] (Forall_nil_2 _)).
      rewrite Forall_forall in H. by apply (H (k, n)).
    + rewrite <- counter_of_get. symmetry. by apply counter_get_elem.
  - intros [Hpos ->]. rewrite <- counter_of_get in *.
    revert Hpos. generalize (counter_of ks). intros c.
    induction c as [|[k0 n0] c IH]; simpl; [lia|].
    destruct (decide (k = k0)) as [-> | Hne]; [by left|]. intros Hpos. right. by apply IH.
Qed.

Lemma insert_desc_sorted (x : K * nat) c :
  Sorted (fun a b => b.2 <= a.2)%nat c -> Sorted (fun a b => b.2 <= a.2)%nat (insert_desc x c).
Proof.
  induction c as [|y c IH]; simpl; [by repeat constructor|].
  intros Hsorted. inversion Hsorted as [|? ? Hc Hhd]; subst.
  destruct (x.2 <? y.2)%nat eqn:Hxy.
  - apply Nat.ltb_lt in Hxy. constructor; [by apply IH|].
    destruct c as [|z c]; simpl.
    + constructor. lia.
    + inversion Hhd; subst. destruct (x.2 <? z.2)%nat; constructor; [done | lia].
  - apply Nat.ltb_ge in Hxy. constructor; [done|]. by constructor.
Qed.

Lemma sort_desc_sorted c : StronglySorted (fun a b => b.2 <= a.2)%nat (foldr insert_desc [] c).
Proof.
  apply Sorted_StronglySorted.
  - intros a b d Hab Hbd. lia.
  - induction c as [|x c IH]; simpl; [constructor | by apply insert_desc_sorted].
Qed.

(** [most_common n]: at most [n] entries of the counter, by falling count;
    an entry left out is beaten by none it beats, and the list is full. *)
Lemma most_common_spec (n : nat) c :
  (length (most_common n c) <= n)%nat
  /\ StronglySorted (fun a b => b.2 <= a.2)%nat (most_common n c)
  /\ (NoDup c.*1 -> NoDup (most_common n c).*1)
  /\ (forall e, e ∈ most_common n c -> e ∈ c)
  /\ (forall e, e ∈ c -> e ∉ most_common n c ->
        length (most_common n c) = n /\ forall e', e' ∈ most_common n c -> (e.2 <= e'.2)%nat).
Proof.
  unfold most_common. set (l := foldr insert_desc [] c).
  assert (Hperm : l ≡ₚ c) by apply sort_desc_Permutation.
  assert (Hsorted : StronglySorted (fun a b => b.2 <= a.2)%nat l) by apply sort_desc_sorted.
  rewrite <- (take_drop n l) in Hsorted.
  split; [apply firstn_le_length|].
  split; [by apply StronglySorted_app_1_l in Hsorted|].
  split; [|split].
  - intros Hnodup. rewrite <- Hperm in Hnodup.
    rewrite <- (take_drop n l), fmap_app in Hnodup. by apply NoDup_app in Hnodup as [? _].
  - intros e He. rewrite <- Hperm. by apply (subseteq_take n l).
  - intros e He Hout. rewrite <- Hperm, <- (take_drop n l) in He.
    apply elem_of_app in He as [He | He]; [done|]. split.
    + apply length_take_le. destruct (le_lt_dec n (length l)) as [Hle | Hgt]; [done|].
      rewrite drop_ge in He by lia. inversion He.
    + intros e' He'. by apply (StronglySorted_app_1_elem_of _ _ _ e' e Hsorted).
Qed.

End Counters.

Lemma insert_by_key_Permutation (x : string * nat) (l : list (string * nat)) :
  insert_by_key x l ≡ₚ x :: l.
Proof.
  induction l as [|y l IH]; simpl; [done|].
  destruct (String.leb x.1 y.1); [done|]. rewrite IH. apply Permutation_swap.
Qed.

Lemma sorted_items_Permutation (c : list (string * nat)) : sorted_items c ≡ₚ c.
Proof.
  unfold sorted_items. induction c as [|x c IH]; simpl; [done|].
  by rewrite insert_by_key_Permutation, IH.
Qed.

Lemma insert_by_key_sorted (x : string * nat) (l : list (string * nat)) :
  Sorted (fun a b => String.leb a.1 b.1 = true) l ->
  Sorted (fun a b => String.leb a.1 b.1 = true) (insert_by_key x l).
Proof.
  induction l as [|y l IH]; simpl; [by repeat constructor|].
  intros Hsorted. inversion Hsorted as [|? ? Hl Hhd]; subst.
  destruct (String.leb x.1 y.1) eqn:Hxy.
  - constructor; [done|]. by constructor.
  - assert (Hyx : String.leb y.1 x.1 = true)
      by (destruct (String.leb_total x.1 y.1); congruence).
    constructor; [by apply IH|].
    destruct l as [|z l]; simpl; [by constructor|].
    inversion Hhd; subst. destruct (String.leb x.1 z.1); by constructor.
Qed.

Lemma sorted_items_sorted (c : list (string * nat)) :
  Sorted (fun a b => String.leb a.1 b.1 = true) (sorted_items c).
Proof.
  unfold sorted_items. induction c as [|x c IH]; simpl; [constructor|].
  by apply insert_by_key_sorted.
Qed.

Lemma filter_fmap_length {A B} (f : A -> B) (p : B -> bool) (l : list A) :
  length (List.filter p (f <$> l)) = length (List.filter (fun x => p (f x)) l).
Proof.
  induction l as [|x l IH]; [done|]. rewrite fmap_cons. cbn [List.filter].
  destruct (p (f x)); cbn [length]; by rewrite IH.
Qed.

Section Shelf.
Variable json_loads : string -> option (list string).

Abbreviation analytics := (recalculate_analytics json_loads).

Lemma rating_classes (read_books : list Book) :
  (sum_list ((fun r => length (List.filter (fun b => bool_decide (rating_or_zero b = r))
                                 read_books)) <$> [5; 4; 3; 2; 1; 0]%Z)
   <= length read_books)%nat
  /\ (Forall (fun b => (0 <= rating_or_zero b <= 5)%Z) read_books ->
      sum_list ((fun r => length (List.filter (fun b => bool_decide (rating_or_zero b = r))
                                    read_books)) <$> [5; 4; 3; 2; 1; 0]%Z)
      = length read_books).
Proof.
  induction read_books as [|b bs [IHle IHeq]]; [by split|]. split.
  - simpl in *. repeat case_bool_decide; simpl; lia.
  - intros Hall. inversion Hall as [|? ? Hb Hbs]; subst. specialize (IHeq Hbs).
    simpl in *. repeat case_bool_decide; simpl; lia.
Qed.

(** X27: The rating distribution lists the ratings 5 down to 0 with the number
    of read books of each rating, a read book without rating counting as
    0; its entry for 5 is the number of five star books of the summary.
    The counts add up to at most the number of read books, and to that
    number when every rating is between 0 and 5. *)
Theorem rating_distribution_counts_the_read (books : list Book) :
  let read_books := List.filter is_read books in
  rating_distribution (analytics books)
  = (fun r => (r, length (List.filter (fun b => bool_decide (rating_or_zero b = r)) read_books)))
      <$> [5; 4; 3; 2; 1; 0]%Z
  /\ (5%Z, five_star_books (analytics books)) ∈ rating_distribution (analytics books)
  /\ (sum_list (rating_distribution (analytics books)).*2 <= books_read (analytics books))%nat
  /\ (Forall (fun b => (0 <= rating_or_zero b <= 5)%Z) read_books ->
      sum_list (rating_distribution (analytics books)).*2 = books_read (analytics books)).
Proof.
  cbv zeta. set (read_books := List.filter is_read books).
  assert (Hform : rating_distribution (analytics books)
                  = (fun r => (r, length (List.filter
                                            (fun b => bool_decide (rating_or_zero b = r))
                                            read_books)))
                      <$> [5; 4; 3; 2; 1; 0]%Z).
  { unfold recalculate_analytics. cbn [rating_distribution]. fold read_books.
    apply list_fmap_ext. intros _ r _. f_equal. rewrite counter_of_get.
    apply filter_fmap_length. }
  split; [exact Hform|]. split; [|split].
  - rewrite Hform. rewrite fmap_cons. apply elem_of_cons. left. f_equal.
    unfold recalculate_analytics. cbn [five_star_books]. fold read_books. f_equal.
    apply List.filter_ext. intros b. unfold rating_or_zero.
    destruct (bk_my_rating b) as [r|]; [|done].
    apply bool_decide_ext. split; [by intros [= ->] | by intros ->].
  - rewrite Hform, <- list_fmap_compose. apply (rating_classes read_books).
  - rewrite Hform, <- list_fmap_compose. apply (rating_classes read_books).
Qed.

(** X28: The top authors are at most 10 and the genre breakdown at most 15
    entries, both in descending order of count and without a name twice.
    The count of a listed author is the number of read books of that
    author and is positive; an author of a read book who is not listed is
    left out only when the list is full, and has no more books than any
    author listed. *)
Theorem top_lists_hold_the_most_frequent (books : list Book) :
  let read_books := List.filter is_read books in
  let books_by author :=
    length (List.filter (fun b => bool_decide (get_or "Unknown" (bk_author b) = author))
              read_books) in
  (length (top_authors (analytics books)) <= 10)%nat
  /\ (length (genre_breakdown (analytics books)) <= 15)%nat
  /\ StronglySorted (fun a b => b.2 <= a.2)%nat (top_authors (analytics books))
  /\ StronglySorted (fun a b => b.2 <= a.2)%nat (genre_breakdown (analytics books))
  /\ NoDup (top_authors (analytics books)).*1
  /\ NoDup (genre_breakdown (analytics books)).*1
  /\ (forall author n, (author, n) ∈ top_authors (analytics books) ->
        (0 < n)%nat /\ n = books_by author)
  /\ (forall author, (0 < books_by author)%nat ->
        author ∉ (top_authors (analytics books)).*1 ->
        length (top_authors (analytics books)) = 10%nat
        /\ forall e, e ∈ top_authors (analytics books) -> (books_by author <= e.2)%nat).
Proof.
  cbv zeta. unfold recalculate_analytics. cbn [top_authors genre_breakdown].
  set (read_books := List.filter is_read books).
  set (authors := (fun b => get_or "Unknown" (bk_author b)) <$> read_books).
  destruct (counter_of_spec authors) as (Hnodup & _ & Hspec).
  destruct (most_common_spec 10 (counter_of authors)) as (Hlen & Hsorted & Hkeys & Hsub & Hout).
  destruct (most_common_spec 15 (genre_counter json_loads read_books))
    as (Hlen' & Hsorted' & Hkeys' & _ & _).
  assert (Hcount : forall author,
            length (List.filter (fun x => bool_decide (x = author)) authors)
            = length (List.filter
                        (fun b => bool_decide (get_or "Unknown" (bk_author b) = author))
                        read_books)).
  { intros author. unfold authors. by rewrite filter_fmap_length. }
  split; [done|]. split; [done|]. split; [done|]. split; [done|].
  split; [by apply Hkeys|].
  split; [apply Hkeys', genre_loop_NoDup; constructor|]. split.
  - intros author n Hin. apply Hsub, Hspec in Hin. by rewrite <- Hcount.
  - intros author Hpos Hnot. rewrite <- Hcount in *.
    set (n := length (List.filter (fun x => bool_decide (x = author)) authors)) in *.
    destruct (Hout (author, n)) as [Hfull Hbeat].
    + by apply Hspec.
    + intros Hin. apply Hnot, list_elem_of_fmap. by exists (author, n).
    + split; [done|]. intros e He. by apply (Hbeat e).
Qed.

Lemma timeline_loop (read_books : list Book) (c : list (string * nat)) :
  foldl (fun counter book =>
           if has_date_read book
           then counter_incr (year_month (get_or "" (bk_date_read book))) counter
           else counter) c read_books
  = foldl (fun c k => counter_incr k c) c
      ((fun b => year_month (get_or "" (bk_date_read b)))
         <$> List.filter has_date_read read_books).
Proof.
  revert c. induction read_books as [|b bs IH]; intros c; simpl; [done|].
  destruct (has_date_read b); simpl; apply IH.
Qed.

Lemma year_month_shape (d : string) :
  contains "/" (year_month d) = false /\ (String.length (year_month d) <= 7)%nat.
Proof.
  unfold year_month. split.
  - apply contains_free. unfold free_of.
    apply (sall_smap (fun _ => true)).
    + intros c _. unfold chr. destruct (Ascii.eqb_spec c "/") as [-> | Hne]; [done|].
      apply negb_true_iff, Ascii.eqb_neq. congruence.
    + generalize (slice_to 7 d). intros s. by induction s.
  - rewrite length_smap. apply length_slice_to.
Qed.

(** X29: The reading timeline is in ascending order of its months and has no
    month twice; its counts add up to the number of read books with a date
    read; the count of a month is positive and is the number of those
    books read in it; a month is at most seven characters and holds no
    slash. *)
Theorem reading_timeline_runs_in_order (books : list Book) :
  let dated := List.filter has_date_read (List.filter is_read books) in
  let month b := year_month (get_or "" (bk_date_read b)) in
  Sorted (fun a b => String.leb a.1 b.1 = true) (reading_timeline (analytics books))
  /\ NoDup (reading_timeline (analytics books)).*1
  /\ sum_list (reading_timeline (analytics books)).*2 = length dated
  /\ (forall ym n, (ym, n) ∈ reading_timeline (analytics books) ->
        (0 < n)%nat
        /\ n = length (List.filter (fun b => bool_decide (month b = ym)) dated)
        /\ contains "/" ym = false
        /\ (String.length ym <= 7)%nat).
Proof.
  cbv zeta. unfold recalculate_analytics. cbn [reading_timeline].
  set (dated := List.filter has_date_read (List.filter is_read books)).
  set (months := (fun b => year_month (get_or "" (bk_date_read b))) <$> dated).
  assert (Hform : timeline_counter (List.filter is_read books) = counter_of months).
  { unfold timeline_counter. by rewrite timeline_loop. }
  rewrite Hform. destruct (counter_of_spec months) as (Hnodup & Hsum & Hspec).
  pose proof (sorted_items_Permutation (counter_of months)) as Hperm.
  split; [apply sorted_items_sorted|]. split; [by rewrite Hperm|].
  split; [rewrite Hperm, Hsum; unfold months; by rewrite length_fmap|].
  intros ym n Hin. rewrite Hperm in Hin. apply Hspec in Hin as [Hpos ->].
  unfold months in *. rewrite filter_fmap_length in *.
  split; [done|]. split; [done|].
  destruct (List.filter _ dated) as [|b l] eqn:Hb; [simpl in Hpos; lia|].
  assert (Hin : b ∈ List.filter
                   (fun b => bool_decide (year_month (get_or "" (bk_date_read b)) = ym)) dated)
    by (rewrite Hb; by left).
  apply filter_elem_of in Hin as [_ Hym]. apply bool_decide_eq_true in Hym as <-.
  apply year_month_shape.
Qed.

End Shelf.

Lemma reading_timeline_runs_in_order_witness :
  reading_timeline (recalculate_analytics (fun _ => None) shelf)
  = [("2020-01", 1%nat); ("2021-03", 1%nat)]
  /\ contains "/" "2020-01" = false.
Proof.
  assert (Hrun : reading_timeline (recalculate_analytics (fun _ => None) shelf)
                 = [("2020-01", 1%nat); ("2021-03", 1%nat)]) by (vm_compute; reflexivity).
  split; [exact Hrun|].
  destruct (reading_timeline_runs_in_order (fun _ => None) shelf) as (_ & _ & _ & Hentry).
  apply (Hentry "2020-01" 1%nat). rewrite Hrun. by left.
Defined.

End ShelfFacts.

(** ** Publishing: the exclusions and their files *)

Module PublishFacts.
Import Text Exclusions Publish Samples Cases.
Import TextFacts AnalyticsFacts RecordSetFacts ShelfFacts.

Lemma default_rules :
  rule default_config "exclude_no_date_read" = true
  /\ rule default_config "exclude_one_star" = true
  /\ rule default_config "exclude_unread" = false.
Proof. repeat split; vm_compute; reflexivity. Qed.

(** X23: Without a configuration file [load_exclusions] writes the default one
    and returns it, and loading what was written returns it again.  Under
    the default rules a book is excluded exactly when it is read and has
    no date read, or is rated one star, the date rule first.  A
    configuration without rules and lists switches every rule off and
    excludes nothing. *)
Theorem default_rules_drop_undated_and_one_star (book : Book) (name : string) :
  load_exclusions None = (default_config, Some default_config)
  /\ (forall config, load_exclusions (load_exclusions (Some config)).2
                     = load_exclusions (Some config))
  /\ should_exclude book default_config
     = (if is_read book && negb (has_date_read book) then (true, Some "no_date_read")
        else if bool_decide (bk_my_rating book = Some 1%Z) then (true, Some "one_star")
        else (false, None))
  /\ rule {| rules := ∅; exclude_titles := []; exclude_authors := []; exclude_ids := [] |}
       name = false
  /\ should_exclude book
       {| rules := ∅; exclude_titles := []; exclude_authors := []; exclude_ids := [] |}
     = (false, None).
Proof.
  split; [done|]. split; [done|].
  destruct default_rules as (Hdate & Hstar & Hunread). split; [|split].
  - unfold should_exclude. rewrite Hdate, Hstar, Hunread. simpl.
    destruct (is_read book && negb (has_date_read book)); [done|].
    by destruct (bool_decide (bk_my_rating book = Some 1%Z)).
  - unfold rule. simpl. by rewrite lookup_empty.
  - unfold should_exclude, rule. simpl. by rewrite !lookup_empty.
Qed.

Lemma should_exclude_reason (book : Book) (exclusions : Config) :
  match should_exclude book exclusions with
  | (true, reason) =>
      exists tag, reason = Some tag
        /\ tag ∈ ["no_date_read"; "one_star"; "unread"; "title_list"; "author_list"; "id_list"]
  | (false, reason) => reason = None
  end.
Proof.
  unfold should_exclude.
  repeat match goal with
         | |- context [if ?c then _ else _] => destruct c
         end;
    try done; eexists; (split; [reflexivity|]);
    apply list_elem_of_In; simpl; tauto.
Qed.

Lemma filter_split_Permutation {A} (p : A -> bool) (l : list A) :
  l ≡ₚ (List.filter p l ++ List.filter (fun x => negb (p x)) l)%list.
Proof.
  induction l as [|x l IH]; simpl; [done|].
  destruct (p x); simpl.
  - by constructor.
  - rewrite <- Permutation_middle. by constructor.
Qed.

(** X24: The loop of [run_exclusions] splits the books: kept and excluded books
    together are a permutation of the input and the kept ones are in their
    order.  The reason counter has each reason once, its counts are
    positive and add up to the number of excluded books, each count is the
    number of excluded books with that reason, and every reason is one of
    the six tags. *)
Theorem exclusion_reasons_add_up (exclusions : Config) (books : list Book) :
  let kept := filtered_books exclusions books in
  let taken := excluded_books exclusions books in
  let reasons := exclusion_reasons exclusions books in
  books ≡ₚ (taken ++ kept)%list
  /\ (length kept + length taken = length books)%nat
  /\ sublist kept books
  /\ NoDup reasons.*1
  /\ sum_list reasons.*2 = length taken
  /\ (forall reason n, (reason, n) ∈ reasons ->
        (0 < n)%nat
        /\ n = length (List.filter
                         (fun b => bool_decide ((should_exclude b exclusions).2 = reason)) taken)
        /\ exists tag, reason = Some tag
             /\ tag ∈ ["no_date_read"; "one_star"; "unread"; "title_list"; "author_list";
                        "id_list"]).
Proof.
  cbv zeta. unfold exclusion_reasons.
  set (taken := excluded_books exclusions books).
  assert (Hperm : books ≡ₚ (taken ++ filtered_books exclusions books)%list)
    by apply (filter_split_Permutation (fun b => (should_exclude b exclusions).1)).
  destruct (counter_of_spec ((fun b => (should_exclude b exclusions).2) <$> taken))
    as (Hnodup & Hsum & Hspec).
  split; [done|]. split.
  { apply Permutation_length in Hperm. rewrite List.length_app in Hperm. lia. }
  split; [apply filter_sublist|]. split; [done|].
  split; [by rewrite Hsum, length_fmap|].
  intros reason n Hin. apply Hspec in Hin as [Hpos ->].
  rewrite filter_fmap_length in *. split; [done|]. split; [done|].
  destruct (List.filter _ taken) as [|b l] eqn:Hb; [simpl in Hpos; lia|].
  assert (Hin : b ∈ List.filter
                   (fun b => bool_decide ((should_exclude b exclusions).2 = reason)) taken)
    by (rewrite Hb; by left).
  apply filter_elem_of in Hin as [Htaken Hreason].
  apply bool_decide_eq_true in Hreason as <-.
  apply filter_elem_of in Htaken as [_ Hexcluded].
  pose proof (should_exclude_reason b exclusions) as Htag.
  destruct (should_exclude b exclusions) as [[] reason]; [done | done].
Qed.

Lemma exclusion_reasons_add_up_witness :
  exclusion_reasons default_config [emma; undated; dune] = [(Some "no_date_read", 1%nat)]
  /\ exists tag, Some "no_date_read" = Some tag
       /\ tag ∈ ["no_date_read"; "one_star"; "unread"; "title_list"; "author_list"; "id_list"].
Proof.
  assert (Hrun : exclusion_reasons default_config [emma; undated; dune]
                 = [(Some "no_date_read", 1%nat)]) by (vm_compute; reflexivity).
  split; [exact Hrun|].
  destruct (exclusion_reasons_add_up default_config [emma; undated; dune])
    as (_ & _ & _ & _ & _ & Hentry).
  apply (Hentry (Some "no_date_read") 1%nat). rewrite Hrun. by left.
Defined.

(** *** The galaxy and the four files *)

Lemma filtered_ids_spec (filtered : list Book) :
  match filtered_ids filtered with
  | Some ids =>
      Forall (fun b => is_Some (bk_id b)) filtered
      /\ forall i, i ∈ ids <-> exists b, b ∈ filtered /\ bk_id b = Some i
  | None => Exists (fun b => bk_id b = None) filtered
  end.
Proof.
  unfold filtered_ids. destruct (mapM bk_id filtered) as [l|] eqn:Hl; simpl.
  - split; [apply (mapM_is_Some_1 bk_id); by rewrite Hl|].
    apply mapM_Some in Hl.
    + intros i. rewrite elem_of_list_to_set. split.
      * intros Hi. induction Hl as [|b i' bs l' Hb Hrest IH]; [inversion Hi|].
        apply elem_of_cons in Hi as [-> | Hi].
        -- exists b. split; [by left | done].
        -- destruct (IH Hi) as (b' & Hb' & Hid). exists b'. split; [by right | done].
      * intros (b & Hb & Hid). induction Hl as [|b0 i' bs l' Hb0 Hrest IH]; [inversion Hb|].
        apply elem_of_cons in Hb as [-> | Hb].
        -- apply elem_of_cons. left. congruence.
        -- apply elem_of_cons. right. by apply IH.
  - by apply mapM_None.
Qed.

Lemma filtered_books_again (exclusions : Config) (books : list Book) :
  filtered_books exclusions (filtered_books exclusions books) = filtered_books exclusions books
  /\ excluded_books exclusions (filtered_books exclusions books) = [].
Proof.
  unfold filtered_books, excluded_books. split; [apply filter_twice|].
  apply filter_none, Forall_forall. intros b [_ Hb]%filter_elem_of.
  by apply negb_true_iff.
Qed.

Section Files.
Context {Point : Type}.
Variable point_id : Point -> option string.
Variable json_loads : string -> option (list string).

Lemma filter_galaxy_spec (ids : gset string) (galaxy_data : list Point) :
  match filter_galaxy point_id ids galaxy_data with
  | Some kept =>
      Forall (fun g => is_Some (point_id g)) galaxy_data
      /\ sublist kept galaxy_data
      /\ forall g, g ∈ kept <->
           g ∈ galaxy_data /\ exists i, point_id g = Some i /\ i ∈ ids
  | None => Exists (fun g => point_id g = None) galaxy_data
  end.
Proof.
  induction galaxy_data as [|g rest IH]; simpl.
  - split; [done|]. split; [done|]. intros g. split; [inversion 1 | by intros [H _]].
  - destruct (point_id g) as [i|] eqn:Hg; [|by left].
    destruct (filter_galaxy point_id ids rest) as [kept|]; [|by right].
    destruct IH as (Hall & Hsub & Hkept). split; [by constructor|].
    case_bool_decide as Hin.
    + split; [by constructor|]. intros g'. rewrite !elem_of_cons, Hkept. split.
      * intros [-> | [Hg' Hi]]; [|by auto]. split; [by left|]. eauto.
      * intros [[-> | Hg'] Hi]; [by left | by right].
    + split; [by constructor|]. intros g'. rewrite elem_of_cons, Hkept. split.
      * intros [Hg' Hi]. by auto.
      * intros [[-> | Hg'] Hi]; [|done]. destruct Hi as (i' & Hi' & Hin').
        rewrite Hg in Hi'. by injection Hi' as <-.
Qed.

Lemma filter_galaxy_again (ids : gset string) (galaxy_data kept : list Point) :
  filter_galaxy point_id ids galaxy_data = Some kept ->
  filter_galaxy point_id ids kept = Some kept.
Proof.
  revert kept. induction galaxy_data as [|g rest IH]; intros kept; simpl.
  - by intros [= <-].
  - destruct (point_id g) as [i|] eqn:Hg; [|done].
    destruct (filter_galaxy point_id ids rest) as [kept'|]; [|done].
    specialize (IH kept' eq_refl).
    case_bool_decide as Hin; intros [= <-]; [|done].
    simpl. rewrite Hg, IH. by rewrite bool_decide_eq_true_2.
Qed.

Abbreviation run := (run_exclusions_files point_id json_loads).

(** X25: What [run_exclusions] leaves on disk.  The library file is overwritten
    with the kept books first, in every run.  When a kept book has no id
    the run stops with a [KeyError] after that, and the galaxy and the
    analytics file stay as they were, out of step with the library.  When
    the run returns, it returns the kept and the excluded books, the
    analytics are those of the kept books, and the galaxy holds, in order,
    exactly the points whose id is that of a kept book. *)
Theorem run_exclusions_leaves_its_files (files : Files) :
  let exclusions := (load_exclusions (exclusions_file files)).1 in
  let kept := filtered_books exclusions (library_file files) in
  let taken := excluded_books exclusions (library_file files) in
  exclusions_file (run files).1 = Some exclusions
  /\ library_file (run files).1 = kept
  /\ (Exists (fun b => bk_id b = None) kept ->
      (run files).2 = None
      /\ galaxy_file (run files).1 = galaxy_file files
      /\ analytics_file (run files).1 = analytics_file files)
  /\ (forall out, (run files).2 = Some out ->
        out = (kept, taken)
        /\ analytics_file (run files).1 = recalculate_analytics json_loads kept
        /\ sublist (galaxy_file (run files).1) (galaxy_file files)
        /\ forall g, g ∈ galaxy_file (run files).1 <->
             g ∈ galaxy_file files
             /\ exists b i, b ∈ kept /\ bk_id b = Some i /\ point_id g = Some i).
Proof.
  cbv zeta. unfold run_exclusions_files.
  assert (Hload : load_exclusions (exclusions_file files)
                  = ((load_exclusions (exclusions_file files)).1,
                     Some (load_exclusions (exclusions_file files)).1))
    by (by destruct (exclusions_file files)).
  rewrite Hload. cbn [fst snd].
  set (exclusions := (load_exclusions (exclusions_file files)).1).
  set (kept := filtered_books exclusions (library_file files)).
  pose proof (filtered_ids_spec kept) as Hids.
  destruct (filtered_ids kept) as [ids|].
  - destruct Hids as [Hall Hids].
    pose proof (filter_galaxy_spec ids (galaxy_file files)) as Hgalaxy.
    destruct (filter_galaxy point_id ids (galaxy_file files)) as [filtered_galaxy|].
    + destruct Hgalaxy as (_ & Hsub & Hkept).
      assert (Hraise : Exists (fun b => bk_id b = None) kept -> False).
      { intros (b & Hb & Hnone)%Exists_exists. rewrite Forall_forall in Hall.
        destruct (Hall b Hb) as [i Hi]. congruence. }
      destruct (forallb printable _); cbn [fst snd exclusions_file library_file galaxy_file
                                            analytics_file];
        (split; [done|]; split; [done|]; split; [by intros ?%Hraise|]);
        [|done].
      intros out [= <-]. split; [done|]. split; [done|]. split; [done|].
      intros g. rewrite Hkept. split.
      * intros [Hg (i & Hi & Hin)]. split; [done|].
        apply Hids in Hin as (b & Hb & Hid). by exists b, i.
      * intros [Hg (b & i & Hb & Hid & Hi)]. split; [done|].
        exists i. split; [done|]. apply Hids. by exists b.
    + cbn [fst snd exclusions_file library_file galaxy_file analytics_file].
      split; [done|]. split; [done|]. split; [done|]. done.
  - cbn [fst snd exclusions_file library_file galaxy_file analytics_file].
    split; [done|]. split; [done|]. split; [done|]. done.
Qed.

(** X26: A run of [run_exclusions] on the files a run that returned has left
    changes none of them and excludes no book. *)
Theorem second_run_changes_nothing (files files' : Files) (out : list Book * list Book) :
  run files = (files', Some out) -> run files' = (files', Some (out.1, [])).
Proof.
  unfold run_exclusions_files.
  assert (Hload : load_exclusions (exclusions_file files)
                  = ((load_exclusions (exclusions_file files)).1,
                     Some (load_exclusions (exclusions_file files)).1))
    by (by destruct (exclusions_file files)).
  rewrite Hload. set (exclusions := (load_exclusions (exclusions_file files)).1).
  set (kept := filtered_books exclusions (library_file files)).
  destruct (filtered_ids kept) as [ids|] eqn:Hids; [|done].
  destruct (filter_galaxy point_id ids (galaxy_file files)) as [filtered_galaxy|] eqn:Hgalaxy;
    [|done].
  destruct (forallb printable _); [|done].
  intros [= <- <-]. cbn [exclusions_file library_file galaxy_file analytics_file fst snd].
  cbn [load_exclusions].
  destruct (filtered_books_again exclusions (library_file files)) as [Hkept Htaken].
  fold kept in Hkept, Htaken. rewrite Hkept, Htaken.
  rewrite Hids, (filter_galaxy_again ids _ _ Hgalaxy). reflexivity.
Qed.

End Files.

Lemma second_run_changes_nothing_witness :
  run_exclusions_files point_name no_json
    (run_exclusions_files point_name no_json
       (desk [emma; undated; dune] ["isbn:9780141439587"; "gr:77"; "isbn:9780441172719"])).1
  = ((run_exclusions_files point_name no_json
        (desk [emma; undated; dune] ["isbn:9780141439587"; "gr:77"; "isbn:9780441172719"])).1,
     Some ([emma; dune], [])).
Proof.
  apply (second_run_changes_nothing point_name no_json
           (desk [emma; undated; dune] ["isbn:9780141439587"; "gr:77"; "isbn:9780441172719"])
           _ ([emma; dune], [undated])).
  vm_compute. reflexivity.
Defined.

Lemma run_exclusions_leaves_its_files_witness :
  (run_exclusions_files point_name no_json (desk [emma; walden] ["isbn:9780141439587"])).2
  = None.
Proof.
  destruct (run_exclusions_leaves_its_files point_name no_json
              (desk [emma; walden] ["isbn:9780141439587"])) as (_ & _ & Hraise & _).
  apply Hraise. vm_compute. apply Exists_cons_tl, Exists_cons_hd. reflexivity.
Defined.

End PublishFacts.

(** ** [safe_get] *)

Module JsonFacts.
Import Text Shapes Describe Json Cases.
Import TextFacts NormalizerFacts DescribeFacts.

Lemma split_on_parts (a : ascii) (s : string) : split_on a s <> [].
Proof.
  destruct s as [|c s]; simpl; [done|].
  destruct (Ascii.eqb a c); [done|]. by destruct (split_on a s).
Qed.

Lemma safe_get_parts_scalar (cur : json) (parts : list string) (default : json) :
  parts <> [] ->
  match cur with JDict _ => True | _ => safe_get_parts cur parts default = default end.
Proof. intros Hparts. destruct parts; [done|]. by destruct cur. Qed.

(** X17: [safe_get] gives the default on anything that is not a dictionary.  For
    a key without a dot it is the lookup, with the default for a missing
    key: a key that is present with the value null gives null.  A path
    that starts with such a key and a dot goes on in the value under the
    key.  It reads what an insertion wrote, and gives the default after a
    deletion. *)
Theorem safe_get_walks_the_path (d : gmap string json) (k rest : string) (v default : json) :
  contains "." k = false ->
  (forall cur path,
     match cur with JDict _ => True | _ => safe_get cur path default = default end)
  /\ safe_get (JDict d) k default = from_option id default (d !! k)
  /\ safe_get (JDict d) (k ++ "." ++ rest) default
     = match d !! k with
       | Some inner => safe_get inner rest default
       | None => default
       end
  /\ safe_get (JDict (<[k := v]> d)) k default = v
  /\ safe_get (JDict (delete k d)) k default = default.
Proof.
  intros Hk%contains_free. split.
  { intros cur path. apply safe_get_parts_scalar, split_on_parts. }
  assert (Hkey : forall m, safe_get (JDict m) k default = from_option id default (m !! k)).
  { intros m. unfold safe_get. rewrite (split_on_single "." k Hk). simpl.
    by destruct (m !! k). }
  split; [apply Hkey|]. split; [|split].
  - unfold safe_get. change (k ++ "." ++ rest) with (k ++ String "." rest).
    by rewrite (split_on_first "." k rest Hk).
  - by rewrite Hkey, lookup_insert_eq.
  - by rewrite Hkey, lookup_delete_eq.
Qed.

Lemma safe_get_walks_the_path_witness :
  safe_get volume "google.google_volume_id" (JStr "") = JStr "B1hSG45JCX4C"
  /\ safe_get volume "openlibrary.openlibrary_key" (JStr "") = JStr ""
  /\ safe_get volume "error" (JStr "") = JNull.
Proof.
  split; [|split].
  - destruct (safe_get_walks_the_path
                {[ "isbn" := JStr "9780441172719";
                   "google" := JDict {[ "google_volume_id" := JStr "B1hSG45JCX4C" ]};
                   "error" := JNull ]}
                "google" "google_volume_id" JNull (JStr "") eq_refl)
      as (_ & _ & Hpath & _).
    etransitivity; [exact Hpath|]. vm_compute. reflexivity.
  - vm_compute. reflexivity.
  - vm_compute. reflexivity.
Defined.

End JsonFacts.

(** ** What a lookup returns and where the results go *)

Module LookupFacts.
Import Text Re Shapes Normalizer Frames Enrich Queue Samples Cases.
Import TextFacts ReFacts NormalizerFacts CleanerFacts QueueFacts.

Lemma cover_url_nonempty (isbn size : string) :
  nonempty (Some (openlibrary_cover_url isbn size)) = true.
Proof. unfold openlibrary_cover_url. by rewrite app_cons. Qed.

Section Lookups.
Variable W : Type.
Variable now_iso_io : W -> W * string.
Variable google_lookup_io : W -> string -> W * (string + option GoogleInfo).
Variable openlibrary_lookup_io : W -> string -> W * (string + option OpenLibraryInfo).
Variable url_exists_io : W -> string -> W * bool.
Variable save_cache_io : W -> gmap string Payload -> W * option string.
Variable sleep_io : W -> W.

Abbreviation St := (State W).
Abbreviation enrich := (enrich_one W now_iso_io google_lookup_io openlibrary_lookup_io url_exists_io).
Abbreviation process :=
  (process_row W now_iso_io google_lookup_io openlibrary_lookup_io url_exists_io
     save_cache_io sleep_io).
Abbreviation run :=
  (run_queue W now_iso_io google_lookup_io openlibrary_lookup_io url_exists_io
     save_cache_io sleep_io).

(** X18: What [enrich_one] returns when no lookup raises: the cleaned ISBN and no
    error; it asks the clock, Google Books, Open Library and the cover
    service once each, in this order.  A description source is named
    exactly when the description is not empty, and a cover source exactly
    when the cover is not empty.  A description of Google Books that is
    not empty is the one taken, and a cover from the cover service is the
    address that was probed. *)
Theorem enrich_one_names_its_sources (isbn : string) (st st' : St) (p : Payload) :
  enrich isbn st = (st', inr p) ->
  let cleaned := Enrich.clean_isbn (Some isbn) in
  p_isbn p = Some cleaned
  /\ p_error p = None
  /\ trace W st'
     = (trace W st ++ [EvNow; EvGoogle cleaned; EvOpenLibrary cleaned;
                       EvHead (openlibrary_cover_url cleaned "L")])%list
  /\ (is_Some (p_description_source p) <-> nonempty (p_description p) = true)
  /\ (p_description_source p = None -> p_description p = None)
  /\ (is_Some (p_cover_source p) <-> nonempty (p_cover_image_url p) = true)
  /\ (forall gi, p_google p = Some gi -> nonempty (g_description gi) = true ->
        p_description p = g_description gi
        /\ p_description_source p = Some "google_books")
  /\ (p_cover_source p = Some "open_library_covers" ->
        p_cover_image_url p = Some (openlibrary_cover_url cleaned "L")).
Proof.
  unfold enrich_one, bind, now_iso, google_lookup, openlibrary_lookup, url_exists, ret, acted.
  simpl.
  pose proof (cover_url_nonempty (Enrich.clean_isbn (Some isbn)) "L") as Hurl.
  repeat match goal with
         | |- context [now_iso_io ?w] => destruct (now_iso_io w) as [? ?]; simpl
         | |- context [google_lookup_io ?w ?i] =>
             destruct (google_lookup_io w i) as [? [?|[gi|]]]; simpl; [done| |]
         | |- context [openlibrary_lookup_io ?w ?i] =>
             destruct (openlibrary_lookup_io w i) as [? [?|[oi|]]]; simpl; [done| |]
         end.
  all: repeat match goal with
         | |- context [if nonempty ?c then _ else _] => destruct (nonempty c) eqn:?; simpl
         end.
  all: match goal with
       | |- context [url_exists_io ?w ?u] => destruct (url_exists_io w u) as [? found]
       end.
  all: destruct found; simpl; intros [= <- <-]; simpl.
  all: rewrite <- !List.app_assoc; simpl.
  all: repeat match goal with |- _ /\ _ => split end.
  all: try reflexivity.
  all: try (split; [intros _; assumption | intros _; by eexists]).
  all: try (split; [by intros [? [=]] | intros; congruence]).
  all: try (intros ? [= <-] ?; first [by split | congruence]).
  all: try (intros; congruence).
Qed.

Lemma process_row_results (row : QueueRow) (st : St) (key : string) :
  is_Some (results W (process row st).1 !! key)
  <-> is_Some (results W st !! key)
      \/ (has_isbn row = true /\ get_or "" (q_book_key row) = key).
Proof.
  assert (Hput : forall (m : gmap string Payload) k p,
            is_Some (<[k := p]> m !! key) <-> is_Some (m !! key) \/ k = key).
  { intros m k p. rewrite lookup_insert_is_Some. destruct (decide (k = key)); intuition congruence. }
  unfold has_isbn, process_row.
  destruct (is_empty (Enrich.clean_isbn _)) eqn:Hisbn; simpl; [intuition congruence|].
  unfold bind at 1. unfold get_cache at 1.
  destruct (cache W st !! _) as [hit|] eqn:Hhit.
  { unfold set_result. simpl. rewrite Hput. intuition congruence. }
  unfold bind at 1, try_except. unfold bind at 1.
  match goal with
  | |- context [enrich ?i st] =>
      destruct (EnrichFacts.enrich_one_dicts W now_iso_io google_lookup_io
                  openlibrary_lookup_io url_exists_io i st) as [_ Hr];
      destruct (enrich i st) as [st1 [e|enriched]]
  end; simpl in Hr.
  - unfold bind, now_iso, set_result, sleep. simpl.
    destruct (now_iso_io _) as [w t]. simpl. rewrite Hput, Hr. intuition congruence.
  - unfold bind, set_cache, set_result, save_cache, sleep, now_iso. simpl.
    destruct (save_cache_io _ _) as [w [e|]]; simpl.
    + destruct (now_iso_io _) as [w' t]. simpl. rewrite !Hput, Hr. intuition congruence.
    + rewrite Hput, Hr. intuition congruence.
Qed.

Lemma run_queue_results (rows : list QueueRow) (st : St) (key : string) :
  is_Some (results W (run rows st).1 !! key)
  <-> is_Some (results W st !! key)
      \/ exists row, row ∈ rows /\ has_isbn row = true /\ get_or "" (q_book_key row) = key.
Proof.
  revert st. induction rows as [|row rows IH]; intros st.
  - simpl. split; [by left|]. intros [H | (row & Hrow & _)]; [done | inversion Hrow].
  - simpl. unfold bind.
    pose proof (process_row_results row st key) as Hrow.
    destruct (EnrichFacts.process_row_returns W now_iso_io google_lookup_io
                openlibrary_lookup_io url_exists_io save_cache_io sleep_io row st)
      as [st1 Hst1].
    rewrite Hst1 in *. simpl in Hrow. rewrite IH, Hrow. split.
    + intros [[H | [H1 H2]] | (r & Hr & H1 & H2)]; [by left | right | right].
      * exists row. split; [left|]; done.
      * exists r. split; [by right | done].
    + intros [H | (r & Hr & H1 & H2)]; [by left; left|].
      apply elem_of_cons in Hr as [-> | Hr]; [by left; right|].
      right. by exists r.
Qed.

(** X15: The enrichment loop run over the queue that [main] writes never stops
    with an exception, and afterwards [results] holds an entry under a key
    exactly when it held one before or the key is that of a record that
    needs a description or a cover and whose ISBN is not empty after
    cleaning. *)
Theorem results_cover_queued_books_with_isbn (all_records : list BookRecord) (st : St) :
  let rows := queue_row <$> enrichment_queue all_records in
  (run rows st).2 = inr tt
  /\ forall key,
       is_Some (results W (run rows st).1 !! key)
       <-> is_Some (results W st !! key)
           \/ exists r, r ∈ all_records /\ book_key r = key
                        /\ needs_enrichment r = true
                        /\ Enrich.clean_isbn (isbn r) <> "".
Proof.
  cbv zeta. split.
  { destruct (EnrichFacts.run_queue_returns W now_iso_io google_lookup_io
                openlibrary_lookup_io url_exists_io save_cache_io sleep_io
                (queue_row <$> enrichment_queue all_records) st) as [st' ->]. done. }
  intros key. rewrite run_queue_results.
  assert (Hisbn : forall r, has_isbn (queue_row (queue_record r)) = true
                            <-> Enrich.clean_isbn (isbn r) <> "").
  { intros r. unfold has_isbn, queue_row, queue_record. simpl.
    replace (Enrich.clean_isbn (Some (get_or "" (isbn r)))) with (Enrich.clean_isbn (isbn r))
      by (by destruct (isbn r)).
    destruct (Enrich.clean_isbn (isbn r)); simpl; split; congruence. }
  split; (intros [H | H]; [by left | right]).
  - destruct H as (row & Hrow & Hhas & Hkey).
    unfold enrichment_queue in Hrow.
    apply list_elem_of_fmap in Hrow as (q & -> & Hq).
    apply list_elem_of_fmap in Hq as (r & -> & Hr).
    apply filter_elem_of in Hr as [Hr Hneeds].
    exists r. split; [done|]. split; [done|]. split; [done|]. by apply Hisbn.
  - destruct H as (r & Hr & Hkey & Hneeds & Hclean).
    exists (queue_row (queue_record r)). split; [|split; [by apply Hisbn | done]].
    unfold enrichment_queue. apply list_elem_of_fmap. eexists. split; [done|].
    apply list_elem_of_fmap. eexists. split; [done|]. by apply filter_elem_of.
Qed.

End Lookups.

Lemma enrich_one_names_its_sources_witness :
  exists st' p,
    helped_lookup "978-0441172719" sample_start = (st', inr p)
    /\ p_isbn p = Some "9780441172719"
    /\ p_description_source p = Some "google_books"
    /\ p_cover_source p = Some "google_books".
Proof.
  eexists _, _. split; [vm_compute; reflexivity|].
  match goal with
  | |- p_isbn ?p = _ /\ _ =>
      destruct (enrich_one_names_its_sources nat tick_now helpful_google empty_openlibrary
                  no_cover "978-0441172719" sample_start
                  (helped_lookup "978-0441172719" sample_start).1 p)
        as (Hisbn & _ & _ & _ & _ & Hcover & Hgoogle & _)
  end.
  - vm_compute. reflexivity.
  - split; [by rewrite Hisbn|]. split; [eapply Hgoogle; reflexivity|].
    reflexivity.
Defined.

End LookupFacts.

(** ** Merging the lookups into the books *)

Module MergeFacts.
Import Text Re Shapes Normalizer Frames Enrich Samples Cases.
Import TextFacts.

Lemma merge_back_short_description (cols : Columns) (book : BookRecord)
    (enriched : option EnrichedRow) :
  (String.length (fillna (description_new (default no_enrichment enriched))) < 80)%nat ->
  description_raw (merge_back cols book enriched)
  = column (has_description_raw cols) (description_raw book)
  /\ description_source (merge_back cols book enriched)
     = column (has_description_source cols) (description_source book).
Proof.
  intros Hshort%Nat.leb_gt. unfold merge_back. cbv zeta.
  replace (match enriched with Some e => e | None => no_enrichment end)
    with (default no_enrichment enriched) by (by destruct enriched).
  cbn [description_raw description_source with_enrichment].
  by rewrite Hshort, andb_false_r.
Qed.

Lemma merge_back_no_cover (cols : Columns) (book : BookRecord)
    (enriched : option EnrichedRow) :
  String.length (fillna (cover_image_url_new (default no_enrichment enriched))) = 0%nat ->
  cover_image_url (merge_back cols book enriched)
  = column (has_cover_image_url cols) (cover_image_url book)
  /\ cover_image_source (merge_back cols book enriched)
     = column (has_cover_image_source cols) (cover_image_source book).
Proof.
  intros Hnone. unfold merge_back. cbv zeta.
  replace (match enriched with Some e => e | None => no_enrichment end)
    with (default no_enrichment enriched) by (by destruct enriched).
  cbn [cover_image_url cover_image_source with_enrichment].
  by rewrite Hnone, andb_false_r.
Qed.

Lemma rows_out_empty (json_dumps : list string -> string) (results : gmap string Payload) :
  rows_out json_dumps results = [] <-> results = ∅.
Proof.
  unfold rows_out. split.
  - intros Hrows%fmap_nil_inv. by apply map_to_list_empty_iff.
  - intros ->. by rewrite map_to_list_empty.
Qed.

(** X22: The masked assignments of the merge are idempotent: applied once
    more to a merged row, with the same columns of the enrichment beside
    it, they change nothing. *)
Theorem merging_twice_is_merging_once (cols : Columns) (book : BookRecord)
    (enriched : option EnrichedRow) :
  merge_back all_columns (merge_back cols book enriched) enriched
  = merge_back cols book enriched.
Proof.
  unfold merge_back. simpl.
  repeat match goal with
         | |- context [if ?c then _ else _] => destruct c eqn:?; simpl
         end;
    try reflexivity; simpl in *; congruence.
Qed.

Section Merge.
Variable json_dumps : list string -> string.

(** X21: With no result at all the merge raises: a frame of no rows has no
    key column to merge on.  Otherwise it keeps the keys of the books in
    their order.  A book without a result, or with a result whose
    description has fewer than 80 characters, keeps its description and
    its description source; a book without a result, or with a result
    without cover, keeps its cover and its cover source; a book whose
    lookup failed keeps both.  A column the file came without counts as
    empty. *)
Theorem merge_keeps_what_lookups_missed (cols : Columns) (results : gmap string Payload)
    (books : list BookRecord) (i : nat) (b : BookRecord) :
  books !! i = Some b ->
  results <> ∅ ->
  merge_results json_dumps cols ∅ books = None
  /\ exists merged,
       merge_results json_dumps cols results books = Some merged
       /\ book_key <$> merged = book_key <$> books
       /\ exists b',
            merged !! i = Some b'
            /\ ((results !! book_key b = None
                 \/ exists p, results !! book_key b = Some p
                              /\ (String.length (get_or "" (p_description p)) < 80)%nat) ->
                description_raw b' = column (has_description_raw cols) (description_raw b)
                /\ description_source b'
                   = column (has_description_source cols) (description_source b))
            /\ ((results !! book_key b = None
                 \/ exists p, results !! book_key b = Some p
                              /\ nonempty (p_cover_image_url p) = false) ->
                cover_image_url b' = column (has_cover_image_url cols) (cover_image_url b)
                /\ cover_image_source b'
                   = column (has_cover_image_source cols) (cover_image_source b))
            /\ (forall isbn e t, results !! book_key b = Some (error_payload isbn e t) ->
                description_raw b' = column (has_description_raw cols) (description_raw b)
                /\ cover_image_url b'
                   = column (has_cover_image_url cols) (cover_image_url b)).
Proof.
  intros Hb Hresults. split.
  { unfold merge_results, rows_out. by rewrite map_to_list_empty. }
  eexists. split.
  { unfold merge_results.
    destruct (rows_out json_dumps results) as [|row rows] eqn:Hrows; [|reflexivity].
    by apply rows_out_empty in Hrows. }
  split.
  { rewrite <- list_fmap_compose. by apply list_fmap_ext. }
  eexists. split.
  { by rewrite list_lookup_fmap, Hb. }
  split; [|split].
  - intros Hp. apply merge_back_short_description.
    destruct Hp as [-> | (p & -> & Hp)]; simpl; [lia | done].
  - intros Hp. apply merge_back_no_cover.
    destruct Hp as [-> | (p & -> & Hp)]; simpl; [done|].
    unfold or_else. by rewrite Hp.
  - intros isbn e t Hp. split.
    + apply merge_back_short_description. rewrite Hp. simpl. lia.
    + apply merge_back_no_cover. by rewrite Hp.
Qed.

End Merge.

Lemma merge_keeps_what_lookups_missed_witness :
  merge_results plain_dumps all_columns ∅ [dune_corpus] = None
  /\ exists merged b',
       merge_results plain_dumps all_columns
         {[ "isbn:9780441172719" :=
              error_payload "9780441172719" "timeout" "2024-01-01T00:00:00+00:00" ]}
         [dune_corpus] = Some merged
       /\ merged !! 0%nat = Some b'
       /\ description_raw b' = description_raw dune_corpus
       /\ cover_image_url b' = cover_image_url dune_corpus.
Proof.
  destruct (merge_keeps_what_lookups_missed plain_dumps all_columns
              {[ "isbn:9780441172719" :=
                   error_payload "9780441172719" "timeout" "2024-01-01T00:00:00+00:00" ]}
              [dune_corpus] 0 dune_corpus eq_refl)
    as (Hnone & merged & Hmerged & _ & b' & Hb' & _ & _ & Herror).
  { apply insert_non_empty. }
  split; [exact Hnone|].
  exists merged, b'. split; [exact Hmerged|]. split; [exact Hb'|].
  apply (Herror "9780441172719" "timeout" "2024-01-01T00:00:00+00:00").
  vm_compute. reflexivity.
Defined.

End MergeFacts.
